(** * Ticket lifecycle of tebexsync-bot: transcript rendering and ticket handler

    A shallow embedding of [src/utils/transcript_generator.ts] and of the
    ticket handler (the [Ticket] class: [reloadTickets], [createNewTicket],
    the static and the instance [closeTicket], [handleNewMessage]), with the
    properties of the specification stated and proved over it.

    Conventions.
    - A JavaScript string is a sequence of code units; the model carries
      them as [string] (code units below 256).  On that range the line
      terminators of the regular-expression dot are LF and CR.  A literal
      of the source that holds characters beyond that range is copied as
      the source file has it, byte for byte.
    - An [await]ed call to a collaborator (the store, the chat platform,
      the verification service) either returns or throws; which of the two
      happens is read from an oracle record that is an argument of the
      workflow, the data it returns is read from the modelled state.
    - Effects towards the outside (replies, posts, direct messages, log
      lines, timers) are appended to a trace of events, oldest first. *)

From Stdlib Require Import Ascii String.
From stdpp Require Import gmap strings list sorting pretty.

Open Scope string_scope.
Open Scope list_scope.
Open Scope nat_scope.
Open Scope stdpp_scope.

(** ** JavaScript string and regular-expression helpers *)

Module Js.

(** [s.slice(n)] for [0 <= n]. *)
Fixpoint drop_str (n : nat) (s : string) : string :=
  match n, s with
  | O, _ => s
  | S k, EmptyString => EmptyString
  | S k, String _ r => drop_str k r
  end.

(** [hay.includes(needle)]. *)
Fixpoint includes (needle hay : string) : bool :=
  if String.prefix needle hay then true
  else match hay with
       | EmptyString => false
       | String _ r => includes needle r
       end.

(** [parts.join(sep)]. *)
Fixpoint join (sep : string) (parts : list string) : string :=
  match parts with
  | [] => EmptyString
  | [p] => p
  | p :: rest => p +:+ sep +:+ join sep rest
  end.

(** The characters the dot of a regular expression does not match. *)
Definition isLineTerminator (c : ascii) : bool :=
  if decide (c = "010"%char) then true
  else if decide (c = "013"%char) then true else false.

(** [\d]. *)
Definition isDigit (c : ascii) : bool :=
  let n := nat_of_ascii c in ((48 <=? n) && (n <=? 57))%nat.

(** White space as [String.prototype.trim] removes it, on the modelled
    range: TAB, LF, VT, FF, CR, SP and NBSP. *)
Definition isWhiteSpace (c : ascii) : bool :=
  let n := nat_of_ascii c in
  (((9 <=? n) && (n <=? 13)) || (n =? 32) || (n =? 160))%nat.

(** A regular expression seen from one position of the subject: given the
    code unit before the position (none at index 0) and the rest of the
    subject from the position on, the replacement text of the match that
    starts there and the number of code units it consumes. *)
Definition matcher : Type := option ascii → string → option (string * nat).

(** [subject.replace(re, ...)] for a global [re] none of whose matches is
    empty: scan left to right, at each position not inside an earlier match
    try the expression; on a match emit the replacement and resume after
    it, otherwise copy one code unit.  [skip] counts the code units of the
    current match still to pass over. *)
Fixpoint replace_from (m : matcher) (prev : option ascii) (skip : nat)
    (s : string) : string :=
  match s with
  | EmptyString => EmptyString
  | String c r =>
      match skip with
      | S k => replace_from m (Some c) k r
      | O =>
          match m prev s with
          | Some (rep, len) => rep +:+ replace_from m (Some c) (pred len) r
          | None => String c (replace_from m (Some c) 0 r)
          end
      end
  end.

Definition replaceAll (m : matcher) (s : string) : string :=
  replace_from m None 0 s.

(** A matcher that never fires at a position holding a code unit of [p]. *)
Definition silent_on (p : ascii → bool) (m : matcher) : Prop :=
  ∀ prev c r, p c = true → m prev (String c r) = None.

(** The lazy body [(.*?)] followed by the literal [d]: the shortest run of
    dot-matched code units after which [d] starts. *)
Fixpoint lazy_until (d : string) (dotall : bool) (s : string) : option string :=
  if String.prefix d s then Some EmptyString
  else match s with
       | EmptyString => None
       | String c r =>
           if negb dotall && isLineTerminator c then None
           else String c <$> lazy_until d dotall r
       end.

(** [/L(.*?)R/] for literals [L] and [R], the match replaced by [rep $1];
    [dotall] is the [s] flag. *)
Definition enclosed (l r : string) (dotall : bool) (rep : string → string) : matcher :=
  λ _ s,
    if String.prefix l s then
      match lazy_until r dotall (drop_str (String.length l) s) with
      | Some body =>
          Some (rep body, String.length l + String.length body + String.length r)
      | None => None
      end
    else None.

(** [/D(.*?)D/] replaced by [open$1close]. *)
Definition delimited (d : string) (dotall : bool) (open close : string) : matcher :=
  enclosed d d dotall (λ body, open +:+ body +:+ close).

(** The longest prefix of code units satisfying [p] (a greedy [p*]). *)
Fixpoint take_while (p : ascii → bool) (s : string) : string :=
  match s with
  | EmptyString => EmptyString
  | String c r => if p c then String c (take_while p r) else EmptyString
  end.

(** [^] under the [m] flag. *)
Definition atLineStart (prev : option ascii) : bool :=
  match prev with
  | None => true
  | Some c => isLineTerminator c
  end.

(** [/^PRE(.+)$/m] replaced by [open$1close]: the greedy body runs to the
    end of the line, where [$] holds, and needs one code unit. *)
Definition line_prefixed (pre open close : string) : matcher :=
  λ prev s,
    if atLineStart prev && String.prefix pre s then
      let body := take_while (λ c, negb (isLineTerminator c))
                    (drop_str (String.length pre) s) in
      match body with
      | EmptyString => None
      | _ => Some (open +:+ body +:+ close, String.length pre + String.length body)
      end
    else None.

(** [/PRE(\d+)POST/] replaced by the constant [rep]. *)
Definition digits_between (pre post rep : string) : matcher :=
  λ _ s,
    if String.prefix pre s then
      let ds := take_while isDigit (drop_str (String.length pre) s) in
      match ds with
      | EmptyString => None
      | _ =>
          if String.prefix post (drop_str (String.length pre + String.length ds) s)
          then Some (rep, String.length pre + String.length ds + String.length post)
          else None
      end
    else None.

(** [/\n/] replaced by the constant [rep]. *)
Definition line_feed (rep : string) : matcher :=
  λ _ s,
    match s with
    | String c _ => if decide (c = "010"%char) then Some (rep, 1) else None
    | EmptyString => None
    end.

(** [s.trimStart()], [s.trimEnd()] and [s.trim()]. *)
Fixpoint trimStart (s : string) : string :=
  match s with
  | EmptyString => EmptyString
  | String c r => if isWhiteSpace c then trimStart r else s
  end.

Fixpoint trimEnd (s : string) : string :=
  match s with
  | EmptyString => EmptyString
  | String c r =>
      match trimEnd r with
      | EmptyString => if isWhiteSpace c then EmptyString else String c EmptyString
      | r' => String c r'
      end
  end.

Definition trim (s : string) : string := trimEnd (trimStart s).

(** Every code unit of [s] satisfies [p]. *)
Fixpoint all_chars (p : ascii → bool) (s : string) : bool :=
  match s with
  | EmptyString => true
  | String c r => p c && all_chars p r
  end.

End Js.

(** ** The persistent store (the tables the code reaches through prisma) *)

Module Store.

(** The outcome of an awaited call: a value, or a thrown error with its
    message. *)
Inductive result (A : Type) : Type :=
  | Ok (a : A)
  | Err (message : string).
Arguments Ok {A} a.
Arguments Err {A} message.

(** Row of [Tickets]. *)
Record TicketRow := {
  t_id : nat;
  t_category : nat;
  t_ticketName : string;
  t_channelId : string;
  t_userId : string;
  t_userUsername : string;
  t_userDisplayName : string;
  t_openedAt : Z;
  t_closedAt : option Z;
  t_staffThreadId : option string;
}.

(** Row of [TicketMessages]. *)
Record MessageRow := {
  m_id : nat;
  m_ticket : nat;
  m_authorId : string;
  m_displayName : string;
  m_avatar : option string;
  m_content : option string;
  m_sentAt : Z;
  m_editedAt : option Z;
}.

(** Row of [TicketCategoryFields]. *)
Record FieldRow := {
  f_id : nat;
  f_category : nat;
  f_label : string;
  f_placeholder : option string;
  f_required : nat;
  f_short_field : nat;
  f_min_length : option nat;
  f_max_length : option nat;
}.

(** Row of [TicketCategories]. *)
Record CategoryRow := {
  c_id : nat;
  c_name : string;
  c_description : option string;
  c_emoji : option string;
  c_categoryId : string;
  c_requireTbxId : bool;
}.

Record DB := {
  tickets : list TicketRow;
  ticketMessages : list MessageRow;
  ticketCategories : list CategoryRow;
  ticketCategoryFields : list FieldRow;
}.

(** The identity an auto-increment column gives the next row. *)
Definition next_id (ids : list nat) : nat := S (max_list ids).

Definition findTicket (db : DB) (id : nat) : option TicketRow :=
  List.find (λ t, Nat.eqb (t_id t) id) (tickets db).

Definition findCategory (db : DB) (id : nat) : option CategoryRow :=
  List.find (λ c, Nat.eqb (c_id c) id) (ticketCategories db).

(** [tickets.findUnique({ where: { id }, include: { ticketCategory: true } })];
    the relation is required, a row without its category is not returned. *)
Definition findTicketWithCategory (db : DB) (id : nat) : option (TicketRow * CategoryRow) :=
  match findTicket db id with
  | Some ticket =>
      match findCategory db (t_category ticket) with
      | Some category => Some (ticket, category)
      | None => None
      end
  | None => None
  end.

(** [tickets.findMany({ where: { closedAt: null } })]. *)
Definition openTickets (db : DB) : list TicketRow :=
  List.filter (λ t, match t_closedAt t with None => true | Some _ => false end)
    (tickets db).

(** [tickets.update({ where: { id }, data })]: the update applied to the
    row of that identity. *)
Definition updateTicket (id : nat) (f : TicketRow → TicketRow) (db : DB) : DB :=
  {| tickets := List.map (λ t, if Nat.eqb (t_id t) id then f t else t) (tickets db);
     ticketMessages := ticketMessages db;
     ticketCategories := ticketCategories db;
     ticketCategoryFields := ticketCategoryFields db |}.

Definition setClosedAt (date : Z) (t : TicketRow) : TicketRow :=
  {| t_id := t_id t; t_category := t_category t; t_ticketName := t_ticketName t;
     t_channelId := t_channelId t; t_userId := t_userId t;
     t_userUsername := t_userUsername t; t_userDisplayName := t_userDisplayName t;
     t_openedAt := t_openedAt t; t_closedAt := Some date;
     t_staffThreadId := t_staffThreadId t |}.

Definition setStaffThreadId (thread : string) (t : TicketRow) : TicketRow :=
  {| t_id := t_id t; t_category := t_category t; t_ticketName := t_ticketName t;
     t_channelId := t_channelId t; t_userId := t_userId t;
     t_userUsername := t_userUsername t; t_userDisplayName := t_userDisplayName t;
     t_openedAt := t_openedAt t; t_closedAt := t_closedAt t;
     t_staffThreadId := Some thread |}.

(** [ticketMessages.create({ data })]: the row is appended, its identity
    and its [sentAt] (the column default) filled in by the store. *)
Definition createMessage (now : Z) (ticket : nat) (authorId displayName : string)
    (avatar content : option string) (db : DB) : DB :=
  {| tickets := tickets db;
     ticketMessages :=
       ticketMessages db ++
       [ {| m_id := next_id (m_id <$> ticketMessages db); m_ticket := ticket;
            m_authorId := authorId; m_displayName := displayName;
            m_avatar := avatar; m_content := content;
            m_sentAt := now; m_editedAt := None |} ];
     ticketCategories := ticketCategories db;
     ticketCategoryFields := ticketCategoryFields db |}.

(** [tickets.create({ data })]: the row is appended, open, with the column
    defaults; the new row is returned. *)
Definition newTicketRow (now : Z) (category : nat)
    (ticketName channelId userId userUsername userDisplayName : string)
    (db : DB) : TicketRow :=
  {| t_id := next_id (t_id <$> tickets db); t_category := category;
     t_ticketName := ticketName; t_channelId := channelId; t_userId := userId;
     t_userUsername := userUsername; t_userDisplayName := userDisplayName;
     t_openedAt := now; t_closedAt := None; t_staffThreadId := None |}.

Definition insertTicket (row : TicketRow) (db : DB) : DB :=
  {| tickets := tickets db ++ [row];
     ticketMessages := ticketMessages db;
     ticketCategories := ticketCategories db;
     ticketCategoryFields := ticketCategoryFields db |}.

(** The messages of a ticket in table order. *)
Definition messagesOf (db : DB) (ticket : nat) : list MessageRow :=
  List.filter (λ m, Nat.eqb (m_ticket m) ticket) (ticketMessages db).

(** [sentAt] ascending. *)
Definition sentBefore (a b : MessageRow) : Prop := (m_sentAt a ≤ m_sentAt b)%Z.

#[export] Instance sentBefore_dec a b : Decision (sentBefore a b).
Proof. unfold sentBefore. apply _. Defined.

(** [include: { messages: { orderBy: { sentAt: 'asc' } } }]. *)
Definition messagesBySentAt (db : DB) (ticket : nat) : list MessageRow :=
  merge_sort sentBefore (messagesOf db ticket).

(** The fields of a category, by ascending identity as the store returns
    them. *)
Definition fieldsOf (db : DB) (category : nat) : list FieldRow :=
  List.filter (λ f, Nat.eqb (f_category f) category) (ticketCategoryFields db).

End Store.

(** ** transcript_generator.ts *)

Module Transcript.
Import Js Store.

Record TicketTranscriptData := {
  ticketId : nat;
  categoryName : string;
  ticketName : string;
  channelId : string;
  userId : string;
  userUsername : string;
  userDisplayName : string;
  openedAt : Z;
  closedAt : option Z;
}.

(** The static document.  The template of [generateHTML] (the markup and
    the style sheet around the messages) is not modelled: a document is
    carried as the two values [generateHTML] is called with. *)
Record Document := {
  doc_ticket : TicketTranscriptData;
  doc_messages : list MessageRow;
}.

(** [arr.filter((x, index) => f index x)], counting from [i]. *)
Fixpoint filter_index {A : Type} (f : nat → A → bool) (i : nat) (arr : list A) : list A :=
  match arr with
  | [] => []
  | x :: rest =>
      if f i x then x :: filter_index f (S i) rest
      else filter_index f (S i) rest
  end.

(** [msg.content?.includes('<EMBED:')], as a condition. *)
Definition hasEmbedMarker (msg : MessageRow) : bool :=
  match m_content msg with
  | Some content => includes "<EMBED:" content
  | None => false
  end.

(** The callback of the filter in [generateTicketTranscript]. *)
Definition keepMessage (len : nat) (index : nat) (msg : MessageRow) : bool :=
  if Nat.eqb index 0 && hasEmbedMarker msg then false
  else if Nat.eqb index (len - 1) && hasEmbedMarker msg then false
  else true.

Definition filterMessages (arr : list MessageRow) : list MessageRow :=
  filter_index (keepMessage (length arr)) 0 arr.

(** [generateTicketTranscript(ticketId)]; [queryOk] tells whether the
    query of the store returns. *)
Definition generateTicketTranscript (queryOk : result unit) (db : DB)
    (id : nat) : result Document :=
  match queryOk with
  | Err e => Err e
  | Ok _ =>
      match findTicketWithCategory db id with
      | None => Err ("Ticket with ID " +:+ pretty id +:+ " not found")
      | Some (ticket, category) =>
          Ok {| doc_ticket :=
                  {| ticketId := t_id ticket;
                     categoryName := c_name category;
                     ticketName := t_ticketName ticket;
                     channelId := t_channelId ticket;
                     userId := t_userId ticket;
                     userUsername := t_userUsername ticket;
                     userDisplayName := t_userDisplayName ticket;
                     openedAt := t_openedAt ticket;
                     closedAt := t_closedAt ticket |};
                doc_messages := filterMessages (messagesBySentAt db id) |}
      end
  end.

(** The text of a message beside its embed blocks, as [generateHTML]
    computes it: [content.replace(/<EMBED:.*?>/gs, '').trim()]. *)
Definition textContent (content : string) : string :=
  trim (replaceAll (enclosed "<EMBED:" ">" true (λ _, EmptyString)) content).

(** [escapeHtml]: the replacement of one code unit. *)
Definition escapeChar (c : ascii) : string :=
  if decide (c = "&"%char) then "&amp;"
  else if decide (c = "<"%char) then "&lt;"
  else if decide (c = ">"%char) then "&gt;"
  else if decide (c = "034"%char) then "&quot;"
  else if decide (c = "'"%char) then "&#039;"
  else String c EmptyString.

(** [escapeHtml(text)]: every code unit among the five of the character
    class is replaced by its entry of [map], the others are copied. *)
Fixpoint escapeHtml (text : string) : string :=
  match text with
  | EmptyString => EmptyString
  | String c r => escapeChar c +:+ escapeHtml r
  end.

Definition LF : string := String "010"%char EmptyString.

(** The one-character string made of a double quote. *)
Definition DQ : string := String "034"%char EmptyString.

Definition quoteOpen : string := "<div class=" +:+ DQ +:+ "quote" +:+ DQ +:+ ">".
Definition mentionOpen : string := "<span class=" +:+ DQ +:+ "mention" +:+ DQ +:+ ">".

(** [formatDiscordMarkdown(text)]: escape, then the ten substitutions in
    the order of the source. *)
Definition formatDiscordMarkdown (text : string) : string :=
  let formatted := escapeHtml text in
  let formatted := replaceAll (delimited "**" false "<strong>" "</strong>") formatted in
  let formatted := replaceAll (delimited "*" false "<em>" "</em>") formatted in
  let formatted := replaceAll (delimited "__" false "<u>" "</u>") formatted in
  let formatted := replaceAll (delimited "~~" false "<s>" "</s>") formatted in
  let formatted := replaceAll (delimited "```" true "<pre><code>" "</code></pre>") formatted in
  let formatted := replaceAll (delimited "`" false "<code>" "</code>") formatted in
  let formatted := replaceAll (line_prefixed "&gt; " quoteOpen "</div>") formatted in
  let formatted := replaceAll (digits_between "&lt;@" "&gt;" (mentionOpen +:+ "@User</span>")) formatted in
  let formatted := replaceAll (digits_between "&lt;#" "&gt;" (mentionOpen +:+ "#channel</span>")) formatted in
  let formatted := replaceAll (line_feed "<br>") formatted in
  formatted.


(** What an end of the log contributes to the transcript: nothing when it
    carries the marker. *)
Definition unlessMarked (msg : MessageRow) : list MessageRow :=
  if hasEmbedMarker msg then [] else [msg].

(** Content that is rich content only: at least one embed block, and no
    text left beside the blocks. *)
Definition richContentOnly (msg : MessageRow) : bool :=
  match m_content msg with
  | Some content =>
      hasEmbedMarker msg &&
      bool_decide (textContent content = EmptyString)
  | None => false
  end.

(** The code units [escapeHtml] rewrites, the ones the markdown patterns
    start with, and the line feed. *)
Definition isMarkup (c : ascii) : bool :=
  bool_decide (c ∈ ["&"; "<"; ">"; "034"; "'"; "*"; "_"; "~"; "`"; "010"]%char).

Definition plainChar (c : ascii) : bool := negb (isMarkup c).

(** What a reader of the produced markup sees, the notion the
    specification compares outputs by (it is no part of the source): the
    tags are dropped and the five character references of [escapeHtml] are
    read back. *)
Definition characterReference : matcher :=
  λ _ s,
    if String.prefix "&amp;" s then Some ("&", 5)
    else if String.prefix "&lt;" s then Some ("<", 4)
    else if String.prefix "&gt;" s then Some (">", 4)
    else if String.prefix "&quot;" s then Some (DQ, 6)
    else if String.prefix "&#039;" s then Some ("'", 6)
    else None.

Definition visibleText (html : string) : string :=
  replaceAll characterReference
    (replaceAll (enclosed "<" ">" true (λ _, EmptyString)) html).

End Transcript.

(** ** The ticket handler (the class [Ticket]) *)

Module TicketHandler.
Import Js Store Transcript.

(** *** Values of the chat platform *)

Record User := {
  u_id : string;
  u_username : string;
  u_displayName : string;
  u_avatarURL : option string;
}.

(** A text channel handle: what the handler reads of it. *)
Record TextChannel := {
  ch_id : string;
  ch_name : string;
}.

(** An instance of the class. *)
Record Ticket := {
  channel : TextChannel;
  ticketId : nat;
}.

Record Overwrite := {
  ow_id : string;
  ow_allow : N;
  ow_deny : N;
  ow_type : nat;
}.

(** [PermissionFlagsBits.ViewChannel], bit 10. *)
Definition ViewChannel : N := 1024%N.

Record APIEmbedField := {
  name : string;
  value : string;
  inline : bool;
}.

Record Embed := {
  e_author : option string;
  e_title : option string;
  e_description : option string;
  e_thumbnail : option string;
  e_color : option N;
  e_fields : list APIEmbedField;
}.

(** A message of the staff thread as the closure hands it to
    [generateStaffThreadHTML]. *)
Record StaffMessage := {
  sm_id : string;
  sm_authorId : string;
  sm_displayName : string;
  sm_avatar : option string;
  sm_content : string;
  sm_editedAt : option Z;
  sm_sentAt : Z;
}.

(** The body of an attached file.  As for [Document], the template of
    [generateStaffThreadHTML] is not modelled: the staff document is
    carried as the two values the function is called with. *)
Inductive FileBody :=
  | TicketTranscript (doc : Document)
  | StaffTranscript (ticketInfo : TicketRow * CategoryRow)
      (messages : list StaffMessage).

Record Attachment := {
  a_name : string;
  a_description : string;
  a_body : FileBody;
}.

Inductive TextInputStyle := Short | Paragraph.

Record TextInput := {
  ti_custom_id : string;
  ti_label : string;
  ti_placeholder : option string;
  ti_required : bool;
  ti_style : TextInputStyle;
  ti_min_length : option nat;
  ti_max_length : option nat;
}.

Record Modal := {
  md_custom_id : string;
  md_title : string;
  md_components : list TextInput;
}.

(** A message sent out. [closeButton] tells whether the row with the
    close-ticket button is attached. *)
Record Outgoing := {
  o_content : option string;
  o_embeds : list Embed;
  o_files : list Attachment;
  o_closeButton : bool;
}.

Inductive LogLevel := Info | Success | Warn | Error.

(** The detached task of the closure. *)
Record Deferred := {
  d_channel : string;
  d_reason : string;
}.

(** Calls made towards the outside, recorded when they are issued (whether
    they then return or throw is the oracle's). *)
Inductive Event :=
  | Reply (content : string)
  | DeferReply
  | EditReply (content : string)
  | ShowModal (modal : Modal)
  | ModalReply (content : string)
  | ModalDeferReply
  | ModalEditReply (content : string)
  | ModalDeleteReply
  | ChannelCreate (name : string) (parent : string) (reason : string)
      (permissionOverwrites : list Overwrite)
  | ChannelSend (channelId : string) (message : Outgoing)
  | ThreadCreate (channelId : string) (name : string) (reason : string)
  | ThreadSend (threadId : string) (content : string)
  | DirectMessage (userId : string) (message : Outgoing)
  | SetTimeout (ms : nat) (task : Deferred)
  | Log (level : LogLevel) (text : string).

(** The configuration read from [env]. *)
Record Env := {
  MAIN_GUILD_ID : string;
  STAFF_ROLE_IDS : list string;
  TRANSCRIPT_CHANNEL_ID : option string;
}.

(** The state the handler works on: the registry [ActiveTickets], the
    store, the channels created on the platform, the clock, and the trace
    of calls issued so far. *)
Record World := {
  ActiveTickets : gmap string Ticket;
  db : DB;
  created : list TextChannel;
  clock : Z;
  trace : list Event;
}.

Definition emit (e : Event) (w : World) : World :=
  {| ActiveTickets := ActiveTickets w; db := db w; created := created w;
     clock := clock w; trace := trace w ++ [e] |}.

Definition withDB (f : DB → DB) (w : World) : World :=
  {| ActiveTickets := ActiveTickets w; db := f (db w); created := created w;
     clock := clock w; trace := trace w |}.

Definition withRegistry (f : gmap string Ticket → gmap string Ticket)
    (w : World) : World :=
  {| ActiveTickets := f (ActiveTickets w); db := db w; created := created w;
     clock := clock w; trace := trace w |}.

Definition withCreated (c : TextChannel) (w : World) : World :=
  {| ActiveTickets := ActiveTickets w; db := db w; created := created w ++ [c];
     clock := clock w; trace := trace w |}.

(** Time passes between two readings of the clock. *)
Definition tick (w : World) : World :=
  {| ActiveTickets := ActiveTickets w; db := db w; created := created w;
     clock := (clock w + 1)%Z; trace := trace w |}.

(** The world after the calls [evs] were issued, nothing else changed. *)
Definition emitAll (evs : list Event) (w : World) : World :=
  {| ActiveTickets := ActiveTickets w; db := db w; created := created w;
     clock := clock w; trace := trace w ++ evs |}.

(** [w'] is [w] after some calls were issued, nothing else changed. *)
Definition onlyEmits (w w' : World) : Prop := ∃ evs, w' = emitAll evs w.

(** The calls issued between the world [w] and a later world [w']. *)
Definition since (w w' : World) : list Event :=
  drop (length (trace w)) (trace w').

(** Kinds of calls: a post that attaches a ticket transcript, a post that
    attaches a staff transcript, a direct message with or without a
    ticket transcript. *)
Definition hasTicketTranscript (m : Outgoing) : bool :=
  existsb (λ a, match a_body a with TicketTranscript _ => true | _ => false end)
    (o_files m).

Definition hasStaffTranscript (m : Outgoing) : bool :=
  existsb (λ a, match a_body a with StaffTranscript _ _ => true | _ => false end)
    (o_files m).

Definition isArchivePost (e : Event) : bool :=
  match e with ChannelSend _ m => hasTicketTranscript m | _ => false end.

Definition isStaffPost (e : Event) : bool :=
  match e with ChannelSend _ m => hasStaffTranscript m | _ => false end.

Definition isTranscriptDM (userId : string) (e : Event) : bool :=
  match e with
  | DirectMessage u m => String.eqb u userId && hasTicketTranscript m
  | _ => false
  end.

Definition isNotificationDM (userId : string) (e : Event) : bool :=
  match e with
  | DirectMessage u m => String.eqb u userId && negb (hasTicketTranscript m)
  | _ => false
  end.

(** No call of [evs] is of one of these four kinds. *)
Definition noneOf (evs : list Event) : Prop :=
  existsb isArchivePost evs = false ∧ existsb isStaffPost evs = false ∧
  (∀ uid, existsb (isTranscriptDM uid) evs = false) ∧
  (∀ uid, existsb (isNotificationDM uid) evs = false).

Definition isOk {A : Type} (r : result A) : bool :=
  match r with Ok _ => true | Err _ => false end.

(** *** The embed builder

    [EmbedBuilder.addFields] and [EmbedBuilder.setFields] of the chat
    library validate the fields they are given and throw when one is out
    of bounds: the name of a field holds 1 to 256 code units, its value 1
    to 1024, and an embed holds at most 25 fields.  The text of the error
    is the library's; the oracle of a workflow gives it, for the fields
    that were refused.

    The builders validate other texts too: the title and the description
    of an embed (256 and 4096 code units), the title and the labels of a
    prompt.  What the handler passes there is the name of a category, of
    a field, of a user or of a channel inside a fixed phrase, or the
    closure reason inside a description; the model takes these to be
    within bounds (a reason typed into a text input holds at most 4000
    code units).  The value of a field has no such margin: a closure
    reason, an answer of the form or the description of a category can
    hold more than 1024 code units. *)
Definition fieldFits (f : APIEmbedField) : bool :=
  (1 <=? String.length (name f)) && (String.length (name f) <=? 256) &&
  (1 <=? String.length (value f)) && (String.length (value f) <=? 1024).

(** [embed.addFields(...added)] on an embed that holds [fields]. *)
Definition addFields (refused : list APIEmbedField → string)
    (added fields : list APIEmbedField) : result (list APIEmbedField) :=
  if (length fields + length added <=? 25) && forallb fieldFits added
  then Ok (fields ++ added)
  else Err (refused added).

(** [embed.setFields(...fields)]. *)
Definition setFields (refused : list APIEmbedField → string)
    (fields : list APIEmbedField) : result (list APIEmbedField) :=
  if (length fields <=? 25) && forallb fieldFits fields
  then Ok fields
  else Err (refused fields).

(** *** JSON.stringify of an embed that has a title and maybe a description *)

Definition hexDigit (n : nat) : ascii :=
  if n <? 10 then ascii_of_nat (48 + n) else ascii_of_nat (87 + n).

Definition jsonChar (c : ascii) : string :=
  let n := nat_of_ascii c in
  if n =? 8 then "\b" else if n =? 9 then "\t" else if n =? 10 then "\n"
  else if n =? 12 then "\f" else if n =? 13 then "\r"
  else if n =? 34 then "\" +:+ DQ else if n =? 92 then "\\"
  else if n <? 32 then
    "\u00" +:+ String (hexDigit (n / 16)) (String (hexDigit (n mod 16)) EmptyString)
  else String c EmptyString.

Fixpoint jsonEscape (s : string) : string :=
  match s with
  | EmptyString => EmptyString
  | String c r => jsonChar c +:+ jsonEscape r
  end.

Definition jsonString (s : string) : string := DQ +:+ jsonEscape s +:+ DQ.

Definition stringifyEmbed (title : string) (description : option string) : string :=
  "{" +:+ jsonString "title" +:+ ":" +:+ jsonString title +:+
  match description with
  | Some d => "," +:+ jsonString "description" +:+ ":" +:+ jsonString d
  | None => EmptyString
  end +:+ "}".

(** A serialized embed wrapped in the in-band marker. *)
Definition embedMarker (json : string) : string := "<EMBED:" +:+ json +:+ ">".

(** *** The registry *)

(** [Ticket.getTicket(channelId)]. *)
Definition getTicket (channelId : string) (w : World) : option Ticket :=
  ActiveTickets w !! channelId.

(** *** Recovery: [Ticket.reloadTickets(client)] *)

Record ReloadOracle := {
  ro_findMany : result unit;
  (** [client.channels.fetch(id)]: the channel (its name), null, or a throw. *)
  ro_fetch : string → result (option string);
  ro_update : nat → result unit;
  ro_create : nat → result unit;
}.

(** The content of the closure message recovery appends. *)
Definition recoveryMarker : string :=
  embedMarker (stringifyEmbed "Ticket closed" None).

(** The catch block of the loop body.  [FormatDateForDB] (of utils/utils,
    not among the sources) is taken to read the clock. *)
Definition forceClose (o : ReloadOracle) (applicationUser : User)
    (ticketData : TicketRow) (message : string) (w : World) : World * result unit :=
  let w := emit (Log Warn ("Ticket " +:+ pretty (t_id ticketData) +:+
                 " was closed manually (" +:+ message +:+
                 "), closing in database.")) w in
  let date := clock w in
  let w := tick w in
  match ro_update o (t_id ticketData) with
  | Err e => (w, Err e)
  | Ok _ =>
      let w := withDB (updateTicket (t_id ticketData) (setClosedAt date)) w in
      match ro_create o (t_id ticketData) with
      | Err e => (w, Err e)
      | Ok _ =>
          let sentAt := clock w in
          let w := tick w in
          (withDB (createMessage sentAt (t_id ticketData)
                     (u_id applicationUser) (u_displayName applicationUser)
                     (u_avatarURL applicationUser) (Some recoveryMarker)) w,
           Ok ())
      end
  end.

(** The [for] loop over the rows [findMany] returned. *)
Fixpoint reloadLoop (o : ReloadOracle) (applicationUser : User)
    (rows : list TicketRow) (w : World) : World * result unit :=
  match rows with
  | [] => (w, Ok ())
  | ticketData :: rest =>
      let body :=
        match ro_fetch o (t_channelId ticketData) with
        | Ok (Some chName) =>
            let channel := {| ch_id := t_channelId ticketData; ch_name := chName |} in
            let ticket := {| channel := channel; ticketId := t_id ticketData |} in
            (withRegistry (insert (ch_id channel) ticket) w, Ok ())
        | Ok None => forceClose o applicationUser ticketData "No channel was found." w
        | Err e => forceClose o applicationUser ticketData e w
        end in
      match body with
      | (w, Ok _) => reloadLoop o applicationUser rest w
      | (w, Err e) => (w, Err e)
      end
  end.

Definition reloadTickets (o : ReloadOracle) (applicationUser : User)
    (w : World) : World * result unit :=
  match ro_findMany o with
  | Err e => (w, Err e)
  | Ok _ =>
      match reloadLoop o applicationUser (openTickets (db w)) w with
      | (w, Ok _) =>
          (emit (Log Success ("Reloaded " +:+ pretty (size (ActiveTickets w)) +:+
                              " tickets from database")) w, Ok ())
      | (w, Err e) => (w, Err e)
      end
  end.

(** Recovery, seen from the rows it works on: whether the channel of a
    row resolves, the instance registered for a row that resolves, and what
    makes a stored message the closure message recovery appends for a
    row. *)
Definition resolves (o : ReloadOracle) (row : TicketRow) : bool :=
  match ro_fetch o (t_channelId row) with Ok (Some _) => true | _ => false end.

Definition orphaned (o : ReloadOracle) (row : TicketRow) : bool := negb (resolves o row).

Definition recovered (o : ReloadOracle) (row : TicketRow) : Ticket :=
  {| channel := {| ch_id := t_channelId row;
                   ch_name := match ro_fetch o (t_channelId row) with
                              | Ok (Some chName) => chName
                              | _ => EmptyString
                              end |};
     ticketId := t_id row |}.

Definition closureMessageFor (applicationUser : User) (row : TicketRow)
    (m : MessageRow) : Prop :=
  m_ticket m = t_id row ∧ m_authorId m = u_id applicationUser ∧
  m_displayName m = u_displayName applicationUser ∧
  m_avatar m = u_avatarURL applicationUser ∧
  m_content m = Some recoveryMarker ∧ m_editedAt m = None.

(** The registration of the instance of a row. *)
Definition register (o : ReloadOracle) (m : gmap string Ticket) (row : TicketRow)
    : gmap string Ticket :=
  <[t_channelId row := recovered o row]> m.

(** A row of the table after the pass, against the row before it, when
    the rows of the identities [ids] were force-closed. *)
Definition closedAmong (ids : list nat) (t t' : TicketRow) : Prop :=
  if bool_decide (t_id t ∈ ids) then ∃ date, t' = setClosedAt date t else t' = t.

(** The store answers every write of the pass. *)
Definition writesAnswer (o : ReloadOracle) (rows : list TicketRow) : Prop :=
  ∀ row, row ∈ rows →
    isOk (ro_update o (t_id row)) = true ∧ isOk (ro_create o (t_id row)) = true.

(** *** Logging of messages *)

(** An incoming message; each embed is carried as the JSON text
    [JSON.stringify(embed.toJSON())] of it. *)
Record Message := {
  msg_channelId : string;
  msg_content : string;
  msg_embeds : list string;
  msg_author : User;
}.

(** The content [handleNewMessage] stores. *)
Definition storedContent (message : Message) : string :=
  match msg_embeds message with
  | [] => msg_content message
  | embeds =>
      msg_content message +:+
      (if 0 <? String.length (msg_content message) then LF +:+ LF else EmptyString) +:+
      join LF ((λ json, embedMarker json +:+ LF) <$> embeds)
  end.

(** [ticket.handleNewMessage(message)]. *)
Definition handleNewMessage (createOk : result unit) (ticket : Ticket)
    (message : Message) (w : World) : World * result unit :=
  match createOk with
  | Err e => (w, Err e)
  | Ok _ =>
      let sentAt := clock w in
      let w := tick w in
      (withDB (createMessage sentAt (ticketId ticket)
                 (u_id (msg_author message)) (u_displayName (msg_author message))
                 (u_avatarURL (msg_author message))
                 (Some (storedContent message))) w, Ok ())
  end.

(** [Ticket.updateMessages(message)]; the call of [handleNewMessage] is not
    awaited, so its outcome does not reach the caller. *)
Definition updateMessages (createOk : result unit) (message : Message)
    (w : World) : World :=
  match getTicket (msg_channelId message) w with
  | None => w
  | Some ticket => fst (handleNewMessage createOk ticket message w)
  end.

(** *** Closure: the instance method [closeTicket(user, reason)] *)

(** A JavaScript string used as a condition. *)
Definition truthy (s : string) : bool :=
  match s with EmptyString => false | _ => true end.

Definition truthyOpt (s : option string) : bool :=
  match s with Some s => truthy s | None => false end.

Record CloseOracle := {
  co_findTicketInfo : result unit;
  co_updateClosedAt : result unit;
  co_createClosureMessage : result unit;
  co_transcriptQuery : result unit;
  (** the archive channel: null, or whether it is text based *)
  co_fetchTranscriptChannel : result (option bool);
  co_sendArchive : result unit;
  (** the staff thread: null, or whether it is a thread *)
  co_fetchStaffThread : result (option bool);
  (** its last messages, newest first *)
  co_fetchStaffMessages : result (list StaffMessage);
  co_sendStaffTranscript : result unit;
  co_fetchOwner : result (option User);
  co_sendOwnerDM : result unit;
  (** the message of the error the embed builder throws *)
  co_refusedFields : list APIEmbedField → string;
}.

(** The durable transition of a closure: the query of the ticket, the
    write of the closed timestamp and the append of the closure message
    all return. *)
Definition durable (o : CloseOracle) : bool :=
  isOk (co_findTicketInfo o) && isOk (co_updateClosedAt o) &&
  isOk (co_createClosureMessage o).

(** The rendering condition of the fan-out: the ticket was found and the
    transcript generator returned. *)
Definition rendered (o : CloseOracle) (ticketInfo : option (TicketRow * CategoryRow)) : bool :=
  isOk (co_transcriptQuery o) &&
  match ticketInfo with Some _ => true | None => false end.

(** The requester of a ticket, as the closure reads it. *)
Definition requesterOf (ticketInfo : option (TicketRow * CategoryRow)) : option string :=
  t_userId ∘ fst <$> ticketInfo.

(** The content of the closure message of a confirmed closure. *)
Definition closureMarker (reason : option string) : string :=
  embedMarker
    (stringifyEmbed "Ticket closed"
       (Some (match reason with
              | Some r => if truthy r then "Closure reason:" +:+ LF +:+ "> " +:+ r
                          else "No reason provided."
              | None => "No reason provided."
              end))).

Definition closedBy (user : User) : string :=
  u_displayName user +:+ " (@" +:+ u_username user +:+ ")".

Definition transcriptAttachment (self : Ticket) (description : string)
    (doc : Document) : Attachment :=
  {| a_name := "ticket-" +:+ pretty (ticketId self) +:+ "-transcript.html";
     a_description := description;
     a_body := TicketTranscript doc |}.

(** [if (reason) embed.addFields({ name: label, value: reason })]. *)
Definition withReason (o : CloseOracle) (label : string) (reason : option string)
    (fields : list APIEmbedField) : result (list APIEmbedField) :=
  match reason with
  | Some r =>
      if truthy r
      then addFields (co_refusedFields o)
             [ {| name := label; value := r; inline := false |} ] fields
      else Ok fields
  | None => Ok fields
  end.

(** The fields of the summary for the archive channel, as the builder
    takes them: four in one call, then the reason. *)
Definition archiveFields (o : CloseOracle) (self : Ticket) (user : User)
    (reason : option string) (ticketInfo : TicketRow * CategoryRow)
    : result (list APIEmbedField) :=
  match addFields (co_refusedFields o)
          [ {| name := "Category"; value := c_name (snd ticketInfo); inline := true |};
            {| name := "Channel"; value := "#" +:+ ch_name (channel self); inline := true |};
            {| name := "Closed By"; value := closedBy user; inline := true |};
            {| name := "Owner";
               value := t_userDisplayName (fst ticketInfo) +:+ " (@" +:+
                        t_userUsername (fst ticketInfo) +:+ ")";
               inline := true |} ] [] with
  | Err e => Err e
  | Ok fields => withReason o "Closure Reason" reason fields
  end.

(** The summary posted to the archive channel. *)
Definition archiveMessage (self : Ticket) (fields : list APIEmbedField)
    (doc : Document) : Outgoing :=
  {| o_content := None;
     o_embeds :=
       [ {| e_author := None;
            e_title := Some ("ðŸ“‹ Ticket #" +:+ pretty (ticketId self) +:+ " Closed");
            e_description := None; e_thumbnail := None;
            e_color := Some 5793266%N;
            e_fields := fields |} ];
     o_files := [ transcriptAttachment self
                    ("Transcript for ticket #" +:+ pretty (ticketId self)) doc ];
     o_closeButton := false |}.

(** The fields of the staff-only summary. *)
Definition staffFields (o : CloseOracle) (self : Ticket)
    (ticketInfo : TicketRow * CategoryRow) (staffMessages : list StaffMessage)
    : result (list APIEmbedField) :=
  addFields (co_refusedFields o)
    [ {| name := "Category"; value := c_name (snd ticketInfo); inline := true |};
      {| name := "Channel"; value := "#" +:+ ch_name (channel self); inline := true |};
      {| name := "Messages"; value := pretty (length staffMessages); inline := true |} ] [].

(** The staff-only transcript posted to the archive channel. *)
Definition staffMessage (self : Ticket) (ticketInfo : TicketRow * CategoryRow)
    (staffMessages : list StaffMessage) (fields : list APIEmbedField) : Outgoing :=
  {| o_content := None;
     o_embeds :=
       [ {| e_author := None;
            e_title := Some ("ðŸ”’ Staff Evidence - Ticket #" +:+ pretty (ticketId self));
            e_description := Some "**STAFF ONLY** - Internal discussion transcript";
            e_thumbnail := None;
            e_color := Some 15548997%N;
            e_fields := fields |} ];
     o_files :=
       [ {| a_name := "ticket-" +:+ pretty (ticketId self) +:+ "-staff-evidence.html";
            a_description := "Staff evidence transcript for ticket #" +:+ pretty (ticketId self);
            a_body := StaffTranscript ticketInfo (reverse staffMessages) |} ];
     o_closeButton := false |}.

(** The fields of the summary for the owner of the ticket. *)
Definition ownerFields (o : CloseOracle) (user : User) (reason : option string)
    : result (list APIEmbedField) :=
  match addFields (co_refusedFields o)
          [ {| name := "Closed By"; value := closedBy user; inline := true |} ] [] with
  | Err e => Err e
  | Ok fields => withReason o "Reason" reason fields
  end.

(** The direct message to the owner of the ticket, with the transcript. *)
Definition ownerMessage (self : Ticket) (ticketInfo : TicketRow * CategoryRow)
    (fields : list APIEmbedField) (doc : Document) : Outgoing :=
  {| o_content := None;
     o_embeds :=
       [ {| e_author := None;
            e_title := Some "Your Ticket Was Closed";
            e_description :=
              Some ("Your ticket **#" +:+ ch_name (channel self) +:+ "** in the **" +:+
                    c_name (snd ticketInfo) +:+ "** category has been closed.");
            e_thumbnail := None;
            e_color := Some 5793266%N;
            e_fields := fields |} ];
     o_files := [ transcriptAttachment self "Transcript for your ticket" doc ];
     o_closeButton := false |}.

(** The inner [try] on the staff thread, entered after the archive post
    returned and when the ticket has a staff thread. *)
Definition staffThreadFanout (o : CloseOracle) (self : Ticket)
    (ticketInfo : TicketRow * CategoryRow) (transcriptChannel : string)
    (w : World) : World :=
  let failed e :=
    emit (Log Warn ("Failed to send staff thread transcript for ticket " +:+
                    pretty (ticketId self) +:+ ": " +:+ e)) in
  match co_fetchStaffThread o with
  | Err e => failed e w
  | Ok None | Ok (Some false) => w
  | Ok (Some true) =>
      match co_fetchStaffMessages o with
      | Err e => failed e w
      | Ok staffMessages =>
          if 1 <? length staffMessages then
            match staffFields o self ticketInfo staffMessages with
            | Err e => failed e w
            | Ok fields =>
                let w := emit (ChannelSend transcriptChannel
                                 (staffMessage self ticketInfo staffMessages fields)) w in
                match co_sendStaffTranscript o with
                | Err e => failed e w
                | Ok _ =>
                    emit (Log Success
                            ("Staff thread transcript sent to transcript channel for ticket " +:+
                             pretty (ticketId self))) w
                end
            end
          else w
      end
  end.

(** The [try] on the archive channel, entered when the channel is
    configured, the ticket was found and the transcript rendered. *)
Definition archiveFanout (o : CloseOracle) (self : Ticket) (user : User)
    (reason : option string) (ticketInfo : TicketRow * CategoryRow)
    (transcriptChannel : string) (doc : Document) (w : World) : World :=
  let failed e :=
    emit (Log Error ("Failed to send transcript to channel for ticket " +:+
                     pretty (ticketId self) +:+ ": " +:+ e)) in
  match co_fetchTranscriptChannel o with
  | Err e => failed e w
  | Ok None | Ok (Some false) => w
  | Ok (Some true) =>
      match archiveFields o self user reason ticketInfo with
      | Err e => failed e w
      | Ok fields =>
          let w := emit (ChannelSend transcriptChannel
                           (archiveMessage self fields doc)) w in
          match co_sendArchive o with
          | Err e => failed e w
          | Ok _ =>
              let w := emit (Log Success
                               ("Transcript sent to transcript channel for ticket " +:+
                                pretty (ticketId self))) w in
              if truthyOpt (t_staffThreadId (fst ticketInfo))
              then staffThreadFanout o self ticketInfo transcriptChannel w
              else w
          end
      end
  end.

(** The [try] on the direct message to the owner, entered when the ticket
    was found and the transcript rendered. *)
Definition ownerFanout (o : CloseOracle) (self : Ticket) (user : User)
    (reason : option string) (ticketInfo : TicketRow * CategoryRow)
    (doc : Document) (w : World) : World :=
  let failed e :=
    emit (Log Warn ("Failed to send transcript DM to ticket owner for ticket " +:+
                    pretty (ticketId self) +:+ ": " +:+ e)) in
  match co_fetchOwner o with
  | Err e => failed e w
  | Ok None => w
  | Ok (Some ticketOwner) =>
      match ownerFields o user reason with
      | Err e => failed e w
      | Ok fields =>
          let w := emit (DirectMessage (t_userId (fst ticketInfo))
                           (ownerMessage self ticketInfo fields doc)) w in
          match co_sendOwnerDM o with
          | Err e => failed e w
          | Ok _ =>
              emit (Log Success ("Transcript DM sent to ticket owner " +:+
                                 u_username ticketOwner +:+ " for ticket " +:+
                                 pretty (ticketId self))) w
          end
      end
  end.

(** The conditions under which the fan-out reaches each destination.
    [archiveResolved]: the archive channel is configured and resolves to a
    text channel.  [archiveBuilt]: the builder takes the fields of the
    summary for the archive channel.  [staffResolved]: the ticket has a
    staff thread, which resolves and holds more than its seed message.
    [staffBuilt]: the builder takes the fields of the staff summary.
    [ownerResolved]: the requester resolves.  [ownerBuilt]: the builder
    takes the fields of the summary for the requester. *)
Definition archiveResolved (envr : Env) (o : CloseOracle) : bool :=
  truthyOpt (TRANSCRIPT_CHANNEL_ID envr) &&
  match co_fetchTranscriptChannel o with Ok (Some true) => true | _ => false end.

Definition archiveBuilt (o : CloseOracle) (self : Ticket) (user : User)
    (reason : option string) (ticketInfo : option (TicketRow * CategoryRow)) : bool :=
  match ticketInfo with
  | Some info => isOk (archiveFields o self user reason info)
  | None => false
  end.

Definition staffResolved (o : CloseOracle) (ticketInfo : option (TicketRow * CategoryRow)) : bool :=
  match ticketInfo with
  | Some info => truthyOpt (t_staffThreadId (fst info))
  | None => false
  end &&
  match co_fetchStaffThread o with Ok (Some true) => true | _ => false end &&
  match co_fetchStaffMessages o with Ok l => 1 <? length l | Err _ => false end.

Definition staffBuilt (o : CloseOracle) (self : Ticket)
    (ticketInfo : option (TicketRow * CategoryRow)) : bool :=
  match ticketInfo, co_fetchStaffMessages o with
  | Some info, Ok staffMessages => isOk (staffFields o self info staffMessages)
  | _, _ => false
  end.

Definition ownerResolved (o : CloseOracle) : bool :=
  match co_fetchOwner o with Ok (Some _) => true | _ => false end.

Definition ownerBuilt (o : CloseOracle) (user : User) (reason : option string) : bool :=
  isOk (ownerFields o user reason).

(** The error each block of the fan-out ends with, if it throws: the
    archive block on the fetch of the channel, on the fields of the summary
    or on the post; the staff block on the fetch of the thread, on the
    fetch of its messages, on the fields of the summary or on the post; the
    requester block on the fetch of the user, on the fields of the summary
    or on the direct message. *)
Definition archiveError (o : CloseOracle) (self : Ticket) (user : User)
    (reason : option string) (ticketInfo : TicketRow * CategoryRow) : option string :=
  match co_fetchTranscriptChannel o with
  | Err e => Some e
  | Ok (Some true) =>
      match archiveFields o self user reason ticketInfo with
      | Err e => Some e
      | Ok _ => match co_sendArchive o with Err e => Some e | Ok _ => None end
      end
  | Ok _ => None
  end.

Definition staffError (o : CloseOracle) (self : Ticket)
    (ticketInfo : TicketRow * CategoryRow) : option string :=
  match co_fetchStaffThread o with
  | Err e => Some e
  | Ok (Some true) =>
      match co_fetchStaffMessages o with
      | Err e => Some e
      | Ok l =>
          if 1 <? length l
          then match staffFields o self ticketInfo l with
               | Err e => Some e
               | Ok _ =>
                   match co_sendStaffTranscript o with Err e => Some e | Ok _ => None end
               end
          else None
      end
  | Ok _ => None
  end.

Definition ownerError (o : CloseOracle) (user : User) (reason : option string)
    : option string :=
  match co_fetchOwner o with
  | Err e => Some e
  | Ok (Some _) =>
      match ownerFields o user reason with
      | Err e => Some e
      | Ok _ => match co_sendOwnerDM o with Err e => Some e | Ok _ => None end
      end
  | Ok None => None
  end.

(** The staff block is entered when the archive post returned and the
    ticket has a staff thread. *)
Definition staffEntered (envr : Env) (o : CloseOracle) (self : Ticket) (user : User)
    (reason : option string) (ticketInfo : option (TicketRow * CategoryRow)) : bool :=
  archiveResolved envr o && archiveBuilt o self user reason ticketInfo &&
  isOk (co_sendArchive o) &&
  match ticketInfo with
  | Some info => truthyOpt (t_staffThreadId (fst info))
  | None => false
  end.

(** The rendering step: the transcript, when the ticket was found and the
    generator returned. *)
Definition renderTranscript (o : CloseOracle) (self : Ticket)
    (ticketInfo : option (TicketRow * CategoryRow)) (w : World)
    : World * option Document :=
  match ticketInfo with
  | None => (w, None)
  | Some _ =>
      match generateTicketTranscript (co_transcriptQuery o) (db w) (ticketId self) with
      | Ok doc =>
          (emit (Log Success ("Generated transcript for ticket " +:+
                              pretty (ticketId self))) w, Some doc)
      | Err e =>
          let line := "Failed to generate transcript for ticket " +:+
                      pretty (ticketId self) +:+ ": " +:+ e in
          (emit (Log Error line) (emit (Log Error line) w), None)
      end
  end.

(** Everything after the closure message was stored: rendering, the
    fan-out, the timer. *)
Definition afterDurable (envr : Env) (o : CloseOracle) (self : Ticket) (user : User)
    (reason : option string) (ticketInfo : option (TicketRow * CategoryRow))
    (w : World) : World :=
  let '(w, transcript) := renderTranscript o self ticketInfo w in
  let w :=
    match TRANSCRIPT_CHANNEL_ID envr, ticketInfo, transcript with
    | Some transcriptChannel, Some info, Some doc =>
        if truthy transcriptChannel
        then archiveFanout o self user reason info transcriptChannel doc w
        else w
    | _, _, _ => w
    end in
  let w :=
    match ticketInfo, transcript with
    | Some info, Some doc => ownerFanout o self user reason info doc w
    | _, _ => w
    end in
  emit (SetTimeout 500
          {| d_channel := ch_id (channel self);
             d_reason := "Ticket closed by " +:+ u_username user +:+
                         match reason with
                         | Some r => if truthy r then ": " +:+ r else EmptyString
                         | None => EmptyString
                         end |}) w.

(** [ticket.closeTicket(user, reason)]. *)
Definition closeTicket (envr : Env) (o : CloseOracle) (self : Ticket) (user : User)
    (reason : option string) (w : World) : World * bool :=
  let w := emit (Log Info ("Ticket " +:+ pretty (ticketId self) +:+ " closed by " +:+
                           u_username user +:+ ", reason: " +:+
                           default "N/A" reason)) w in
  let failed e w :=
    (emit (Log Error ("Unable to close ticket " +:+ pretty (ticketId self) +:+
                      ": " +:+ e)) w, false) in
  match co_findTicketInfo o with
  | Err e => failed e w
  | Ok _ =>
      let ticketInfo := findTicketWithCategory (db w) (ticketId self) in
      let closedAt := clock w in
      let w := tick w in
      match co_updateClosedAt o with
      | Err e => failed e w
      | Ok _ =>
          let w := withDB (updateTicket (ticketId self) (setClosedAt closedAt)) w in
          match co_createClosureMessage o with
          | Err e => failed e w
          | Ok _ =>
              let sentAt := clock w in
              let w := tick w in
              let w := withDB (createMessage sentAt (ticketId self) (u_id user)
                                 (u_displayName user)
                                 (Some (default EmptyString (u_avatarURL user)))
                                 (Some (closureMarker reason))) w in
              (afterDurable envr o self user reason ticketInfo w, true)
          end
      end
  end.

(** The log lines of the fan-out failures. *)
Definition transcriptFailure (self : Ticket) (e : string) : Event :=
  Log Error ("Failed to generate transcript for ticket " +:+
             pretty (ticketId self) +:+ ": " +:+ e).

Definition archiveFailure (self : Ticket) (e : string) : Event :=
  Log Error ("Failed to send transcript to channel for ticket " +:+
             pretty (ticketId self) +:+ ": " +:+ e).

Definition staffFailure (self : Ticket) (e : string) : Event :=
  Log Warn ("Failed to send staff thread transcript for ticket " +:+
            pretty (ticketId self) +:+ ": " +:+ e).

Definition ownerFailure (self : Ticket) (e : string) : Event :=
  Log Warn ("Failed to send transcript DM to ticket owner for ticket " +:+
            pretty (ticketId self) +:+ ": " +:+ e).

(** *** Closure: the static method [Ticket.closeTicket(channelId, interaction)] *)

Record Guild := {
  g_name : string;
  g_iconURL : option string;
}.

Record StaticCloseOracle := {
  so_showModal : result unit;
  (** the correlated submission (its fields by custom id), or the
      rejection after 60 seconds *)
  so_awaitModalSubmit : result (gmap string string);
  so_deferReply : result unit;
  so_close : CloseOracle;
  so_deleteReply : result unit;
  so_findOwner : result unit;
  so_guild : option Guild;
  so_fetchMember : result unit;
  so_sendNotification : result unit;
}.

(** A close request is confirmed with the reason [r] when the prompt is
    shown, the correlated submission arrives with the reason field, and
    the submission is acknowledged. *)
Definition confirmed (o : StaticCloseOracle) (channelId r : string) : Prop :=
  isOk (so_showModal o) = true ∧
  (∃ fields, so_awaitModalSubmit o = Ok fields ∧
             fields !! ("closure-reason-" +:+ channelId) = Some r) ∧
  isOk (so_deferReply o) = true.

Definition closeModal (channelId : string) (ticket : Ticket) : Modal :=
  {| md_custom_id := "collector-closeticket-" +:+ channelId;
     md_title := "Closing ticket: " +:+ ch_name (channel ticket);
     md_components :=
       [ {| ti_custom_id := "closure-reason-" +:+ channelId;
            ti_label := "Closure reason:";
            ti_placeholder := None;
            ti_required := false;
            ti_style := Paragraph;
            ti_min_length := None;
            ti_max_length := None |} ] |}.

(** The notification sent to the requester when somebody else closed. *)
Definition closureNotification (guild : option Guild) (closureReason : string) : Outgoing :=
  {| o_content := None;
     o_embeds :=
       [ {| e_author := g_name <$> guild;
            e_title := Some "Your ticket closed";
            e_description :=
              Some (if truthy closureReason
                    then "Closure reason:" +:+ LF +:+ "> " +:+ closureReason
                    else "Ticket considered as resolved.");
            e_thumbnail := guild ≫= g_iconURL;
            e_color := None;
            e_fields := [] |} ];
     o_files := [];
     o_closeButton := false |}.

(** The tail of the static method, after the reply was deleted. *)
Definition notifyRequester (o : StaticCloseOracle) (ticket : Ticket)
    (closer : User) (closureReason : string) (w : World) : World * result unit :=
  match so_findOwner o with
  | Err e => (w, Err e)
  | Ok _ =>
      match findTicket (db w) (ticketId ticket) with
      | None => (w, Ok ())
      | Some dbUser =>
          if decide (t_userId dbUser = u_id closer) then (w, Ok ())
          else
            let failed e :=
              emit (Log Error ("Unable to send closure notification to user: " +:+ e)) in
            match so_guild o with
            | None => (failed (t_userId dbUser +:+ " was not found") w, Ok ())
            | Some _ =>
                match so_fetchMember o with
                | Err e => (failed e w, Ok ())
                | Ok _ =>
                    let w := emit (DirectMessage (t_userId dbUser)
                                     (closureNotification (so_guild o) closureReason)) w in
                    match so_sendNotification o with
                    | Err e => (failed e w, Ok ())
                    | Ok _ => (w, Ok ())
                    end
                end
            end
      end
  end.

(** [Ticket.closeTicket(channelId, interaction)]; [closer] is
    [interaction.user], who is also the user of the correlated submission. *)
Definition closeTicketStatic (envr : Env) (o : StaticCloseOracle)
    (channelId : string) (closer : User) (w : World) : World * result unit :=
  match getTicket channelId w with
  | None => (emit (Reply "This channel is not an active ticket.") w, Ok ())
  | Some ticket =>
      let w := emit (ShowModal (closeModal channelId ticket)) w in
      match so_showModal o with
      | Err e => (w, Err e)
      | Ok _ =>
          match so_awaitModalSubmit o with
          | Err e => (emit (Log Error e) w, Ok ())
          | Ok fields =>
              match fields !! ("closure-reason-" +:+ channelId) with
              | None =>
                  let w := emit (Log Error "Required field not found") w in
                  (emit (ModalReply "Closure cancelled") w, Ok ())
              | Some closureReason =>
                  let w := emit ModalDeferReply w in
                  match so_deferReply o with
                  | Err e => (w, Err e)
                  | Ok _ =>
                      let '(w, success) :=
                        closeTicket envr (so_close o) ticket closer (Some closureReason) w in
                      let w :=
                        if success then withRegistry (delete channelId) w else w in
                      let w := emit ModalDeleteReply w in
                      match so_deleteReply o with
                      | Err e => (w, Err e)
                      | Ok _ => notifyRequester o ticket closer closureReason w
                      end
                  end
              end
          end
      end
  end.

(** *** Intake: [Ticket.createNewTicket(client, interaction, category_id)] *)

(** [TebexPayment], as far as the handler reads it. *)
Record TebexPayment := {
  status : string;
  packages : list string;
}.

(** The answer of [Tebex.verifyPurchase]: success with the payment, or an
    error value. *)
Inductive Purchase :=
  | PurchaseOk (data : TebexPayment)
  | PurchaseError.

Record CreateOracle := {
  cr_getCategoryData : result unit;
  cr_fetchGuild : result (option unit);
  cr_deferReply : result unit;
  (** the provisioning location: null, or its access-control entries *)
  cr_fetchCategoryChannel : result (option (list Overwrite));
  cr_createChannel : result TextChannel;
  cr_editReply : result unit;
  cr_insertTicket : result unit;
  cr_channelSend : result unit;
  cr_threadCreate : result string;
  cr_saveThread : result unit;
  cr_threadSend : result unit;
  cr_showModal : result unit;
  (** the correlated submission (its fields by custom id), or the
      rejection after 60 seconds *)
  cr_awaitModalSubmit : result (gmap string string);
  cr_modalDeferReply : result unit;
  cr_verifyPurchase : string → result Purchase;
  (** the message of the error the embed builder throws *)
  cr_refusedFields : list APIEmbedField → string;
}.

(** One answered input of the form. *)
Record Response := {
  r_label : string;
  r_response : string;
  r_id : string;
}.

Definition channelUrl (envr : Env) (channel : TextChannel) : string :=
  "https://discord.com/channels/" +:+ MAIN_GUILD_ID envr +:+ "/" +:+ ch_id channel.

(** The access-control entries of the new channel: the entries of the
    provisioning location, then the requester. *)
Definition permissionOverwrites (inherited : list Overwrite) (user : User) : list Overwrite :=
  inherited ++
  [ {| ow_id := u_id user; ow_allow := ViewChannel; ow_deny := 0%N; ow_type := 1 |} ].

Definition guidelines : string :=
  "> :warning: Failure to follow ticket guidelines and required information **can** lead to the ticket getting closed.".

Definition introMessage (category : CategoryRow) (user : User)
    (fields : list APIEmbedField) : Outgoing :=
  {| o_content := Some ("<@" +:+ u_id user +:+ ">");
     o_embeds :=
       [ {| e_author := None;
            e_title := Some (c_name category +:+ " ticket - " +:+ u_displayName user);
            e_description := Some guidelines;
            e_thumbnail := None; e_color := None;
            e_fields := fields |} ];
     o_files := [];
     o_closeButton := true |}.

Definition staffMentions (envr : Env) : string :=
  join " " ((λ roleId, "<@&" +:+ roleId +:+ ">") <$> STAFF_ROLE_IDS envr).

(** The creation of the private staff thread, with the notice each path
    posts into it. *)
Definition createStaffThread (envr : Env) (o : CreateOracle) (channel : TextChannel)
    (dbTicket : TicketRow) (notice : string) (w : World) : World :=
  match STAFF_ROLE_IDS envr with
  | [] => w
  | _ =>
      let failed e :=
        emit (Log Warn ("Failed to create private staff thread for ticket " +:+
                        pretty (t_id dbTicket) +:+ ": " +:+ e)) in
      let w := emit (ThreadCreate (ch_id channel)
                       ("Evidence-" +:+ pretty (t_id dbTicket))
                       ("Staff discussion thread for ticket #" +:+ pretty (t_id dbTicket))) w in
      match cr_threadCreate o with
      | Err e => failed e w
      | Ok thread =>
          match cr_saveThread o with
          | Err e => failed e w
          | Ok _ =>
              let w := withDB (updateTicket (t_id dbTicket) (setStaffThreadId thread)) w in
              let w := emit (ThreadSend thread notice) w in
              match cr_threadSend o with
              | Err e => failed e w
              | Ok _ =>
                  emit (Log Info ("Created private staff thread for ticket " +:+
                                  pretty (t_id dbTicket))) w
              end
          end
      end
  end.

(** The opening sequence once the channel exists and the fields of the
    introductory message are known: the row, the registry entry, the
    introductory message, the staff thread. *)
Definition openTicket (envr : Env) (o : CreateOracle) (category : CategoryRow)
    (user : User) (channel : TextChannel) (fields : list APIEmbedField)
    (notice : string) (w : World) : World * result unit :=
  match cr_insertTicket o with
  | Err e => (w, Err e)
  | Ok _ =>
      let openedAt := clock w in
      let w := tick w in
      let dbTicket := newTicketRow openedAt (c_id category) (ch_name channel)
                        (ch_id channel) (u_id user) (u_username user)
                        (u_displayName user) (db w) in
      let w := withDB (insertTicket dbTicket) w in
      let ticket := {| channel := channel; ticketId := t_id dbTicket |} in
      let w := withRegistry (insert (ch_id (TicketHandler.channel ticket)) ticket) w in
      let w := emit (ChannelSend (ch_id channel) (introMessage category user fields)) w in
      match cr_channelSend o with
      | Err e => (w, Err e)
      | Ok _ => (createStaffThread envr o channel dbTicket notice w, Ok ())
      end
  end.

Definition channelReason (category : CategoryRow) (user : User) : string :=
  "Ticket opened by " +:+ u_username user +:+ " under category: " +:+ c_name category.

Definition noCategoryChannel (category : CategoryRow) : string :=
  "Unable to find category channel (" +:+ c_categoryId category +:+
  ") for category: " +:+ c_name category +:+ " !".

Definition fastNotice (envr : Env) : string :=
  staffMentions envr +:+ LF +:+ LF +:+ "ðŸ”’ **Staff Evidence Thread**" +:+ LF +:+
  "Private staff-only discussion for this ticket. A separate transcript will be generated for this thread and sent to the transcript channel when the ticket is closed.".

Definition formNotice (envr : Env) : string :=
  staffMentions envr +:+
  " - Private staff-only discussion for this ticket. Messages here will NOT be included in the transcript.".

(** The branch taken when the category asks for no token and has no field. *)
Definition fastPath (envr : Env) (o : CreateOracle) (category : CategoryRow)
    (user : User) (w : World) : World * result unit :=
  let w := emit DeferReply w in
  match cr_deferReply o with
  | Err e => (w, Err e)
  | Ok _ =>
      match cr_fetchCategoryChannel o with
      | Err e => (w, Err e)
      | Ok None =>
          let w := emit (Log Error (noCategoryChannel category)) w in
          let w := emit (EditReply "Unable to open a ticket, please inform the developers that no category was found.") w in
          match cr_editReply o with
          | Err e => (w, Err e)
          | Ok _ => (w, Ok ())
          end
      | Ok (Some inherited) =>
          let w := emit (ChannelCreate (u_username user) (c_categoryId category)
                           (channelReason category user)
                           (permissionOverwrites inherited user)) w in
          match cr_createChannel o with
          | Err e => (w, Err e)
          | Ok channel =>
              let w := withCreated channel w in
              let w := emit (EditReply ("Your ticket has been opened: " +:+
                                        channelUrl envr channel +:+ ".")) w in
              match cr_editReply o with
              | Err e => (w, Err e)
              | Ok _ => openTicket envr o category user channel [] (fastNotice envr) w
              end
          end
      end
  end.

(** The structured prompt: the token input when the category requires
    one, then one input per field of the category. *)
Definition tbxidInput : TextInput :=
  {| ti_custom_id := "tbxid";
     ti_label := "Transaction ID";
     ti_placeholder := Some "tbx-000a0000a00000-aaa0aa";
     ti_required := true;
     ti_style := Short;
     ti_min_length := Some 25;
     ti_max_length := Some 40 |}.

Definition fieldInput (field : FieldRow) : TextInput :=
  {| ti_custom_id := pretty (f_id field);
     ti_label := f_label field;
     ti_placeholder :=
       match f_placeholder field with
       | Some p => if truthy p then Some p else None
       | None => None
       end;
     ti_required := f_required field =? 1;
     ti_style := if f_short_field field =? 1 then Short else Paragraph;
     ti_min_length :=
       match f_min_length field with
       | Some 0 | None => None
       | Some n => Some n
       end;
     ti_max_length :=
       match f_max_length field with
       | Some 0 | None => None
       | Some n => Some n
       end |}.

Definition openModal (category : CategoryRow) (fields : list FieldRow) (user : User) : Modal :=
  {| md_custom_id := "collector-openticket-" +:+ pretty (c_id category) +:+ "-" +:+ u_id user;
     md_title := "Ticket: " +:+ c_name category;
     md_components :=
       (if c_requireTbxId category then [tbxidInput] else []) ++ (fieldInput <$> fields) |}.

(** [list.map(f)] for an [f] that may throw. *)
Fixpoint mapResult {A B : Type} (f : A → result B) (l : list A) : result (list B) :=
  match l with
  | [] => Ok []
  | x :: rest =>
      match f x with
      | Err e => Err e
      | Ok y =>
          match mapResult f rest with
          | Err e => Err e
          | Ok ys => Ok (y :: ys)
          end
      end
  end.

(** [formattedResponses]: the answer to each input of the prompt, the
    incomplete ones dropped. *)
Definition formatResponses (modal : Modal) (responseData : gmap string string)
    : result (list Response) :=
  match mapResult
          (λ textInput,
             match responseData !! ti_custom_id textInput with
             | Some response =>
                 Ok {| r_label := ti_label textInput; r_response := response;
                       r_id := ti_custom_id textInput |}
             | None => Err "Cannot use 'in' operator to search for 'value' in undefined"
             end)
          (md_components modal) with
  | Err e => Err e
  | Ok all =>
      Ok (List.filter (λ e, truthy (r_label e) && truthy (r_response e) && truthy (r_id e)) all)
  end.

Definition invalidTransaction : string :=
  "This ticket requires a **valid** transaction id for a purchase.".

Section TokenFormat.

(** [tbxIdRegex.test] of utils/utils, which is not among the sources: the
    recognizer of the verification-token format. *)
Variable tbxIdRegex : string → bool.

(** The summary that stands for an answer in the token format. *)
Definition purchaseInfo (response : string) (data : TebexPayment) : string :=
  "* Transaction ID: " +:+ response +:+ LF +:+
  "* Status: " +:+ status data +:+ LF +:+
  "* Packages: " +:+ join ", " (packages data).

(** The callback of the [map] that builds the fields of the embed;
    [purchase] is unassigned when the category requires no token. *)
Definition introField (purchase : option Purchase) (r : Response) : result APIEmbedField :=
  if tbxIdRegex (r_response r) then
    match purchase with
    | None => Err "Cannot read properties of undefined (reading 'success')"
    | Some (PurchaseOk data) =>
        Ok {| name := "Purchase Info";
              value := purchaseInfo (r_response r) data;
              inline := false |}
    | Some PurchaseError =>
        Ok {| name := r_label r; value := r_response r; inline := false |}
    end
  else Ok {| name := r_label r; value := r_response r; inline := false |}.

(** How a field of the introductory message stands for an answer: an
    answer in the token format by the summary of the verified payment, any
    other answer by itself under its label. *)
Definition renders (purchase : option Purchase) (r : Response) (f : APIEmbedField) : Prop :=
  if tbxIdRegex (r_response r) then
    ∃ data, purchase = Some (PurchaseOk data) ∧
            name f = "Purchase Info" ∧
            value f = "* Transaction ID: " +:+ r_response r +:+ LF +:+
                      "* Status: " +:+ status data +:+ LF +:+
                      "* Packages: " +:+ join ", " (packages data) ∧
            includes (status data) (value f) = true ∧
            (∀ package, package ∈ packages data → includes package (value f) = true) ∧
            includes (r_response r) (value f) = true
  else name f = r_label r ∧ value f = r_response r.

(** The verification step: the payment of the submitted token, when the
    category requires one; [inl] carries the world and outcome the
    workflow ends with. *)
Definition verify (o : CreateOracle) (category : CategoryRow)
    (formattedResponses : list Response) (w : World)
    : (World * result unit) + (World * option Purchase) :=
  if c_requireTbxId category then
    match r_response <$> List.find (λ item, String.eqb (r_id item) "tbxid") formattedResponses with
    | None => inl (emit (ModalEditReply invalidTransaction) w, Ok ())
    | Some tbxid =>
        match cr_verifyPurchase o tbxid with
        | Err e => inl (w, Err e)
        | Ok PurchaseError => inl (emit (ModalEditReply invalidTransaction) w, Ok ())
        | Ok (PurchaseOk data) => inr (w, Some (PurchaseOk data))
        end
    end
  else inr (w, None).

(** The payment the fields of the introductory message are built with:
    that of the submitted token, which the service verified, when the
    category requires a token; none when it requires none. *)
Definition verified (o : CreateOracle) (category : CategoryRow)
    (formattedResponses : list Response) (purchase : option Purchase) : Prop :=
  if c_requireTbxId category then
    ∃ tbxid data,
      r_response <$> List.find (λ item, String.eqb (r_id item) "tbxid") formattedResponses
      = Some tbxid ∧
      cr_verifyPurchase o tbxid = Ok (PurchaseOk data) ∧
      purchase = Some (PurchaseOk data)
  else purchase = None.

(** The bounds of the builder, read on an answer: the summary that stands
    for an answer in the token format, the label and the answer
    otherwise. *)
Definition withinBounds (data : TebexPayment) (r : Response) : Prop :=
  if tbxIdRegex (r_response r)
  then String.length (purchaseInfo (r_response r) data) ≤ 1024
  else String.length (r_label r) ≤ 256 ∧ String.length (r_response r) ≤ 1024.

(** The branch that presents the structured prompt. *)
Definition formPath (envr : Env) (o : CreateOracle) (category : CategoryRow)
    (fields : list FieldRow) (user : User) (w : World) : World * result unit :=
  let modal := openModal category fields user in
  let w := emit (ShowModal modal) w in
  match cr_showModal o with
  | Err e => (w, Err e)
  | Ok _ =>
      match cr_awaitModalSubmit o with
      | Err _ => (w, Ok ())
      | Ok responseData =>
          let w := emit ModalDeferReply w in
          match cr_modalDeferReply o with
          | Err e => (w, Err e)
          | Ok _ =>
              match formatResponses modal responseData with
              | Err e => (w, Err e)
              | Ok formattedResponses =>
                  match verify o category formattedResponses w with
                  | inl ended => ended
                  | inr (w, purchase) =>
                      match cr_fetchCategoryChannel o with
                      | Err e => (w, Err e)
                      | Ok None =>
                          let w := emit (Log Error (noCategoryChannel category)) w in
                          (emit (ModalEditReply "Unable to open a ticket, please inform the developers that no category was found.") w, Ok ())
                      | Ok (Some inherited) =>
                          let w := emit (ChannelCreate (u_username user)
                                           (c_categoryId category)
                                           (channelReason category user)
                                           (permissionOverwrites inherited user)) w in
                          match cr_createChannel o with
                          | Err e => (w, Err e)
                          | Ok channel =>
                              let w := withCreated channel w in
                              let w := emit (ModalEditReply
                                               ("Your ticket has been opened: " +:+
                                                channelUrl envr channel +:+ ".")) w in
                              match mapResult (introField purchase) formattedResponses with
                              | Err e => (w, Err e)
                              | Ok fields =>
                                  match setFields (cr_refusedFields o) fields with
                                  | Err e => (w, Err e)
                                  | Ok embedFields =>
                                      openTicket envr o category user channel embedFields
                                        (formNotice envr) w
                                  end
                              end
                          end
                      end
                  end
              end
          end
      end
  end.

(** [Ticket.createNewTicket(client, interaction, category_id)]; [user] is
    [interaction.user]. *)
Definition createNewTicket (envr : Env) (o : CreateOracle) (user : User)
    (category_id : nat) (w : World) : World * result unit :=
  match cr_getCategoryData o with
  | Err e => (w, Err e)
  | Ok _ =>
      match findCategory (db w) category_id with
      | None => (emit (Reply "Invalid Data") w, Ok ())
      | Some categoryData =>
          let fields := fieldsOf (db w) (c_id categoryData) in
          match cr_fetchGuild o with
          | Err e => (w, Err e)
          | Ok None =>
              (w, Err "No guild was found ! Make sure the environment variable MAIN_GUILD_ID is set to a valid guild ID !")
          | Ok (Some _) =>
              if negb (c_requireTbxId categoryData) && (length fields =? 0)
              then fastPath envr o categoryData user w
              else formPath envr o categoryData fields user w
          end
      end
  end.

End TokenFormat.

End TicketHandler.

(** ** Concrete data for the examples *)

Module Examples.
Import Js Store Transcript TicketHandler.

Definition alice : User :=
  {| u_id := "1001"; u_username := "alice"; u_displayName := "Alice";
     u_avatarURL := None |}.

Definition moderator : User :=
  {| u_id := "2002"; u_username := "mod"; u_displayName := "Moderator";
     u_avatarURL := None |}.

Definition bot : User :=
  {| u_id := "9000"; u_username := "tebexsync"; u_displayName := "TebexSync";
     u_avatarURL := None |}.

Definition billing : CategoryRow :=
  {| c_id := 1; c_name := "Billing"; c_description := None; c_emoji := None;
     c_categoryId := "500"; c_requireTbxId := true |}.

Definition describeIssue : FieldRow :=
  {| f_id := 1; f_category := 1; f_label := "Describe issue";
     f_placeholder := None; f_required := 1; f_short_field := 1;
     f_min_length := None; f_max_length := None |}.

Definition aliceTicket : TicketRow :=
  {| t_id := 1; t_category := 1; t_ticketName := "alice"; t_channelId := "700";
     t_userId := "1001"; t_userUsername := "alice"; t_userDisplayName := "Alice";
     t_openedAt := 10; t_closedAt := None; t_staffThreadId := None |}.

Definition orphanTicket : TicketRow :=
  {| t_id := 2; t_category := 1; t_ticketName := "bob"; t_channelId := "701";
     t_userId := "1002"; t_userUsername := "bob"; t_userDisplayName := "Bob";
     t_openedAt := 11; t_closedAt := None; t_staffThreadId := None |}.

(** A message of the requester with text and one embed, and the row
    [handleNewMessage] stores for it. *)
Definition receiptPosted : Message :=
  {| msg_channelId := "700"; msg_content := "my receipt";
     msg_embeds := [ stringifyEmbed "Receipt" None ];
     msg_author := alice |}.

Definition receiptRow : MessageRow :=
  {| m_id := 1; m_ticket := 1; m_authorId := "1001"; m_displayName := "Alice";
     m_avatar := None; m_content := Some (storedContent receiptPosted);
     m_sentAt := 11; m_editedAt := None |}.

Definition helloRow : MessageRow :=
  {| m_id := 2; m_ticket := 1; m_authorId := "1001"; m_displayName := "Alice";
     m_avatar := None; m_content := Some "hello"; m_sentAt := 12;
     m_editedAt := None |}.

Definition db0 : DB :=
  {| tickets := [aliceTicket];
     ticketMessages := [receiptRow; helloRow];
     ticketCategories := [billing];
     ticketCategoryFields := [describeIssue] |}.

Definition env0 : Env :=
  {| MAIN_GUILD_ID := "1"; STAFF_ROLE_IDS := ["3000"];
     TRANSCRIPT_CHANNEL_ID := Some "800" |}.

Definition aliceChannel : TextChannel := {| ch_id := "700"; ch_name := "alice" |}.

Definition aliceOpen : Ticket := {| channel := aliceChannel; ticketId := 1 |}.

Definition world0 : World :=
  {| ActiveTickets := {[ "700" := aliceOpen ]};
     db := db0; created := []; clock := 100; trace := [] |}.

(** Every collaborator answers. *)
Definition closeOk : CloseOracle :=
  {| co_findTicketInfo := Ok ();
     co_updateClosedAt := Ok ();
     co_createClosureMessage := Ok ();
     co_transcriptQuery := Ok ();
     co_fetchTranscriptChannel := Ok (Some true);
     co_sendArchive := Ok ();
     co_fetchStaffThread := Ok (Some true);
     co_fetchStaffMessages := Ok [];
     co_sendStaffTranscript := Ok ();
     co_fetchOwner := Ok (Some alice);
     co_sendOwnerDM := Ok ();
     co_refusedFields := λ _, "Received one or more errors" |}.

(** The transcript generator throws, every other collaborator answers. *)
Definition transcriptFails : CloseOracle :=
  {| co_findTicketInfo := Ok ();
     co_updateClosedAt := Ok ();
     co_createClosureMessage := Ok ();
     co_transcriptQuery := Err "connection lost";
     co_fetchTranscriptChannel := Ok (Some true);
     co_sendArchive := Ok ();
     co_fetchStaffThread := Ok (Some true);
     co_fetchStaffMessages := Ok [];
     co_sendStaffTranscript := Ok ();
     co_fetchOwner := Ok (Some alice);
     co_sendOwnerDM := Ok ();
     co_refusedFields := λ _, "Received one or more errors" |}.

(** The store refuses the append of the closure message. *)
Definition appendFails : CloseOracle :=
  {| co_findTicketInfo := Ok ();
     co_updateClosedAt := Ok ();
     co_createClosureMessage := Err "connection lost";
     co_transcriptQuery := Ok ();
     co_fetchTranscriptChannel := Ok (Some true);
     co_sendArchive := Ok ();
     co_fetchStaffThread := Ok (Some true);
     co_fetchStaffMessages := Ok [];
     co_sendStaffTranscript := Ok ();
     co_fetchOwner := Ok (Some alice);
     co_sendOwnerDM := Ok ();
     co_refusedFields := λ _, "Received one or more errors" |}.

(** A ticket with a staff thread that holds two messages; the archive post
    answers as given, every other collaborator answers. *)
Definition threadWorld : World :=
  {| ActiveTickets := {[ "700" := aliceOpen ]};
     db := updateTicket 1 (setStaffThreadId "900") db0;
     created := []; clock := 100; trace := [] |}.

Definition staffNote (id content : string) (sentAt : Z) : StaffMessage :=
  {| sm_id := id; sm_authorId := "2002"; sm_displayName := "Moderator";
     sm_avatar := None; sm_content := content; sm_editedAt := None;
     sm_sentAt := sentAt |}.

Definition archiveAnswers (post : result unit) : CloseOracle :=
  {| co_findTicketInfo := Ok ();
     co_updateClosedAt := Ok ();
     co_createClosureMessage := Ok ();
     co_transcriptQuery := Ok ();
     co_fetchTranscriptChannel := Ok (Some true);
     co_sendArchive := post;
     co_fetchStaffThread := Ok (Some true);
     co_fetchStaffMessages := Ok [staffNote "2" "chargeback confirmed" 21;
                                  staffNote "1" "seed" 20];
     co_sendStaffTranscript := Ok ();
     co_fetchOwner := Ok (Some alice);
     co_sendOwnerDM := Ok ();
     co_refusedFields := λ _, "Received one or more errors" |}.

(** A closure reason of 1025 code units. *)
Definition longReason : string := string_of_list_ascii (replicate 1025 "x"%char).

Definition staticWith (co : CloseOracle) : StaticCloseOracle :=
  {| so_showModal := Ok ();
     so_awaitModalSubmit := Ok {[ "closure-reason-700" := "resolved" ]};
     so_deferReply := Ok ();
     so_close := co;
     so_deleteReply := Ok ();
     so_findOwner := Ok ();
     so_guild := Some {| g_name := "Shop"; g_iconURL := None |};
     so_fetchMember := Ok ();
     so_sendNotification := Ok () |}.

(** Recovery: the channel of the first ticket resolves, the channel of the
    second is gone. *)
Definition reloadOracle : ReloadOracle :=
  {| ro_findMany := Ok ();
     ro_fetch := λ id, if String.eqb id "700" then Ok (Some "alice")
                       else Err "Unknown Channel";
     ro_update := λ _, Ok ();
     ro_create := λ _, Ok () |}.

Definition startup : World :=
  {| ActiveTickets := ∅;
     db := {| tickets := [aliceTicket; orphanTicket];
              ticketMessages := [receiptRow; helloRow];
              ticketCategories := [billing];
              ticketCategoryFields := [describeIssue] |};
     created := []; clock := 100; trace := [] |}.

(** The same pass when the store refuses the write of the closed
    timestamp, the orphan being the first row. *)
Definition refusingStore : ReloadOracle :=
  {| ro_findMany := Ok ();
     ro_fetch := λ id, if String.eqb id "700" then Ok (Some "alice")
                       else Err "Unknown Channel";
     ro_update := λ _, Err "connection lost";
     ro_create := λ _, Ok () |}.

Definition orphanFirst : World :=
  {| ActiveTickets := ∅;
     db := {| tickets := [orphanTicket; aliceTicket];
              ticketMessages := [receiptRow; helloRow];
              ticketCategories := [billing];
              ticketCategoryFields := [describeIssue] |};
     created := []; clock := 100; trace := [] |}.

(** Intake: a stand-in for the token format, which accepts what starts
    like the placeholder of the prompt. *)
Definition tokenShape (s : string) : bool := String.prefix "tbx-" s.

Definition token : string := "tbx-000a0000a00000-aaa0aa".

Definition payment : TebexPayment :=
  {| status := "Complete"; packages := ["VIP"; "Garage"] |}.

Definition createOracle (submission : result (gmap string string)) : CreateOracle :=
  {| cr_getCategoryData := Ok ();
     cr_fetchGuild := Ok (Some ());
     cr_deferReply := Ok ();
     cr_fetchCategoryChannel := Ok (Some []);
     cr_createChannel := Ok {| ch_id := "702"; ch_name := "moderator" |};
     cr_editReply := Ok ();
     cr_insertTicket := Ok ();
     cr_channelSend := Ok ();
     cr_threadCreate := Ok "900";
     cr_saveThread := Ok ();
     cr_threadSend := Ok ();
     cr_showModal := Ok ();
     cr_awaitModalSubmit := submission;
     cr_modalDeferReply := Ok ();
     cr_verifyPurchase := λ _, Ok (PurchaseOk payment);
     cr_refusedFields := λ _, "Received one or more errors" |}.

Definition submitted : gmap string string :=
  {[ "tbxid" := token; "1" := "I was charged twice" ]}.

(** The field values of the messages posted to channels, in order. *)
Definition postedFieldValues (evs : list Event) : list string :=
  evs ≫= λ ev,
    match ev with
    | ChannelSend _ m => o_embeds m ≫= λ e, value <$> e_fields e
    | _ => []
    end.

End Examples.

(** ** Rendering of one message ([generateHTML], [parseEmbed],
    [generateStaffThreadHTML]) *)

Module Rendering.
Import Js Store Transcript TicketHandler.

(** [subject.match(re)] for a global [re] none of whose matches is empty:
    the matched substrings from left to right; the empty list stands for
    the null of a subject without a match. *)
Fixpoint match_from (m : matcher) (prev : option ascii) (skip : nat)
    (s : string) : list string :=
  match s with
  | EmptyString => []
  | String c r =>
      match skip with
      | S k => match_from m (Some c) k r
      | O =>
          match m prev s with
          | Some (_, len) =>
              String.substring 0 len s :: match_from m (Some c) (pred len) r
          | None => match_from m (Some c) 0 r
          end
      end
  end.

Definition matchAll (m : matcher) (s : string) : list string :=
  match_from m None 0 s.

(** [subject.replace(pattern, rep)] for a string [pattern]: the first
    occurrence only. *)
Fixpoint replaceFirst (pattern rep s : string) : string :=
  if String.prefix pattern s then rep +:+ drop_str (String.length pattern) s
  else match s with
       | EmptyString => EmptyString
       | String c r => String c (replaceFirst pattern rep r)
       end.

(** [/<EMBED:.*?>/gs]. *)
Definition embedBlock : matcher := enclosed "<EMBED:" ">" true (λ _, EmptyString).

(** [msg.content.match(/<EMBED:.*?>/gs)]. *)
Definition embedMatches (content : string) : list string :=
  matchAll embedBlock content.

(** The text [generateHTML] formats for a message: the content as it is
    when it holds no embed block, else the content without the blocks,
    trimmed. *)
Definition messageText (content : string) : string :=
  match embedMatches content with
  | [] => content
  | _ :: _ => textContent content
  end.

(** [parseEmbed(embedString)]; [JSONparse] is [JSON.parse], which returns
    the value or throws. *)
Definition parseEmbed {A : Type} (JSONparse : string → result A)
    (embedString : string) : option A :=
  let embedData :=
    replaceFirst ">" EmptyString (replaceFirst "<EMBED:" EmptyString embedString) in
  match JSONparse embedData with
  | Ok embed => Some embed
  | Err _ => None
  end.

(** [str.split(sep)] for a separator of one code unit. *)
Fixpoint split (sep : ascii) (s : string) : list string :=
  match s with
  | EmptyString => [EmptyString]
  | String c r =>
      if decide (c = sep) then EmptyString :: split sep r
      else match split sep r with
           | [] => [String c EmptyString]
           | part :: parts => String c part :: parts
           end
  end.

(** The content of a message in [generateStaffThreadHTML]:
    [msg.content ? escapeHtml(msg.content).replace(/\n/g, '<br>') : '']. *)
Definition staffContent (content : string) : string :=
  if truthy content then replaceAll (line_feed "<br>") (escapeHtml content)
  else EmptyString.

(** The character class of [escapeHtml]. *)
Definition escaped : list ascii := ["&"; "<"; ">"; "034"; "'"]%char.

(** The code units that open or close a tag or an attribute value. *)
Definition isDelimiter (c : ascii) : bool :=
  bool_decide (c ∈ ["<"; ">"; "034"; "'"]%char).

End Rendering.
(** ** Invariants of the ticket lifecycle *)

Module Lifecycle.
Import Js Store Transcript TicketHandler.

(** The identity columns of the store hold no value twice. *)
Definition keyed (d : DB) : Prop :=
  NoDup (t_id <$> tickets d) ∧ NoDup (m_id <$> ticketMessages d).

(** Every registered instance is registered under the identity of its
    channel and stands for a row of the store with that channel. *)
Definition registryConsistent (w : World) : Prop :=
  ∀ ch t, ActiveTickets w !! ch = Some t →
    ch_id (channel t) = ch ∧
    ∃ row, findTicket (db w) (ticketId t) = Some row ∧ t_channelId row = ch.

(** The store holds a row with the identity and the channel of [row]. *)
Definition storedWithChannel (d : DB) (row : TicketRow) : Prop :=
  ∃ r, findTicket d (t_id row) = Some r ∧ t_channelId r = t_channelId row.

Definition consistent (w : World) : Prop :=
  keyed (db w) ∧ registryConsistent w.


Definition isChannelCreate (e : Event) : bool :=
  match e with ChannelCreate _ _ _ _ => true | _ => false end.

(** The calls that provision a ticket on the platform. *)
Definition isProvisioning (e : Event) : bool :=
  match e with
  | ChannelCreate _ _ _ _ | ChannelSend _ _ | ThreadCreate _ _ _ | ThreadSend _ _ => true
  | _ => false
  end.

Definition isSetTimeout (e : Event) : bool :=
  match e with SetTimeout _ _ => true | _ => false end.

End Lifecycle.
(** ** Further concrete data *)

Module Scenarios.
Import Js Store Transcript TicketHandler Examples.

(** A category that requires no token and asks one question. *)
Definition support : CategoryRow :=
  {| c_id := 2; c_name := "Support"; c_description := None; c_emoji := None;
     c_categoryId := "501"; c_requireTbxId := false |}.

Definition orderNumber : FieldRow :=
  {| f_id := 2; f_category := 2; f_label := "Order number";
     f_placeholder := None; f_required := 1; f_short_field := 1;
     f_min_length := None; f_max_length := None |}.

Definition helpdesk : World :=
  {| ActiveTickets := ∅;
     db := {| tickets := []; ticketMessages := [];
              ticketCategories := [billing; support];
              ticketCategoryFields := [describeIssue; orderNumber] |};
     created := []; clock := 100; trace := [] |}.

(** The requester answers the question with a transaction identity. *)
Definition orderAnswered : gmap string string := {[ "2" := token ]}.

(** The verification service recognizes no token. *)
Definition rejecting : CreateOracle :=
  {| cr_getCategoryData := Ok ();
     cr_fetchGuild := Ok (Some ());
     cr_deferReply := Ok ();
     cr_fetchCategoryChannel := Ok (Some []);
     cr_createChannel := Ok {| ch_id := "702"; ch_name := "moderator" |};
     cr_editReply := Ok ();
     cr_insertTicket := Ok ();
     cr_channelSend := Ok ();
     cr_threadCreate := Ok "900";
     cr_saveThread := Ok ();
     cr_threadSend := Ok ();
     cr_showModal := Ok ();
     cr_awaitModalSubmit := Ok submitted;
     cr_modalDeferReply := Ok ();
     cr_verifyPurchase := λ _, Ok PurchaseError;
     cr_refusedFields := λ _, "Received one or more errors" |}.

(** The closure prompt is left unanswered. *)
Definition abandoned : StaticCloseOracle :=
  {| so_showModal := Ok ();
     so_awaitModalSubmit := Err "Collector received no interactions before ending with reason: time";
     so_deferReply := Ok ();
     so_close := closeOk;
     so_deleteReply := Ok ();
     so_findOwner := Ok ();
     so_guild := Some {| g_name := "Shop"; g_iconURL := None |};
     so_fetchMember := Ok ();
     so_sendNotification := Ok () |}.

End Scenarios.

(** ** Participants of a ticket ([addTicketParticipant],
    [removeTicketParticipant]) *)

Module Participants.
Import Js Store Transcript TicketHandler.

(** Row of [TicketMembers]; the pair of [ticket] and [userId] is its
    unique key. *)
Record MemberRow := {
  tm_ticket : nat;
  tm_userId : string;
  tm_addedBy : string;
  tm_addedAt : Z;
  tm_removed : nat;
}.

(** What the two methods work on: the table, the access-control entries
    of the channel of the ticket by the identity they are for, the clock,
    and the calls issued. *)
Record Room := {
  ticketMembers : list MemberRow;
  overwrites : gmap string Overwrite;
  now : Z;
  issued : list Event;
}.

Record AccessOracle := {
  ao_store : result unit;
  ao_platform : result unit;
}.

Definition hasKey (ticket : nat) (userId : string) (m : MemberRow) : bool :=
  (tm_ticket m =? ticket) && String.eqb (tm_userId m) userId.

Definition keyOf (m : MemberRow) : nat * string := (tm_ticket m, tm_userId m).

Definition log (level : LogLevel) (line : string) (r : Room) : Room :=
  {| ticketMembers := ticketMembers r; overwrites := overwrites r;
     now := now r; issued := issued r ++ [Log level line] |}.

Section ColumnDefaults.

(** The default of the column [removed], which the schema (not among the
    sources) sets; [addedAt] defaults to the time of the insertion. *)
Variable removedDefault : nat.

(** [ticketMembers.upsert({ where: { ticket_userId }, update, create })]. *)
Definition upsert (date : Z) (ticket : nat) (userId addedBy : string)
    (table : list MemberRow) : list MemberRow :=
  if existsb (hasKey ticket userId) table then
    (λ m, if hasKey ticket userId m
          then {| tm_ticket := tm_ticket m; tm_userId := tm_userId m;
                  tm_addedBy := addedBy; tm_addedAt := date; tm_removed := 0 |}
          else m) <$> table
  else
    table ++ [ {| tm_ticket := ticket; tm_userId := userId; tm_addedBy := addedBy;
                  tm_addedAt := date; tm_removed := removedDefault |} ].

(** The entry [permissionOverwrites.create(user, { ViewChannel: true })]
    puts in place of any entry the user had. *)
Definition viewer (user : User) : Overwrite :=
  {| ow_id := u_id user; ow_allow := ViewChannel; ow_deny := 0%N; ow_type := 1 |}.

Definition participantNotice (self : Ticket) (addedUser adder : User) : Event :=
  ChannelSend (ch_id (channel self))
    {| o_content := None;
       o_embeds :=
         [ {| e_author := Some (u_username adder);
              e_title := Some "New ticket participant";
              e_description := Some ("<@" +:+ u_id addedUser +:+ "> was added to the ticket");
              e_thumbnail := None; e_color := None; e_fields := [] |} ];
       o_files := []; o_closeButton := false |}.

(** [ticket.addTicketParticipant(addedUser, adder)]; the notice is sent
    without being awaited. *)
Definition addTicketParticipant (o : AccessOracle) (self : Ticket)
    (addedUser adder : User) (r : Room) : Room * bool :=
  let failed e r :=
    (log Error ("Unable to add " +:+ u_id addedUser +:+ " to ticket (" +:+
                pretty (ticketId self) +:+ " - " +:+ ch_id (channel self) +:+
                "): " +:+ e) r, false) in
  match ao_store o with
  | Err e => failed e r
  | Ok _ =>
      let r := {| ticketMembers :=
                    upsert (now r) (ticketId self) (u_id addedUser) (u_id adder)
                      (ticketMembers r);
                  overwrites := overwrites r;
                  now := (now r + 1)%Z; issued := issued r |} in
      match ao_platform o with
      | Err e => failed e r
      | Ok _ =>
          ({| ticketMembers := ticketMembers r;
              overwrites :=
                <[u_id addedUser := viewer addedUser]> (overwrites r);
              now := now r;
              issued := issued r ++ [participantNotice self addedUser adder] |},
           true)
      end
  end.

End ColumnDefaults.

(** The message of the error [update] throws when no row has the key. *)
Definition recordNotFound : string :=
  "An operation failed because it depends on one or more records that were required but not found. Record to update not found.".

(** [ticketMembers.update({ where: { ticket_userId }, data: { removed: 1 } })]
    on a table that holds the key. *)
Definition markRemoved (ticket : nat) (userId : string) (table : list MemberRow)
    : list MemberRow :=
  (λ m, if hasKey ticket userId m
        then {| tm_ticket := tm_ticket m; tm_userId := tm_userId m;
                tm_addedBy := tm_addedBy m; tm_addedAt := tm_addedAt m;
                tm_removed := 1 |}
        else m) <$> table.

(** [ticket.removeTicketParticipant(userId, remover)]; [update] throws
    when the store fails and when no row has the key. *)
Definition removeTicketParticipant (o : AccessOracle) (self : Ticket)
    (userId : string) (remover : User) (r : Room) : Room * bool :=
  let failed e r :=
    (log Error ("Unable to remove " +:+ userId +:+ " from ticket (" +:+
                pretty (ticketId self) +:+ " - " +:+ ch_id (channel self) +:+
                "): " +:+ e) r, false) in
  match ao_store o with
  | Err e => failed e r
  | Ok _ =>
      if existsb (hasKey (ticketId self) userId) (ticketMembers r) then
        let r := {| ticketMembers := markRemoved (ticketId self) userId (ticketMembers r);
                    overwrites := overwrites r;
                    now := now r; issued := issued r |} in
        match ao_platform o with
        | Err e => failed e r
        | Ok _ =>
            ({| ticketMembers := ticketMembers r;
                overwrites := delete userId (overwrites r);
                now := now r; issued := issued r |}, true)
        end
      else failed recordNotFound r
  end.

(** The rows of the table that stand for a participant of a ticket. *)
Definition rowsOf (ticket : nat) (userId : string) (r : Room) : list MemberRow :=
  List.filter (hasKey ticket userId) (ticketMembers r).

End Participants.

(** ** The ticket opener (static_messages/tickets.ts) *)

Module Opener.
Import Js Store Transcript TicketHandler.

Record SelectOption := {
  opt_label : string;
  opt_value : string;
  opt_description : option string;
  opt_default : bool;
}.

(** The entry shown when no category is configured. *)
Definition noCategories : SelectOption :=
  {| opt_label := "No available categories"; opt_value := "-1";
     opt_description := Some "Tell the server owners to configure it.";
     opt_default := true |}.

(** The entries of the menu [setup] posts: one per category, or the
    entry above. *)
Definition categoryOption (category : CategoryRow) : SelectOption :=
  {| opt_label := c_name category;
     opt_value := pretty (c_id category);
     opt_description :=
       match c_description category with
       | Some description => if truthy description then Some description else None
       | None => None
       end;
     opt_default := false |}.

Definition stringOptions (categories : list CategoryRow) : list SelectOption :=
  match categories with
  | [] => [noCategories]
  | _ :: _ => categoryOption <$> categories
  end.

(** [parseInt(string)] without a radix: leading white space is skipped, a
    sign is read, a [0x] or [0X] prefix selects base sixteen, and the
    longest run of digits of the base is the value; without a digit the
    result is NaN, here [None].  Numbers are carried as integers, which
    the numbers of the source are below 2^53. *)
Definition digitValue (c : ascii) : N := N.of_nat (nat_of_ascii c - 48).

Fixpoint decimal (acc : N) (s : string) : N :=
  match s with
  | EmptyString => acc
  | String c r => if isDigit c then decimal (10 * acc + digitValue c) r else acc
  end.

Definition hexValue (c : ascii) : option N :=
  let n := nat_of_ascii c in
  if ((48 <=? n) && (n <=? 57))%nat then Some (N.of_nat (n - 48))
  else if ((97 <=? n) && (n <=? 102))%nat then Some (N.of_nat (n - 87))
  else if ((65 <=? n) && (n <=? 70))%nat then Some (N.of_nat (n - 55))
  else None.

Fixpoint hexadecimal (acc : N) (s : string) : N :=
  match s with
  | EmptyString => acc
  | String c r =>
      match hexValue c with
      | Some d => hexadecimal (16 * acc + d) r
      | None => acc
      end
  end.

Definition parseInt (s : string) : option Z :=
  let s := trimStart s in
  let signed :=
    match s with
    | String c r =>
        if decide (c = "-"%char) then ((-1)%Z, r)
        else if decide (c = "+"%char) then (1%Z, r)
        else (1%Z, s)
    | EmptyString => (1%Z, s)
    end in
  let sign := fst signed in
  let s := snd signed in
  if String.prefix "0x" s || String.prefix "0X" s then
    match drop_str 2 s with
    | String c r =>
        match hexValue c with
        | Some _ => Some (sign * Z.of_N (hexadecimal 0 (String c r)))%Z
        | None => None
        end
    | EmptyString => None
    end
  else
    match s with
    | String c r =>
        if isDigit c then Some (sign * Z.of_N (decimal 0 s))%Z else None
    | EmptyString => None
    end.

Section TokenFormat.

Variable tbxIdRegex : string → bool.

(** [Ticket.createNewTicket] for the number the callback parsed.  The
    identities of the rows are naturals: a negative number is the identity
    of no row, so the lookup finds nothing. *)
Definition createNewTicketAt (envr : Env) (o : CreateOracle) (user : User)
    (category : Z) (w : World) : World * result unit :=
  if (category <? 0)%Z then
    match cr_getCategoryData o with
    | Err e => (w, Err e)
    | Ok _ => (emit (Reply "Invalid Data") w, Ok ())
    end
  else createNewTicket tbxIdRegex envr o user (Z.to_nat category) w.

(** The callback of the menu; [values] is [interaction.values].  The call
    of [createNewTicket] is not awaited: its outcome does not reach the
    caller. *)
Definition callback (envr : Env) (o : CreateOracle) (user : User)
    (isStringSelectMenu : bool) (values : list string) (w : World)
    : World * result unit :=
  if isStringSelectMenu then
    match head values ≫= parseInt with
    | None => (emit (Reply "Invalid selection") w, Ok ())
    | Some category => (fst (createNewTicketAt envr o user category w), Ok ())
    end
  else (w, Ok ()).

End TokenFormat.

End Opener.
(** ** The configuration (utils/config) *)

Module Config.
Import Js Store Transcript TicketHandler Rendering.

(** [a || b] on two variables of the environment. *)
Definition orElse (a b : option string) : option string :=
  if truthyOpt a then a else b.

(** [env.STAFF_ROLE_IDS], from the variables [STAFF_ROLE_IDS] and
    [STAFF_ROLE_ID] of the environment. *)
Definition staffRoleIds (STAFF_ROLE_IDS STAFF_ROLE_ID : option string) : list string :=
  match orElse STAFF_ROLE_IDS STAFF_ROLE_ID with
  | Some setting => if truthy setting then trim <$> split "," setting else []
  | None => []
  end.

(** The number of commas of a setting. *)
Definition commas (setting : string) : nat :=
  length (List.filter (Ascii.eqb ",") (list_ascii_of_string setting)).

End Config.
(** ** Slash commands *)

Module Commands.
Import Js Store Transcript TicketHandler.

(** The calls of a command: those the handler issues too, a reply that
    carries files, and a reply that carries an embed. *)
Inductive Call :=
  | Issued (e : Event)
  | EditReplyFiles (content : string) (files : list Attachment)
  | ReplyEmbed (embed : Embed).

(** *** export-transcript *)

Record ExportOracle := {
  ex_deferReply : result unit;
  ex_editReply : result unit;
  ex_transcriptQuery : result unit;
  ex_editReplyFiles : result unit;
  (** the archive channel: null, or whether it is text based *)
  ex_fetchTranscriptChannel : result (option bool);
  ex_send : result unit;
  ex_editReplyFailure : result unit;
}.

Definition exportAttachment (ticket : Ticket) (doc : Document) : Attachment :=
  {| a_name := "ticket-" +:+ pretty (ticketId ticket) +:+ "-transcript.html";
     a_description := "Transcript for ticket #" +:+ pretty (ticketId ticket);
     a_body := TicketTranscript doc |}.

Definition exportCopy (ticket : Ticket) (doc : Document) : Outgoing :=
  {| o_content := Some ("📋 Transcript for Ticket #" +:+ pretty (ticketId ticket) +:+
                        " - **" +:+ ch_name (channel ticket) +:+ "**");
     o_embeds := [];
     o_files := [exportAttachment ticket doc];
     o_closeButton := false |}.

(** The inner [try]: the copy for the archive channel. *)
Definition exportToArchive (o : ExportOracle) (ticket : Ticket) (doc : Document)
    (transcriptChannel : string) : list Call :=
  let failed e :=
    [Issued (Log Warn ("Failed to send transcript to channel: " +:+ e))] in
  match ex_fetchTranscriptChannel o with
  | Err e => failed e
  | Ok None | Ok (Some false) => []
  | Ok (Some true) =>
      Issued (ChannelSend transcriptChannel (exportCopy ticket doc)) ::
      match ex_send o with
      | Err e => failed e
      | Ok _ =>
          [Issued (Log Info ("Transcript also sent to transcript channel for ticket " +:+
                             pretty (ticketId ticket)))]
      end
  end.

(** The callback of the command, for the channel it is used in: the calls
    it issues, in order, and its outcome; the lines [generateTicketTranscript]
    logs are among them.  It writes neither to the store nor to the
    registry. *)
Definition exportTranscript (envr : Env) (o : ExportOracle) (channelId : string)
    (w : World) : list Call * result unit :=
  match ex_deferReply o with
  | Err e => ([Issued DeferReply], Err e)
  | Ok _ =>
      match getTicket channelId w with
      | None =>
          ([Issued DeferReply;
            Issued (EditReply "This command can only be used in an active ticket channel.")],
           ex_editReply o)
      | Some ticket =>
          let started :=
            [Issued DeferReply;
             Issued (Log Info ("Generating transcript for ticket " +:+
                               pretty (ticketId ticket)))] in
          let failed calls e :=
            (calls ++
             [Issued (Log Error ("Failed to export transcript: " +:+ e));
              Issued (EditReply ("❌ Failed to generate transcript: " +:+ e))],
             ex_editReplyFailure o) in
          match generateTicketTranscript (ex_transcriptQuery o) (db w) (ticketId ticket) with
          | Err e =>
              failed (started ++
                      [Issued (Log Error ("Failed to generate transcript for ticket " +:+
                                          pretty (ticketId ticket) +:+ ": " +:+ e))]) e
          | Ok doc =>
              let replied :=
                started ++
                [Issued (Log Success ("Generated transcript for ticket " +:+
                                      pretty (ticketId ticket)));
                 EditReplyFiles
                   "✅ Transcript generated successfully! Download the HTML file and open it in your browser to view."
                   [exportAttachment ticket doc]] in
              match ex_editReplyFiles o with
              | Err e => failed replied e
              | Ok _ =>
                  (replied ++
                   match TRANSCRIPT_CHANNEL_ID envr with
                   | Some transcriptChannel =>
                       if truthy transcriptChannel
                       then exportToArchive o ticket doc transcriptChannel
                       else []
                   | None => []
                   end ++
                   [Issued (Log Success ("Transcript exported for ticket " +:+
                                         pretty (ticketId ticket)))],
                   Ok ())
              end
          end
      end
  end.

(** The files a call hands out. *)
Definition filesOf (c : Call) : list Attachment :=
  match c with
  | EditReplyFiles _ files => files
  | Issued (ChannelSend _ message) | Issued (DirectMessage _ message) => o_files message
  | _ => []
  end.

(** The archive channel is configured and resolves to a text channel. *)
Definition copyResolved (envr : Env) (o : ExportOracle) : bool :=
  truthyOpt (TRANSCRIPT_CHANNEL_ID envr) &&
  match ex_fetchTranscriptChannel o with Ok (Some true) => true | _ => false end.

Definition isArchiveCopy (c : Call) : bool :=
  match c with
  | Issued (ChannelSend _ _) => true
  | _ => false
  end.

(** *** ticket-category *)

(** The store, the calls issued and the outcome of a run. *)
Record Ran := {
  store : DB;
  calls : list Call;
  outcome : result unit;
}.

Record StoreOracle := {
  sto_find : result unit;
  sto_write : result unit;
  (** the one reply of the [try] block that the run reaches *)
  sto_reply : result unit;
  (** the reply of the [catch] block *)
  sto_replyFailure : result unit;
  (** the message of the error the embed builder throws *)
  sto_refusedFields : list APIEmbedField → string;
}.

(** [ticketCategories.findUnique({ where: { name } })]. *)
Definition findByName (d : DB) (name : string) : option CategoryRow :=
  List.find (λ c, String.eqb (c_name c) name) (ticketCategories d).

(** [_count.tickets]. *)
Definition ticketsOf (d : DB) (category : CategoryRow) : nat :=
  length (List.filter (λ t, t_category t =? c_id category) (tickets d)).

Definition insertCategory (category : CategoryRow) (d : DB) : DB :=
  {| tickets := tickets d; ticketMessages := ticketMessages d;
     ticketCategories := ticketCategories d ++ [category];
     ticketCategoryFields := ticketCategoryFields d |}.

(** [ticketCategories.delete({ where: { name } })] when it returns: the
    row is gone, and no field refers to it any more (the fields follow
    the referential action of the schema, which is not among the sources:
    they go with the row, or the call throws while there are any). *)
Definition deleteCategory (name : string) (d : DB) : DB :=
  {| tickets := tickets d; ticketMessages := ticketMessages d;
     ticketCategories :=
       List.filter (λ c, negb (String.eqb (c_name c) name)) (ticketCategories d);
     ticketCategoryFields :=
       List.filter
         (λ f, negb (existsb (λ c, String.eqb (c_name c) name && (c_id c =? f_category f))
                       (ticketCategories d)))
         (ticketCategoryFields d) |}.

(** [ticketCategories.update({ where: { name }, data })]. *)
Definition updateCategory (name : string) (f : CategoryRow → CategoryRow) (d : DB) : DB :=
  {| tickets := tickets d; ticketMessages := ticketMessages d;
     ticketCategories :=
       (λ c, if String.eqb (c_name c) name then f c else c) <$> ticketCategories d;
     ticketCategoryFields := ticketCategoryFields d |}.

Definition yesNo (b : bool) : string := if b then "Yes" else "No".

(** The embed of the reply of [add]: three fields in one call, then the
    description, when there is one, in a call of its own. *)
Definition categoryCreated (o : StoreOracle) (category : CategoryRow) : result Embed :=
  match addFields (sto_refusedFields o)
          [ {| name := "ID"; value := pretty (c_id category); inline := true |};
            {| name := "Discord Category";
               value := "<#" +:+ c_categoryId category +:+ ">"; inline := true |};
            {| name := "Requires Transaction";
               value := yesNo (c_requireTbxId category); inline := true |} ] [] with
  | Err e => Err e
  | Ok fields =>
      match
        match c_description category with
        | Some description =>
            if truthy description
            then addFields (sto_refusedFields o)
                   [ {| name := "Description"; value := description; inline := false |} ]
                   fields
            else Ok fields
        | None => Ok fields
        end
      with
      | Err e => Err e
      | Ok fields =>
          Ok {| e_author := None;
                e_title := Some "✅ Ticket Category Created";
                e_description :=
                  Some ("Successfully created ticket category **" +:+
                        c_name category +:+ "**");
                e_thumbnail := None;
                e_color := Some 5763719%N;
                e_fields := fields |}
      end
  end.

(** The [catch] block of a subcommand. *)
Definition failedRun (o : StoreOracle) (what : string) (d : DB)
    (issued : list Call) (e : string) : Ran :=
  {| store := d;
     calls := issued ++
              [Issued (Log Error ("Failed to " +:+ what +:+ " ticket category: " +:+ e));
               Issued (Reply ("❌ Failed to " +:+ what +:+ " ticket category: " +:+ e))];
     outcome := sto_replyFailure o |}.

(** A reply of the [try] block followed by [return]. *)
Definition answered (o : StoreOracle) (what : string) (d : DB) (content : string) : Ran :=
  match sto_reply o with
  | Err e => failedRun o what d [Issued (Reply content)] e
  | Ok _ => {| store := d; calls := [Issued (Reply content)]; outcome := Ok () |}
  end.

Definition notFound (name : string) : string :=
  "❌ No ticket category found with the name `" +:+ name +:+ "`.".

(** The subcommand [add]; [requireTransaction] is the option as given,
    or [None]. *)
Definition categoryAdd (o : StoreOracle) (name discordCategory : string)
    (requireTransaction : option bool) (description emoji : option string)
    (d : DB) : Ran :=
  match sto_find o with
  | Err e => failedRun o "create" d [] e
  | Ok _ =>
      match findByName d name with
      | Some _ =>
          answered o "create" d
            ("❌ A ticket category with the name `" +:+ name +:+ "` already exists.")
      | None =>
          match sto_write o with
          | Err e => failedRun o "create" d [] e
          | Ok _ =>
              let category :=
                {| c_id := next_id (c_id <$> ticketCategories d);
                   c_name := name; c_description := description; c_emoji := emoji;
                   c_categoryId := discordCategory;
                   c_requireTbxId := default true requireTransaction |} in
              let d := insertCategory category d in
              match categoryCreated o category with
              | Err e => failedRun o "create" d [] e
              | Ok embed =>
                  match sto_reply o with
                  | Err e => failedRun o "create" d [ReplyEmbed embed] e
                  | Ok _ =>
                      {| store := d;
                         calls := [ReplyEmbed embed;
                                   Issued (Log Success
                                             ("Created ticket category: " +:+ name +:+
                                              " (ID: " +:+ pretty (c_id category) +:+ ")"))];
                         outcome := Ok () |}
                  end
              end
          end
      end
  end.

(** The subcommand [delete]. *)
Definition categoryDelete (o : StoreOracle) (name : string) (d : DB) : Ran :=
  match sto_find o with
  | Err e => failedRun o "delete" d [] e
  | Ok _ =>
      match findByName d name with
      | None => answered o "delete" d (notFound name)
      | Some category =>
          if 0 <? ticketsOf d category then
            answered o "delete" d
              ("❌ Cannot delete category `" +:+ name +:+ "` because it has " +:+
               pretty (ticketsOf d category) +:+ " ticket(s) associated with it.")
          else
            match sto_write o with
            | Err e => failedRun o "delete" d [] e
            | Ok _ =>
                let d := deleteCategory name d in
                let content :=
                  "✅ Successfully deleted ticket category `" +:+ name +:+ "`." in
                match sto_reply o with
                | Err e => failedRun o "delete" d [Issued (Reply content)] e
                | Ok _ =>
                    {| store := d;
                       calls := [Issued (Reply content);
                                 Issued (Log Success ("Deleted ticket category: " +:+ name))];
                       outcome := Ok () |}
                end
            end
      end
  end.

(** [updateData], as the options given fill it. *)
Record UpdateData := {
  up_categoryId : option string;
  up_requireTbxId : option bool;
  up_description : option string;
  up_emoji : option string;
}.

Definition noUpdate (data : UpdateData) : bool :=
  match up_categoryId data, up_requireTbxId data, up_description data, up_emoji data with
  | None, None, None, None => true
  | _, _, _, _ => false
  end.

Definition applyUpdate (data : UpdateData) (c : CategoryRow) : CategoryRow :=
  {| c_id := c_id c; c_name := c_name c;
     c_description := match up_description data with
                      | Some description => Some description
                      | None => c_description c
                      end;
     c_emoji := match up_emoji data with Some emoji => Some emoji | None => c_emoji c end;
     c_categoryId := default (c_categoryId c) (up_categoryId data);
     c_requireTbxId := default (c_requireTbxId c) (up_requireTbxId data) |}.

(** The embed of the reply of [update]: one field per key of
    [updateData], all in one call. *)
Definition categoryUpdated (o : StoreOracle) (name : string) (data : UpdateData)
    : result Embed :=
  match addFields (sto_refusedFields o)
          (match up_categoryId data with
           | Some id => [ {| name := "categoryId"; value := id; inline := true |} ]
           | None => []
           end ++
           match up_requireTbxId data with
           | Some b => [ {| name := "requireTbxId"; value := if b then "1" else "0";
                            inline := true |} ]
           | None => []
           end ++
           match up_description data with
           | Some description =>
               [ {| name := "description"; value := description; inline := true |} ]
           | None => []
           end ++
           match up_emoji data with
           | Some emoji => [ {| name := "emoji"; value := emoji; inline := true |} ]
           | None => []
           end) [] with
  | Err e => Err e
  | Ok fields =>
      Ok {| e_author := None;
            e_title := Some "✅ Ticket Category Updated";
            e_description :=
              Some ("Successfully updated ticket category **" +:+ name +:+ "**");
            e_thumbnail := None;
            e_color := Some 5763719%N;
            e_fields := fields |}
  end.

(** The subcommand [update]. *)
Definition categoryUpdate (o : StoreOracle) (name : string) (data : UpdateData)
    (d : DB) : Ran :=
  match sto_find o with
  | Err e => failedRun o "update" d [] e
  | Ok _ =>
      match findByName d name with
      | None => answered o "update" d (notFound name)
      | Some _ =>
          if noUpdate data then
            answered o "update" d
              "❌ No updates provided. Please specify at least one field to update."
          else
            match sto_write o with
            | Err e => failedRun o "update" d [] e
            | Ok _ =>
                let d := updateCategory name (applyUpdate data) d in
                match categoryUpdated o name data with
                | Err e => failedRun o "update" d [] e
                | Ok embed =>
                    match sto_reply o with
                    | Err e => failedRun o "update" d [ReplyEmbed embed] e
                    | Ok _ =>
                        {| store := d;
                           calls := [ReplyEmbed embed;
                                     Issued (Log Success
                                               ("Updated ticket category: " +:+ name))];
                           outcome := Ok () |}
                    end
                end
            end
      end
  end.

(** *** ticket-field: the subcommand [remove] *)

(** [ticketCategoryFields.findFirst({ where: { id, category } })]; the
    identity is the integer option of the command. *)
Definition findField (d : DB) (fieldId : Z) (category : nat) : option FieldRow :=
  List.find (λ f, (Z.of_nat (f_id f) =? fieldId)%Z && (f_category f =? category))
    (ticketCategoryFields d).

(** [ticketCategoryFields.delete({ where: { id } })]. *)
Definition deleteField (fieldId : Z) (d : DB) : DB :=
  {| tickets := tickets d; ticketMessages := ticketMessages d;
     ticketCategories := ticketCategories d;
     ticketCategoryFields :=
       List.filter (λ f, negb (Z.of_nat (f_id f) =? fieldId)%Z) (ticketCategoryFields d) |}.

Definition fieldFailed (o : StoreOracle) (d : DB) (issued : list Call) (e : string) : Ran :=
  {| store := d;
     calls := issued ++
              [Issued (Log Error ("Failed to remove field: " +:+ e));
               Issued (Reply ("❌ Failed to remove field: " +:+ e))];
     outcome := sto_replyFailure o |}.

Definition fieldAnswered (o : StoreOracle) (d : DB) (content : string) : Ran :=
  match sto_reply o with
  | Err e => fieldFailed o d [Issued (Reply content)] e
  | Ok _ => {| store := d; calls := [Issued (Reply content)]; outcome := Ok () |}
  end.

Definition fieldRemove (o : StoreOracle) (categoryName : string) (fieldId : Z)
    (d : DB) : Ran :=
  match sto_find o with
  | Err e => fieldFailed o d [] e
  | Ok _ =>
      match findByName d categoryName with
      | None => fieldAnswered o d (notFound categoryName)
      | Some category =>
          match findField d fieldId (c_id category) with
          | None =>
              fieldAnswered o d
                ("❌ No field found with ID `" +:+ pretty fieldId +:+
                 "` in category `" +:+ categoryName +:+ "`.")
          | Some field =>
              match sto_write o with
              | Err e => fieldFailed o d [] e
              | Ok _ =>
                  let d := deleteField fieldId d in
                  let content :=
                    "✅ Successfully removed field `" +:+ f_label field +:+ "` (ID: " +:+
                    pretty fieldId +:+ ") from category `" +:+ categoryName +:+ "`." in
                  match sto_reply o with
                  | Err e => fieldFailed o d [Issued (Reply content)] e
                  | Ok _ =>
                      {| store := d;
                         calls := [Issued (Reply content);
                                   Issued (Log Success
                                             ("Removed field " +:+ pretty fieldId +:+
                                              " from category " +:+ categoryName))];
                         outcome := Ok () |}
                  end
              end
          end
      end
  end.

(** The categories of a store are keyed by identity and by name. *)
Definition categoriesKeyed (d : DB) : Prop :=
  NoDup (c_id <$> ticketCategories d) ∧ NoDup (c_name <$> ticketCategories d).

(** Every ticket of the store has its category. *)
Definition ticketsCategorized (d : DB) : Prop :=
  ∀ t, t ∈ tickets d → ∃ category, findCategory d (t_category t) = Some category.

End Commands.
(** Concrete data for the participants. *)
Module Guests.
Import Js Store Transcript TicketHandler Participants Examples.

Definition carol : User :=
  {| u_id := "1003"; u_username := "carol"; u_displayName := "Carol";
     u_avatarURL := None |}.

(** The channel of a ticket nobody was added to yet. *)
Definition room0 : Room :=
  {| ticketMembers := []; overwrites := ∅; now := 200; issued := [] |}.

Definition answering : AccessOracle :=
  {| ao_store := Ok (); ao_platform := Ok () |}.

Definition platformRefuses : AccessOracle :=
  {| ao_store := Ok (); ao_platform := Err "Missing Permissions" |}.

(** Every collaborator of the export command answers. *)
Definition exporting : Commands.ExportOracle :=
  {| Commands.ex_deferReply := Ok ();
     Commands.ex_editReply := Ok ();
     Commands.ex_transcriptQuery := Ok ();
     Commands.ex_editReplyFiles := Ok ();
     Commands.ex_fetchTranscriptChannel := Ok (Some true);
     Commands.ex_send := Ok ();
     Commands.ex_editReplyFailure := Ok () |}.

(** The store and the platform answer the category commands. *)
Definition storing : Commands.StoreOracle :=
  {| Commands.sto_find := Ok (); Commands.sto_write := Ok ();
     Commands.sto_reply := Ok (); Commands.sto_replyFailure := Ok ();
     Commands.sto_refusedFields := λ _, "Received one or more errors" |}.

End Guests.

(** * Properties *)

(** ** Facts on the string helpers *)

Module JsFacts.
Import Js.

Lemma replace_from_silent p m s :
  silent_on p m → all_chars p s = true →
  ∀ prev, replace_from m prev 0 s = s.
Proof.
  intros Hm. induction s as [|c r IH]; intros Hs prev; [done|].
  cbn in Hs. apply andb_prop in Hs as [Hc Hr].
  cbn. rewrite (Hm prev c r Hc). f_equal. by apply IH.
Qed.

Lemma replaceAll_silent p m s :
  silent_on p m → all_chars p s = true → replaceAll m s = s.
Proof. intros. unfold replaceAll. by eapply replace_from_silent. Qed.

Lemma prefix_head_ne c0 l c r :
  c0 ≠ c → String.prefix (String c0 l) (String c r) = false.
Proof. intros Hne. cbn. destruct (Ascii.ascii_dec c0 c); congruence. Qed.

Lemma enclosed_silent p c0 l r dotall rep :
  p c0 = false → silent_on p (enclosed (String c0 l) r dotall rep).
Proof.
  intros Hp prev c s Hc. unfold enclosed.
  rewrite prefix_head_ne; [done | congruence].
Qed.

Lemma delimited_silent p c0 l dotall open close :
  p c0 = false → silent_on p (delimited (String c0 l) dotall open close).
Proof. apply enclosed_silent. Qed.

Lemma line_prefixed_silent p c0 l open close :
  p c0 = false → silent_on p (line_prefixed (String c0 l) open close).
Proof.
  intros Hp prev c s Hc. unfold line_prefixed.
  rewrite prefix_head_ne; [by rewrite andb_false_r | congruence].
Qed.

Lemma digits_between_silent p c0 l post rep :
  p c0 = false → silent_on p (digits_between (String c0 l) post rep).
Proof.
  intros Hp prev c s Hc. unfold digits_between.
  rewrite prefix_head_ne; [done | congruence].
Qed.

Lemma line_feed_silent p rep :
  p "010"%char = false → silent_on p (line_feed rep).
Proof.
  intros Hp prev c s Hc. unfold line_feed.
  destruct (decide (c = "010"%char)); [congruence | done].
Qed.

(** [includes] finds a needle wherever it sits. *)
Lemma append_cons c s t : String c s +:+ t = String c (s +:+ t).
Proof. reflexivity. Qed.

Lemma append_nil s : EmptyString +:+ s = s.
Proof. reflexivity. Qed.

Lemma prefix_app s t : String.prefix s (s +:+ t) = true.
Proof.
  induction s as [|c s IH]; [by destruct t|].
  rewrite append_cons. cbn.
  destruct (Ascii.ascii_dec c c); [exact IH | congruence].
Qed.

Lemma includes_app needle before after :
  includes needle (before +:+ needle +:+ after) = true.
Proof.
  induction before as [|c b IH].
  - rewrite append_nil.
    destruct (needle +:+ after) eqn:E.
    + destruct needle; [done | discriminate].
    + cbn -[String.prefix]. by rewrite <- E, prefix_app.
  - rewrite append_cons. cbn -[String.prefix]. rewrite IH.
    by destruct (String.prefix _ _).
Qed.

Lemma includes_skip needle pre hay :
  includes needle hay = true → includes needle (pre +:+ hay) = true.
Proof.
  intros H. induction pre as [|c pre IH]; [done|].
  rewrite append_cons. cbn -[String.prefix]. rewrite IH.
  by destruct (String.prefix _ _).
Qed.

Lemma includes_here needle after : includes needle (needle +:+ after) = true.
Proof. apply (includes_app needle EmptyString after). Qed.

End JsFacts.

(** ** Properties of the transcript renderer *)

Module TranscriptFacts.
Import Js Store Transcript JsFacts.

Lemma escapeHtml_plain s :
  all_chars plainChar s = true → escapeHtml s = s.
Proof.
  induction s as [|c r IH]; intros Hs; [done|].
  cbn in Hs. apply andb_prop in Hs as [Hc Hr].
  cbn. rewrite (IH Hr). unfold escapeChar.
  repeat (case_decide; [subst; discriminate|]). done.
Qed.

Lemma formatDiscordMarkdown_plain s :
  all_chars plainChar s = true → formatDiscordMarkdown s = s.
Proof.
  intros Hs. unfold formatDiscordMarkdown.
  rewrite (escapeHtml_plain s Hs).
  repeat (rewrite (replaceAll_silent plainChar _ s);
          [ | first [ by apply delimited_silent
                    | by apply line_prefixed_silent
                    | by apply digits_between_silent
                    | by apply line_feed_silent ]
            | exact Hs ]).
  done.
Qed.

(** C3, as the code has it: on text with none of the code units
    & < > double quote ' * _ ~ ` and no line feed the restricted-markdown
    transform is the identity, so a second application yields the same
    markup and the same visible text as the first. *)
Theorem formatDiscordMarkdown_idempotent_on_plain_text (s : string) :
  all_chars plainChar s = true →
  formatDiscordMarkdown s = s ∧
  formatDiscordMarkdown (formatDiscordMarkdown s) = formatDiscordMarkdown s ∧
  visibleText (formatDiscordMarkdown (formatDiscordMarkdown s))
  = visibleText (formatDiscordMarkdown s).
Proof.
  intros Hs. pose proof (formatDiscordMarkdown_plain s Hs) as E.
  by rewrite !E.
Qed.

Lemma formatDiscordMarkdown_idempotent_on_plain_text_witness :
  all_chars plainChar "ticket 42: refund, please" = true ∧
  formatDiscordMarkdown (formatDiscordMarkdown "ticket 42: refund, please")
  = formatDiscordMarkdown "ticket 42: refund, please".
Proof.
  split; [reflexivity|].
  apply (formatDiscordMarkdown_idempotent_on_plain_text
           "ticket 42: refund, please").
  reflexivity.
Defined.

(** C3 as stated fails: the output for an ampersand is escaped again by a
    second application, and the reader then sees the character reference
    instead of the ampersand. *)
Lemma formatDiscordMarkdown_escapes_again :
  formatDiscordMarkdown "&" = "&amp;" ∧
  formatDiscordMarkdown (formatDiscordMarkdown "&") = "&amp;amp;" ∧
  visibleText (formatDiscordMarkdown "&") = "&" ∧
  visibleText (formatDiscordMarkdown (formatDiscordMarkdown "&")) = "&amp;" ∧
  visibleText (formatDiscordMarkdown (formatDiscordMarkdown "&"))
  ≠ visibleText (formatDiscordMarkdown "&").
Proof. repeat split; try reflexivity. vm_compute. discriminate. Qed.

(** The tags a first application substitutes are escaped by a second one
    and become visible text. *)
Example formatDiscordMarkdown_twice_bold :
  formatDiscordMarkdown "**a**" = "<strong>a</strong>" ∧
  formatDiscordMarkdown (formatDiscordMarkdown "**a**")
  = "&lt;strong&gt;a&lt;/strong&gt;" ∧
  visibleText (formatDiscordMarkdown "**a**") = "a" ∧
  visibleText (formatDiscordMarkdown (formatDiscordMarkdown "**a**"))
  = "<strong>a</strong>".
Proof. repeat split; reflexivity. Qed.

(** *** The filter of [generateTicketTranscript] *)

Lemma filter_index_app {A} (f : nat → A → bool) i (l1 l2 : list A) :
  filter_index f i (l1 ++ l2)
  = filter_index f i l1 ++ filter_index f (i + length l1) l2.
Proof.
  revert i. induction l1 as [|x l1 IH]; intros i; cbn.
  - by rewrite Nat.add_0_r.
  - rewrite !IH, Nat.add_succ_r. by destruct (f i x).
Qed.

Lemma filter_index_all {A} (f : nat → A → bool) i (l : list A) :
  (∀ j x, i ≤ j < i + length l → f j x = true) → filter_index f i l = l.
Proof.
  revert i. induction l as [|x l IH]; intros i Hf; cbn; [done|].
  rewrite Hf by (cbn; lia). f_equal. apply IH.
  intros j y Hj. apply Hf. cbn. lia.
Qed.

Lemma filter_index_sublist {A} (f : nat → A → bool) i (l : list A) :
  filter_index f i l `sublist_of` l.
Proof.
  revert i. induction l as [|x l IH]; intros i; cbn; [constructor|].
  destruct (f i x); by constructor.
Qed.

Lemma filterMessages_single msg : filterMessages [msg] = unlessMarked msg.
Proof.
  unfold filterMessages, unlessMarked, keepMessage. cbn.
  by destruct (hasEmbedMarker msg).
Qed.

Lemma keepMessage_unmarked len index msg :
  hasEmbedMarker msg = false → keepMessage len index msg = true.
Proof. intros H. unfold keepMessage. by rewrite H, !andb_false_r. Qed.

Lemma keepMessage_first len msg :
  keepMessage len 0 msg = negb (hasEmbedMarker msg).
Proof.
  unfold keepMessage. destruct (hasEmbedMarker msg); [done|].
  by rewrite !andb_false_r.
Qed.

Lemma keepMessage_last len msg :
  keepMessage (S len) len msg = negb (hasEmbedMarker msg).
Proof.
  unfold keepMessage. destruct (hasEmbedMarker msg).
  - replace (S len - 1) with len by lia. rewrite Nat.eqb_refl.
    by destruct (len =? 0).
  - by rewrite !andb_false_r.
Qed.

Lemma keepMessage_inner len index msg :
  0 < index → index < len - 1 → keepMessage len index msg = true.
Proof.
  intros H0 H1. unfold keepMessage.
  replace (index =? 0) with false by (symmetry; apply Nat.eqb_neq; lia).
  replace (index =? len - 1) with false by (symmetry; apply Nat.eqb_neq; lia).
  done.
Qed.

Lemma filterMessages_ends first mid last :
  filterMessages (first :: mid ++ [last])
  = unlessMarked first ++ mid ++ unlessMarked last.
Proof.
  unfold filterMessages.
  change (first :: mid ++ [last]) with ([first] ++ mid ++ [last]).
  rewrite !length_app. cbn [length].
  replace (1 + (length mid + 1)) with (S (S (length mid))) by lia.
  rewrite !filter_index_app. cbn [length Nat.add].
  f_equal; [|f_equal].
  - cbn [filter_index]. rewrite keepMessage_first. unfold unlessMarked.
    by destruct (hasEmbedMarker first).
  - apply filter_index_all. intros j x Hj.
    apply keepMessage_inner; lia.
  - cbn [filter_index]. rewrite keepMessage_last. unfold unlessMarked.
    by destruct (hasEmbedMarker last).
Qed.

#[local] Instance sentBefore_trans : Transitive sentBefore.
Proof. intros a b c. unfold sentBefore. lia. Qed.

#[local] Instance sentBefore_total : Total sentBefore.
Proof. intros a b. unfold sentBefore. lia. Qed.

Lemma StronglySorted_sublist {A} (R : relation A) (l k : list A) :
  l `sublist_of` k → StronglySorted R k → StronglySorted R l.
Proof.
  induction 1 as [|x l k Hs IH|x l k Hs IH]; intros Hk; [done| |].
  - apply StronglySorted_inv in Hk as [Hk Hx]. constructor; [by apply IH|].
    eapply Forall_forall. intros y Hy.
    eapply Forall_forall in Hx; [exact Hx|]. by eapply elem_of_sublist.
  - apply StronglySorted_inv in Hk as [Hk _]. by apply IH.
Qed.

Lemma messagesBySentAt_sorted db id :
  StronglySorted sentBefore (messagesBySentAt db id).
Proof. apply StronglySorted_merge_sort; apply _. Qed.

Lemma richContentOnly_marked msg :
  richContentOnly msg = true → hasEmbedMarker msg = true.
Proof.
  unfold richContentOnly. destruct (m_content msg); [|done].
  by intros [H _]%andb_prop.
Qed.

(** C2, as the code has it: the transcript is rendered from the log in
    ascending [sentAt] order; the leading message is dropped if and only
    if its content contains the in-band embed marker, whether or not text
    stands beside it, likewise the trailing message; every other message
    is kept, in the order of the log.  A message that is rich content
    only carries the marker, so at an end it is dropped. *)
Theorem transcript_drops_marked_ends queryOk db id doc :
  generateTicketTranscript queryOk db id = Ok doc →
  let log := messagesBySentAt db id in
  log ≡ₚ messagesOf db id ∧
  StronglySorted sentBefore log ∧
  doc_messages doc = filterMessages log ∧
  (log = [] → doc_messages doc = []) ∧
  (∀ only, log = [only] → doc_messages doc = unlessMarked only) ∧
  (∀ first mid last, log = first :: mid ++ [last] →
     doc_messages doc = unlessMarked first ++ mid ++ unlessMarked last) ∧
  (∀ msg, richContentOnly msg = true → unlessMarked msg = []) ∧
  doc_messages doc `sublist_of` log ∧
  StronglySorted sentBefore (doc_messages doc).
Proof.
  intros Hgen log.
  assert (Hdoc : doc_messages doc = filterMessages log).
  { unfold generateTicketTranscript in Hgen.
    destruct queryOk; [|done].
    destruct (findTicketWithCategory db id) as [[ticket category]|]; [|done].
    by injection Hgen as <-. }
  assert (Hsub : doc_messages doc `sublist_of` log).
  { rewrite Hdoc. apply filter_index_sublist. }
  pose proof (messagesBySentAt_sorted db id) as Hsorted.
  repeat split.
  - apply merge_sort_Permutation.
  - exact Hsorted.
  - exact Hdoc.
  - intros E. by rewrite Hdoc, E.
  - intros only E. rewrite Hdoc, E. apply filterMessages_single.
  - intros first mid last E. rewrite Hdoc, E. apply filterMessages_ends.
  - intros msg Hm. unfold unlessMarked. by rewrite (richContentOnly_marked msg Hm).
  - exact Hsub.
  - by eapply StronglySorted_sublist.
Qed.

Lemma transcript_drops_marked_ends_witness :
  ∃ doc,
    generateTicketTranscript (Ok ()) Examples.db0 1 = Ok doc ∧
    doc_messages doc = filterMessages (messagesBySentAt Examples.db0 1).
Proof.
  eexists. split; [reflexivity|].
  eapply (transcript_drops_marked_ends (Ok ()) Examples.db0 1). reflexivity.
Defined.

(** C2 as stated fails: a leading message that carries text beside its
    embed is not rich content only, and is dropped from the transcript
    all the same. *)
Lemma transcript_drops_leading_text_with_embed :
  messagesBySentAt Examples.db0 1 = [Examples.receiptRow; Examples.helloRow] ∧
  textContent (TicketHandler.storedContent Examples.receiptPosted) = "my receipt" ∧
  richContentOnly Examples.receiptRow = false ∧
  doc_messages <$>
    (match generateTicketTranscript (Ok ()) Examples.db0 1 with
     | Ok doc => Some doc
     | Err _ => None
     end) = Some [Examples.helloRow].
Proof. repeat split; vm_compute; reflexivity. Qed.

End TranscriptFacts.


(** ** Properties of the ticket handler *)

Module HandlerFacts.
Import Js Store Transcript TicketHandler JsFacts.

Lemma emitAll_nil w : emitAll [] w = w.
Proof. destruct w. unfold emitAll. cbn. by rewrite app_nil_r. Qed.

Lemma emit_emitAll e w : emit e w = emitAll [e] w.
Proof. reflexivity. Qed.

Lemma emitAll_emitAll evs1 evs2 w :
  emitAll evs2 (emitAll evs1 w) = emitAll (evs1 ++ evs2) w.
Proof. unfold emitAll. cbn. by rewrite app_assoc. Qed.

Lemma since_emitAll evs w : since w (emitAll evs w) = evs.
Proof. unfold since. cbn. by rewrite drop_app_length. Qed.

#[local] Instance onlyEmits_preorder : PreOrder onlyEmits.
Proof.
  split.
  - intros w. exists []. by rewrite emitAll_nil.
  - intros w1 w2 w3 [e1 ->] [e2 ->]. eexists. apply emitAll_emitAll.
Qed.

Lemma onlyEmits_emit e w w' : onlyEmits w w' → onlyEmits w (emit e w').
Proof. intros H. etrans; [exact H|]. by exists [e]. Qed.

Lemma onlyEmits_registry w w' : onlyEmits w w' → ActiveTickets w' = ActiveTickets w.
Proof. by intros [evs ->]. Qed.

Lemma onlyEmits_db w w' : onlyEmits w w' → db w' = db w.
Proof. by intros [evs ->]. Qed.

Lemma onlyEmits_created w w' : onlyEmits w w' → created w' = created w.
Proof. by intros [evs ->]. Qed.

Lemma onlyEmits_trace w w' : onlyEmits w w' → trace w `prefix_of` trace w'.
Proof. intros [evs ->]. by exists evs. Qed.

Lemma onlyEmits_elem_of w w' e : onlyEmits w w' → e ∈ trace w → e ∈ trace w'.
Proof. intros [evs ->] H. cbn. apply elem_of_app. by left. Qed.

(** Closes a goal [onlyEmits w w'] where [w'] is [w] under nested [emit]s
    chosen by case distinctions. *)
Ltac only_emits :=
  repeat case_match;
  repeat (apply onlyEmits_emit);
  try reflexivity.

Lemma staffThreadFanout_onlyEmits o self info tc w :
  onlyEmits w (staffThreadFanout o self info tc w).
Proof. unfold staffThreadFanout. only_emits. Qed.

Lemma archiveFanout_onlyEmits o self user reason info tc doc w :
  onlyEmits w (archiveFanout o self user reason info tc doc w).
Proof.
  unfold archiveFanout. repeat case_match; try (only_emits; fail).
  etrans; [|apply staffThreadFanout_onlyEmits]. only_emits.
Qed.

Lemma ownerFanout_onlyEmits o self user reason info doc w :
  onlyEmits w (ownerFanout o self user reason info doc w).
Proof. unfold ownerFanout. only_emits. Qed.

Lemma renderTranscript_onlyEmits o self info w :
  onlyEmits w (fst (renderTranscript o self info w)).
Proof. unfold renderTranscript. repeat case_match; cbn; only_emits. Qed.

Lemma afterDurable_onlyEmits envr o self user reason info w :
  onlyEmits w (afterDurable envr o self user reason info w).
Proof.
  unfold afterDurable.
  pose proof (renderTranscript_onlyEmits o self info w) as Hr.
  destruct (renderTranscript o self info w) as [w1 transcript]. cbn in Hr.
  apply onlyEmits_emit. etrans; [exact Hr|].
  match goal with
  | |- onlyEmits _ (match _ with Some _ => match _ with Some _ => _ ?wa | None => ?wa end
                                 | None => ?wa end) =>
      assert (onlyEmits w1 wa) as Ha
        by (repeat case_match; first [apply archiveFanout_onlyEmits | reflexivity])
  end.
  repeat case_match; try exact Ha;
    (etrans; [exact Ha | apply ownerFanout_onlyEmits]).
Qed.

(** The instance method leaves the registry as it found it. *)
Lemma closeTicket_registry envr o self user reason w :
  ActiveTickets (fst (closeTicket envr o self user reason w)) = ActiveTickets w.
Proof.
  unfold closeTicket. repeat case_match; cbn; try reflexivity.
  by rewrite (onlyEmits_registry _ _ (afterDurable_onlyEmits _ _ _ _ _ _ _)).
Qed.

(** Its result is decided by the durable transition alone. *)
Lemma closeTicket_result envr o self user reason w :
  snd (closeTicket envr o self user reason w) = durable o.
Proof.
  unfold closeTicket, durable. by repeat case_match.
Qed.

Lemma closeTicket_created envr o self user reason w :
  created (fst (closeTicket envr o self user reason w)) = created w.
Proof.
  unfold closeTicket. repeat case_match; cbn; try reflexivity.
  by rewrite (onlyEmits_created _ _ (afterDurable_onlyEmits _ _ _ _ _ _ _)).
Qed.

Lemma closeTicket_trace envr o self user reason w :
  trace w `prefix_of` trace (fst (closeTicket envr o self user reason w)).
Proof.
  unfold closeTicket. repeat case_match; cbn;
    try (rewrite <- ?app_assoc; by apply prefix_app_r).
  etrans; [|apply onlyEmits_trace, afterDurable_onlyEmits]. cbn.
  by apply prefix_app_r.
Qed.

(** Closes [trace w `prefix_of` trace w'] for a [w'] built from [w] by the
    state updates of the handler. *)
Ltac trace_prefix :=
  cbn [fst trace emit withDB withRegistry withCreated tick];
  rewrite <- ?app_assoc; first [ by apply prefix_app_r | reflexivity ].

(** Normalizes [since w w'] for a [w'] built from [w] by the state
    updates of the handler. *)
Ltac since_list :=
  unfold since; cbn [trace emit withDB withRegistry withCreated tick emitAll fst snd];
  rewrite <- ?app_assoc; rewrite ?drop_app_length, ?drop_all; cbn [app].

(** *** Closure: the registry *)

Lemma notifyRequester_onlyEmits o ticket closer r w :
  onlyEmits w (fst (notifyRequester o ticket closer r w)).
Proof. unfold notifyRequester. repeat case_match; cbn [fst]; only_emits. Qed.

(** The static method on a confirmed request, step by step. *)
Lemma closeTicketStatic_confirmed envr o ch closer w t r :
  getTicket ch w = Some t → confirmed o ch r →
  closeTicketStatic envr o ch closer w =
    let w0 := emit ModalDeferReply (emit (ShowModal (closeModal ch t)) w) in
    let ran := closeTicket envr (so_close o) t closer (Some r) w0 in
    let w2 := emit ModalDeleteReply
                (if snd ran then withRegistry (delete ch) (fst ran) else fst ran) in
    match so_deleteReply o with
    | Err e => (w2, Err e)
    | Ok _ => notifyRequester o t closer r w2
    end.
Proof.
  intros Ht (Hs & (fields & Hf & Hr) & Hd). unfold closeTicketStatic.
  rewrite Ht, Hf, Hr.
  destruct (so_showModal o); [|done]. destruct (so_deferReply o); [|done].
  cbn zeta. by destruct (closeTicket _ _ _ _ _ _).
Qed.

(** The registry after a confirmed request: the entry is deleted exactly
    when the durable transition succeeded. *)
Lemma closeTicketStatic_registry envr o ch closer w t r :
  getTicket ch w = Some t → confirmed o ch r →
  ActiveTickets (fst (closeTicketStatic envr o ch closer w))
  = if durable (so_close o) then delete ch (ActiveTickets w) else ActiveTickets w.
Proof.
  intros Ht Hc. rewrite (closeTicketStatic_confirmed _ _ _ _ _ _ _ Ht Hc). cbn zeta.
  rewrite closeTicket_result.
  assert (ActiveTickets
            (emit ModalDeleteReply
               (if durable (so_close o)
                then withRegistry (delete ch)
                       (fst (closeTicket envr (so_close o) t closer (Some r)
                               (emit ModalDeferReply (emit (ShowModal (closeModal ch t)) w))))
                else fst (closeTicket envr (so_close o) t closer (Some r)
                            (emit ModalDeferReply (emit (ShowModal (closeModal ch t)) w)))))
          = if durable (so_close o) then delete ch (ActiveTickets w) else ActiveTickets w)
    as Hreg.
  { destruct (durable (so_close o)); cbn; by rewrite closeTicket_registry. }
  destruct (so_deleteReply o); [|exact Hreg].
  by rewrite (onlyEmits_registry _ _ (notifyRequester_onlyEmits _ _ _ _ _)).
Qed.

(** A request on a registered channel starts by showing the prompt. *)
Lemma closeTicketStatic_prompts envr o ch closer w t :
  getTicket ch w = Some t →
  (trace w ++ [ShowModal (closeModal ch t)])
    `prefix_of` trace (fst (closeTicketStatic envr o ch closer w)).
Proof.
  intros Ht. unfold closeTicketStatic. rewrite Ht.
  set (w0 := emit (ShowModal (closeModal ch t)) w).
  change (trace w ++ [ShowModal (closeModal ch t)]) with (trace w0).
  destruct (so_showModal o); [|done].
  destruct (so_awaitModalSubmit o) as [fields|]; [|trace_prefix].
  destruct (fields !! _) as [r|]; [|trace_prefix].
  destruct (so_deferReply o); [|trace_prefix].
  destruct (closeTicket _ _ _ _ _ _) as [w1 success] eqn:Hrun.
  assert (trace w0 `prefix_of` trace w1) as Hp.
  { etrans; [|etrans; [apply (closeTicket_trace envr (so_close o) t closer (Some r))|]];
      [|by rewrite Hrun]. trace_prefix. }
  assert (trace w0 `prefix_of`
            trace (emit ModalDeleteReply
                     (if success then withRegistry (delete ch) w1 else w1))) as Hq.
  { etrans; [exact Hp|]. destruct success; trace_prefix. }
  destruct (so_deleteReply o); [|exact Hq].
  etrans; [exact Hq|]. apply onlyEmits_trace, notifyRequester_onlyEmits.
Qed.

Lemma closeTicketStatic_db envr o ch closer w t r :
  getTicket ch w = Some t → confirmed o ch r →
  db (fst (closeTicketStatic envr o ch closer w))
  = db (fst (closeTicket envr (so_close o) t closer (Some r)
               (emit ModalDeferReply (emit (ShowModal (closeModal ch t)) w)))).
Proof.
  intros Ht Hc. rewrite (closeTicketStatic_confirmed _ _ _ _ _ _ _ Ht Hc). cbn zeta.
  destruct (so_deleteReply o).
  - rewrite (onlyEmits_db _ _ (notifyRequester_onlyEmits _ _ _ _ _)). cbn.
    by destruct (snd _).
  - cbn. by destruct (snd _).
Qed.

(** The store after the instance method, when the durable transition
    succeeded: the closed timestamp is written, the closure message is
    appended, nothing else. *)
Lemma closeTicket_db envr o self user reason w :
  durable o = true →
  db (fst (closeTicket envr o self user reason w))
  = createMessage (clock w + 1) (ticketId self) (u_id user) (u_displayName user)
      (Some (default EmptyString (u_avatarURL user))) (Some (closureMarker reason))
      (updateTicket (ticketId self) (setClosedAt (clock w)) (db w)).
Proof.
  unfold durable, closeTicket.
  destruct (co_findTicketInfo o); [|done].
  destruct (co_updateClosedAt o); [|done].
  destruct (co_createClosureMessage o); [|done]. intros _. cbn [fst].
  by rewrite (onlyEmits_db _ _ (afterDurable_onlyEmits _ _ _ _ _ _ _)).
Qed.

Lemma findTicket_updateTicket id f d id' :
  (∀ t, t_id (f t) = t_id t) →
  findTicket (updateTicket id f d) id'
  = (λ t, if t_id t =? id then f t else t) <$> findTicket d id'.
Proof.
  intros Hf. unfold findTicket, updateTicket. cbn [tickets].
  induction (tickets d) as [|t rest IH]; [done|]. cbn.
  assert (t_id (if t_id t =? id then f t else t) = t_id t) as ->
    by (destruct (t_id t =? id); [apply Hf | done]).
  by destruct (t_id t =? id').
Qed.

Lemma findTicket_createMessage now ticket a dn av c d id :
  findTicket (createMessage now ticket a dn av c d) id = findTicket d id.
Proof. reflexivity. Qed.

(** The open tickets after the closed timestamp of one was written. *)
Lemma openTickets_setClosedAt id date d row :
  row ∈ openTickets (updateTicket id (setClosedAt date) d)
  ↔ row ∈ openTickets d ∧ t_id row ≠ id.
Proof.
  unfold openTickets, updateTicket. cbn [tickets].
  rewrite !list_elem_of_In, !filter_In, in_map_iff. split.
  - intros [(x & Hx & Hin) Hopen]. destruct (Nat.eqb_spec (t_id x) id) as [E|E].
    + subst row. done.
    + subst row. done.
  - intros [[Hin Hopen] Hne]. split; [|done]. exists row. split; [|done].
    by destruct (Nat.eqb_spec (t_id row) id).
Qed.

Lemma hasEmbedMarker_closure now ticket a dn av reason d :
  ∃ closure,
    ticketMessages (createMessage now ticket a dn av (Some (closureMarker reason)) d)
    = ticketMessages d ++ [closure] ∧
    m_ticket closure = ticket ∧ m_authorId closure = a ∧
    hasEmbedMarker closure = true.
Proof.
  eexists. split; [reflexivity|]. split; [reflexivity|]. split; [reflexivity|].
  unfold hasEmbedMarker, closureMarker, embedMarker. cbn [m_content].
  apply includes_here.
Qed.

(** C8: a confirmed close whose durable transition succeeds closes the
    ticket once: the closed timestamp of its row is set to the time of the
    close, the ticket leaves the open tickets of the store, which are
    otherwise as they were, one closure message, of the closer and with
    the embed marker, is appended to its log, and the ticket is removed
    from the registry.  A further close request on the channel is answered
    that the channel is not an active ticket, and does nothing else: the
    store and the registry stay as the first close left them, so no second
    closure is written, and the reply is the only call issued, so nothing
    is archived again. *)
Theorem second_close_rejected envr o1 o2 ch closer1 closer2 w t r :
  getTicket ch w = Some t → confirmed o1 ch r → durable (so_close o1) = true →
  let w1 := fst (closeTicketStatic envr o1 ch closer1 w) in
  let again := closeTicketStatic envr o2 ch closer2 w1 in
  (∀ row, findTicket (db w) (ticketId t) = Some row →
     ∃ closed, findTicket (db w1) (ticketId t) = Some closed ∧
               closed = setClosedAt (clock w) row ∧
               t_closedAt closed = Some (clock w)) ∧
  (∀ row, row ∈ openTickets (db w1)
          ↔ row ∈ openTickets (db w) ∧ t_id row ≠ ticketId t) ∧
  (∃ closure,
     messagesOf (db w1) (ticketId t) = messagesOf (db w) (ticketId t) ++ [closure] ∧
     m_authorId closure = u_id closer1 ∧ hasEmbedMarker closure = true) ∧
  getTicket ch w1 = None ∧
  again = (emit (Reply "This channel is not an active ticket.") w1, Ok ()) ∧
  db (fst again) = db w1 ∧
  ActiveTickets (fst again) = ActiveTickets w1 ∧
  since w1 (fst again) = [Reply "This channel is not an active ticket."].
Proof.
  intros Ht Hc Hd w1 again.
  assert (db w1
          = createMessage (clock w + 1) (ticketId t) (u_id closer1)
              (u_displayName closer1)
              (Some (default EmptyString (u_avatarURL closer1)))
              (Some (closureMarker (Some r)))
              (updateTicket (ticketId t) (setClosedAt (clock w)) (db w))) as Hdb.
  { unfold w1.
    by rewrite (closeTicketStatic_db _ _ _ _ _ _ _ Ht Hc), (closeTicket_db _ _ _ _ _ _ Hd). }
  assert (getTicket ch w1 = None) as Hgone.
  { unfold getTicket, w1. rewrite (closeTicketStatic_registry _ _ _ _ _ _ _ Ht Hc), Hd.
    apply lookup_delete_eq. }
  assert (again = (emit (Reply "This channel is not an active ticket.") w1, Ok ()))
    as Hagain.
  { unfold again, closeTicketStatic. by rewrite Hgone. }
  split; [|split; [|split; [|split; [exact Hgone|split; [exact Hagain|]]]]].
  - intros row Hrow. rewrite Hdb.
    rewrite findTicket_createMessage, findTicket_updateTicket by done.
    rewrite Hrow. cbn [fmap option_fmap option_map].
    assert (t_id row = ticketId t) as ->.
    { unfold findTicket in Hrow. apply find_some in Hrow as [_ H].
      by apply Nat.eqb_eq in H. }
    rewrite Nat.eqb_refl. by eexists.
  - intros row. rewrite Hdb.
    change (openTickets (createMessage _ _ _ _ _ _ ?d)) with (openTickets d).
    apply openTickets_setClosedAt.
  - rewrite Hdb.
    destruct (hasEmbedMarker_closure (clock w + 1) (ticketId t) (u_id closer1)
                (u_displayName closer1)
                (Some (default EmptyString (u_avatarURL closer1))) (Some r)
                (updateTicket (ticketId t) (setClosedAt (clock w)) (db w)))
      as (closure & Hms & Hticket & Hauthor & Hmark).
    exists closure. split; [|done].
    unfold messagesOf. rewrite Hms, List.filter_app.
    cbn [List.filter ticketMessages updateTicket]. by rewrite Hticket, Nat.eqb_refl.
  - rewrite Hagain. cbn [fst]. repeat split. since_list. done.
Qed.

Lemma second_close_rejected_witness :
  let w1 := fst (closeTicketStatic Examples.env0 (Examples.staticWith Examples.closeOk)
                   "700" Examples.moderator Examples.world0) in
  let again := closeTicketStatic Examples.env0 (Examples.staticWith Examples.closeOk)
                 "700" Examples.alice w1 in
  (∃ closed, findTicket (db w1) 1 = Some closed ∧
             closed = setClosedAt 100 Examples.aliceTicket ∧
             t_closedAt closed = Some 100%Z) ∧
  (∀ row, row ∈ openTickets (db w1)
          ↔ row ∈ openTickets Examples.db0 ∧ t_id row ≠ 1) ∧
  (∃ closure,
     messagesOf (db w1) 1 = messagesOf Examples.db0 1 ++ [closure] ∧
     m_authorId closure = "2002" ∧ hasEmbedMarker closure = true) ∧
  getTicket "700" w1 = None ∧
  again = (emit (Reply "This channel is not an active ticket.") w1, Ok ()) ∧
  db (fst again) = db w1 ∧
  ActiveTickets (fst again) = ActiveTickets w1 ∧
  since w1 (fst again) = [Reply "This channel is not an active ticket."].
Proof.
  assert (confirmed (Examples.staticWith Examples.closeOk) "700" "resolved") as Hc.
  { split; [reflexivity|]. split; [|reflexivity].
    eexists. split; [reflexivity|]. vm_compute. reflexivity. }
  destruct (second_close_rejected Examples.env0
              (Examples.staticWith Examples.closeOk)
              (Examples.staticWith Examples.closeOk) "700"
              Examples.moderator Examples.alice Examples.world0
              Examples.aliceOpen "resolved" eq_refl Hc eq_refl) as (Hrow & Hrest).
  split; [exact (Hrow Examples.aliceTicket eq_refl) | exact Hrest].
Defined.

(** C10: when the durable transition of a confirmed close fails (the
    query of the ticket, the write of the closed timestamp or the append
    of the closure message throws), the instance method reports failure,
    the registry is left as it was, so the ticket is still found by its
    channel, and a further close request on the channel is accepted: it
    shows the closure prompt. *)
Theorem failed_transition_keeps_registration envr o ch closer w t r :
  getTicket ch w = Some t → confirmed o ch r → durable (so_close o) = false →
  let w1 := fst (closeTicketStatic envr o ch closer w) in
  (∀ w0, snd (closeTicket envr (so_close o) t closer (Some r) w0) = false) ∧
  ActiveTickets w1 = ActiveTickets w ∧
  getTicket ch w1 = Some t ∧
  ∀ o2 closer2,
    (trace w1 ++ [ShowModal (closeModal ch t)])
      `prefix_of` trace (fst (closeTicketStatic envr o2 ch closer2 w1)).
Proof.
  intros Ht Hc Hd w1.
  assert (ActiveTickets w1 = ActiveTickets w) as Hreg.
  { unfold w1. by rewrite (closeTicketStatic_registry _ _ _ _ _ _ _ Ht Hc), Hd. }
  assert (getTicket ch w1 = Some t) as Ht1 by (unfold getTicket; by rewrite Hreg).
  repeat split; [|done|done|].
  - intros w0. by rewrite closeTicket_result.
  - intros o2 closer2. by apply closeTicketStatic_prompts.
Qed.

Lemma failed_transition_keeps_registration_witness :
  let w1 := fst (closeTicketStatic Examples.env0
                   (Examples.staticWith Examples.appendFails)
                   "700" Examples.moderator Examples.world0) in
  getTicket "700" w1 = Some Examples.aliceOpen.
Proof.
  assert (confirmed (Examples.staticWith Examples.appendFails) "700" "resolved") as Hc.
  { split; [reflexivity|]. split; [|reflexivity].
    eexists. split; [reflexivity|]. vm_compute. reflexivity. }
  exact (proj1 (proj2 (proj2
    (failed_transition_keeps_registration Examples.env0
       (Examples.staticWith Examples.appendFails) "700" Examples.moderator
       Examples.world0 Examples.aliceOpen "resolved" eq_refl Hc eq_refl)))).
Defined.

(** After the append of the closure message failed, the ticket is
    registered and its closed timestamp is already written. *)
Example registered_with_closed_timestamp :
  let w1 := fst (closeTicketStatic Examples.env0
                   (Examples.staticWith Examples.appendFails)
                   "700" Examples.moderator Examples.world0) in
  getTicket "700" w1 = Some Examples.aliceOpen ∧
  t_closedAt <$> findTicket (db w1) 1 = Some (Some 100%Z).
Proof. split; vm_compute; reflexivity. Qed.

(** C4, as the code has it: on a confirmed close the instance method runs
    the durable transition, the rendering and the whole fan-out with the
    ticket still registered; the static method deletes the registry entry
    after the instance method returned, exactly when the durable
    transition succeeded, whatever the outcome of the fan-out steps. *)
Theorem unregistered_after_fanout envr o ch closer w t r :
  getTicket ch w = Some t → confirmed o ch r →
  let w0 := emit ModalDeferReply (emit (ShowModal (closeModal ch t)) w) in
  let w1 := fst (closeTicket envr (so_close o) t closer (Some r) w0) in
  let w2 := fst (closeTicketStatic envr o ch closer w) in
  getTicket ch w1 = Some t ∧
  trace w1 `prefix_of` trace w2 ∧
  (durable (so_close o) = true → getTicket ch w2 = None) ∧
  (durable (so_close o) = false → getTicket ch w2 = Some t).
Proof.
  intros Ht Hc w0 w1 w2. repeat split.
  - unfold getTicket, w1. by rewrite closeTicket_registry.
  - unfold w2. rewrite (closeTicketStatic_confirmed _ _ _ _ _ _ _ Ht Hc). cbn zeta.
    fold w0. fold w1.
    assert (trace w1 `prefix_of`
              trace (emit ModalDeleteReply
                       (if snd (closeTicket envr (so_close o) t closer (Some r) w0)
                        then withRegistry (delete ch) w1 else w1))) as Hq
      by (destruct (snd _); trace_prefix).
    destruct (so_deleteReply o); [|exact Hq].
    etrans; [exact Hq|]. apply onlyEmits_trace, notifyRequester_onlyEmits.
  - intros Hd. unfold getTicket, w2.
    rewrite (closeTicketStatic_registry _ _ _ _ _ _ _ Ht Hc), Hd.
    apply lookup_delete_eq.
  - intros Hd. unfold getTicket, w2.
    by rewrite (closeTicketStatic_registry _ _ _ _ _ _ _ Ht Hc), Hd.
Qed.

Lemma unregistered_after_fanout_witness :
  getTicket "700"
    (fst (closeTicketStatic Examples.env0 (Examples.staticWith Examples.closeOk)
            "700" Examples.moderator Examples.world0)) = None.
Proof.
  assert (confirmed (Examples.staticWith Examples.closeOk) "700" "resolved") as Hc.
  { split; [reflexivity|]. split; [|reflexivity].
    eexists. split; [reflexivity|]. vm_compute. reflexivity. }
  exact (proj1 (proj2 (proj2
    (unregistered_after_fanout Examples.env0 (Examples.staticWith Examples.closeOk)
       "700" Examples.moderator Examples.world0 Examples.aliceOpen "resolved"
       eq_refl Hc))) eq_refl).
Defined.

(** C4 as stated fails: when the instance method returns, the archive post
    and the direct message to the requester have been issued and the
    ticket is still found by its channel; it is unregistered afterwards. *)
Lemma fanout_runs_while_registered :
  let w0 := emit ModalDeferReply
              (emit (ShowModal (closeModal "700" Examples.aliceOpen)) Examples.world0) in
  let w1 := fst (closeTicket Examples.env0 Examples.closeOk Examples.aliceOpen
                   Examples.moderator (Some "resolved") w0) in
  existsb isArchivePost (trace w1) = true ∧
  existsb (isTranscriptDM "1001") (trace w1) = true ∧
  getTicket "700" w1 = Some Examples.aliceOpen ∧
  getTicket "700"
    (fst (closeTicketStatic Examples.env0 (Examples.staticWith Examples.closeOk)
            "700" Examples.moderator Examples.world0)) = None.
Proof. repeat split; vm_compute; reflexivity. Qed.

(** *** Closure: the fan-out *)

(** Simplifies [existsb p (since w w')] for a [w'] built from [w] by the
    state updates of the handler. *)
Ltac fanout_events :=
  since_list;
  cbn [existsb isArchivePost isStaffPost isTranscriptDM isNotificationDM
       hasTicketTranscript hasStaffTranscript o_files a_body
       archiveMessage staffMessage ownerMessage transcriptAttachment
       closureNotification orb andb negb].

Lemma generateTicketTranscript_isOk q d id :
  isOk (generateTicketTranscript q d id)
  = isOk q && match findTicketWithCategory d id with Some _ => true | None => false end.
Proof.
  unfold generateTicketTranscript. destruct q; [|done].
  by destruct (findTicketWithCategory d id) as [[? ?]|].
Qed.

Lemma since_trans a b c :
  onlyEmits a b → onlyEmits b c → since a c = since a b ++ since b c.
Proof.
  intros [e1 ->] [e2 ->]. rewrite !since_emitAll, emitAll_emitAll. apply since_emitAll.
Qed.

Lemma since_emit a b e :
  onlyEmits a b → since a (emit e b) = since a b ++ [e].
Proof.
  intros H. rewrite (since_trans a b); [|done|by exists [e]].
  by rewrite emit_emitAll, since_emitAll.
Qed.

Lemma since_refl w : since w w = [].
Proof. unfold since. apply drop_all. Qed.

Lemma renderTranscript_reaches o self info w :
  noneOf (since w (fst (renderTranscript o self info w))).
Proof.
  unfold noneOf, renderTranscript.
  destruct info; [destruct (generateTicketTranscript _ _ _)|]; cbn [fst];
    fanout_events; done.
Qed.

Lemma renderTranscript_result o self info w :
  snd (renderTranscript o self info w)
  = match info with
    | Some _ =>
        match generateTicketTranscript (co_transcriptQuery o) (db w) (ticketId self) with
        | Ok doc => Some doc
        | Err _ => None
        end
    | None => None
    end.
Proof.
  unfold renderTranscript.
  destruct info; [destruct (generateTicketTranscript _ _ _)|]; done.
Qed.

Lemma staffThreadFanout_reaches o self info tc w :
  let evs := since w (staffThreadFanout o self info tc w) in
  existsb isArchivePost evs = false ∧
  existsb isStaffPost evs
  = match co_fetchStaffThread o with Ok (Some true) => true | _ => false end &&
    match co_fetchStaffMessages o with Ok l => 1 <? length l | Err _ => false end &&
    staffBuilt o self (Some info) ∧
  (∀ uid, existsb (isTranscriptDM uid) evs = false) ∧
  (∀ uid, existsb (isNotificationDM uid) evs = false).
Proof.
  unfold staffThreadFanout, staffBuilt.
  destruct (co_fetchStaffThread o) as [[[|]|]|]; try (fanout_events; done).
  destruct (co_fetchStaffMessages o) as [l|]; [|fanout_events; done].
  destruct (1 <? length l); [|fanout_events; done].
  destruct (staffFields o self info l); [|fanout_events; done].
  destruct (co_sendStaffTranscript o); fanout_events; done.
Qed.

Lemma archiveFanout_reaches o self user reason info tc doc w :
  let evs := since w (archiveFanout o self user reason info tc doc w) in
  let posted := match co_fetchTranscriptChannel o with
                | Ok (Some true) => true
                | _ => false
                end && archiveBuilt o self user reason (Some info) in
  existsb isArchivePost evs = posted ∧
  existsb isStaffPost evs
  = posted && isOk (co_sendArchive o) && staffResolved o (Some info)
    && staffBuilt o self (Some info) ∧
  (∀ uid, existsb (isTranscriptDM uid) evs = false) ∧
  (∀ uid, existsb (isNotificationDM uid) evs = false).
Proof.
  unfold archiveFanout, staffResolved, archiveBuilt.
  destruct (co_fetchTranscriptChannel o) as [[[|]|]|]; try (fanout_events; done).
  destruct (archiveFields o self user reason info) as [fields|]; [|fanout_events; done].
  destruct (co_sendArchive o); [|fanout_events; done].
  destruct (truthyOpt _); [|fanout_events; done].
  match goal with |- context [staffThreadFanout ?a ?b ?c ?d ?w1] =>
    pose proof (staffThreadFanout_reaches a b c d w1) as (H1 & H2 & H3 & H4);
    rewrite (since_trans w w1);
      [|repeat apply onlyEmits_emit; reflexivity|apply staffThreadFanout_onlyEmits]
  end.
  cbn zeta.
  repeat split; [| |intros uid|intros uid];
    rewrite existsb_app, ?H1, ?H2, ?H3, ?H4, ?orb_false_r; fanout_events;
    cbn [isOk andb]; done.
Qed.

Lemma ownerFanout_reaches o self user reason info doc w :
  let evs := since w (ownerFanout o self user reason info doc w) in
  existsb isArchivePost evs = false ∧ existsb isStaffPost evs = false ∧
  (∀ uid, existsb (isTranscriptDM uid) evs
          = ownerResolved o && ownerBuilt o user reason
            && String.eqb (t_userId (fst info)) uid) ∧
  (∀ uid, existsb (isNotificationDM uid) evs = false).
Proof.
  unfold ownerFanout, ownerResolved, ownerBuilt.
  destruct (co_fetchOwner o) as [[owner|]|]; try (fanout_events; done).
  destruct (ownerFields o user reason) as [fields|]; [|fanout_events; done].
  destruct (co_sendOwnerDM o); fanout_events;
    (repeat split; try done; intros uid; by destruct (String.eqb _ _)).
Qed.

(** Which destinations the steps after the durable transition reach. *)
Lemma afterDurable_reaches envr o self user reason info w :
  let evs := since w (afterDurable envr o self user reason info w) in
  let gen := match info with
             | Some _ => isOk (generateTicketTranscript (co_transcriptQuery o)
                                 (db w) (ticketId self))
             | None => false
             end in
  existsb isArchivePost evs
  = gen && archiveResolved envr o && archiveBuilt o self user reason info ∧
  existsb isStaffPost evs
  = gen && archiveResolved envr o && archiveBuilt o self user reason info
    && isOk (co_sendArchive o) && staffResolved o info && staffBuilt o self info ∧
  (∀ uid, existsb (isTranscriptDM uid) evs
          = gen && ownerResolved o && ownerBuilt o user reason &&
            match requesterOf info with Some u => String.eqb u uid | None => false end) ∧
  (∀ uid, existsb (isNotificationDM uid) evs = false).
Proof.
  unfold afterDurable.
  pose proof (renderTranscript_onlyEmits o self info w) as Hr.
  pose proof (renderTranscript_reaches o self info w) as (R1 & R2 & R3 & R4).
  pose proof (renderTranscript_result o self info w) as Hres.
  destruct (renderTranscript o self info w) as [w1 transcript].
  cbn [fst snd] in Hr, R1, R2, R3, R4, Hres.
  assert (db w1 = db w) as Hdb by (by apply onlyEmits_db).
  set (wa := match TRANSCRIPT_CHANNEL_ID envr, info, transcript with
             | Some tc, Some i, Some doc =>
                 if truthy tc then archiveFanout o self user reason i tc doc w1 else w1
             | _, _, _ => w1
             end).
  set (wo := match info, transcript with
             | Some i, Some doc => ownerFanout o self user reason i doc wa
             | _, _ => wa
             end).
  assert (onlyEmits w1 wa) as Ha.
  { unfold wa. repeat case_match; first [apply archiveFanout_onlyEmits | reflexivity]. }
  assert (onlyEmits wa wo) as Ho.
  { unfold wo. repeat case_match; first [apply ownerFanout_onlyEmits | reflexivity]. }
  cbn zeta.
  match goal with |- context [emit ?ev wo] => set (timer := ev) end.
  assert (∀ p, existsb p (since w (emit timer wo))
               = existsb p (since w w1)
                 || (existsb p (since w1 wa) || existsb p (since wa wo))
                 || p timer) as Hsplit.
  { intros p.
    rewrite since_emit by (etrans; [exact Hr|]; etrans; [exact Ha|exact Ho]).
    rewrite (since_trans w w1 wo) by (done || by etrans).
    rewrite (since_trans w1 wa wo) by done.
    rewrite !existsb_app. cbn. by rewrite orb_false_r. }
  rewrite !Hsplit. setoid_rewrite Hsplit.
  rewrite R1, R2. setoid_rewrite R3. setoid_rewrite R4.
  unfold timer.
  cbn [isArchivePost isStaffPost isTranscriptDM isNotificationDM orb].
  rewrite !orb_false_r. setoid_rewrite orb_false_r.
  unfold wo, wa, archiveResolved, requesterOf, truthyOpt.
  destruct info as [i|]; cbn [fmap option_fmap option_map compose].
  2: { destruct (TRANSCRIPT_CHANNEL_ID envr);
         (repeat split; [| |intros uid|intros uid]); by rewrite !since_refl. }
  rewrite Hres.
  destruct (generateTicketTranscript _ _ _) as [doc|]; cbn [isOk andb].
  2: { destruct (TRANSCRIPT_CHANNEL_ID envr);
         (repeat split; [| |intros uid|intros uid]); by rewrite !since_refl. }
  pose proof (ownerFanout_reaches o self user reason i doc) as Hown.
  destruct (TRANSCRIPT_CHANNEL_ID envr) as [tc|]; cbn [andb];
    [destruct (truthy tc); cbn [andb]|].
  - pose proof (archiveFanout_reaches o self user reason i tc doc w1)
      as (A1 & A2 & A3 & A4).
    destruct (Hown (archiveFanout o self user reason i tc doc w1)) as (O1 & O2 & O3 & O4).
    cbn zeta in *.
    (repeat split; [| |intros uid|intros uid]);
      rewrite ?A1, ?A2, ?A3, ?A4, ?O1, ?O2, ?O3, ?O4, ?orb_false_r; done.
  - destruct (Hown w1) as (O1 & O2 & O3 & O4).
    cbn zeta in *.
    (repeat split; [| |intros uid|intros uid]);
      rewrite !since_refl, ?O1, ?O2, ?O3, ?O4; done.
  - destruct (Hown w1) as (O1 & O2 & O3 & O4).
    cbn zeta in *.
    (repeat split; [| |intros uid|intros uid]);
      rewrite !since_refl, ?O1, ?O2, ?O3, ?O4; done.
Qed.

(** Each failure of a fan-out step leaves its line in the log. *)
Ltac in_list := repeat first [apply list_elem_of_here | apply list_elem_of_further].

Lemma since_mono a b c d e :
  onlyEmits a b → onlyEmits b c → onlyEmits c d →
  e ∈ since b c → e ∈ since a d.
Proof.
  intros [e1 ->] [e2 ->] [e3 ->]. rewrite !emitAll_emitAll, !since_emitAll.
  rewrite <- emitAll_emitAll, since_emitAll. intros H.
  rewrite !elem_of_app. auto.
Qed.

Lemma staffThreadFanout_logs o self info tc w e :
  staffError o self info = Some e →
  staffFailure self e ∈ since w (staffThreadFanout o self info tc w).
Proof.
  unfold staffError, staffThreadFanout, staffFailure.
  destruct (co_fetchStaffThread o) as [[[|]|]|]; try done.
  - destruct (co_fetchStaffMessages o) as [l|].
    + destruct (1 <? length l); [|done].
      destruct (staffFields o self info l) as [fields|].
      * destruct (co_sendStaffTranscript o); [done|].
        intros [= ->]. since_list. in_list.
      * intros [= ->]. since_list. in_list.
    + intros [= ->]. since_list. in_list.
  - intros [= ->]. since_list. in_list.
Qed.

Lemma archiveFanout_logs o self user reason info tc doc w :
  let evs := since w (archiveFanout o self user reason info tc doc w) in
  (∀ e, archiveError o self user reason info = Some e → archiveFailure self e ∈ evs) ∧
  (∀ e, match co_fetchTranscriptChannel o with Ok (Some true) => true | _ => false end
        && archiveBuilt o self user reason (Some info)
        && isOk (co_sendArchive o) && truthyOpt (t_staffThreadId (fst info)) = true →
        staffError o self info = Some e → staffFailure self e ∈ evs).
Proof.
  intros evs. unfold evs, archiveFanout, archiveFailure, archiveError, archiveBuilt. split.
  - intros e. destruct (co_fetchTranscriptChannel o) as [[[|]|]|]; try done.
    + destruct (archiveFields o self user reason info) as [fields|].
      * destruct (co_sendArchive o); [done|]. intros [= ->]. since_list. in_list.
      * intros [= ->]. since_list. in_list.
    + intros [= ->]. since_list. in_list.
  - intros e Hc He.
    destruct (co_fetchTranscriptChannel o) as [[[|]|]|]; try done.
    destruct (archiveFields o self user reason info) as [fields|]; [|done].
    destruct (co_sendArchive o); [|done]. cbn [isOk andb] in Hc. rewrite Hc.
    eapply since_mono; [| |reflexivity|by eapply staffThreadFanout_logs].
    + repeat apply onlyEmits_emit. reflexivity.
    + apply staffThreadFanout_onlyEmits.
Qed.

Lemma ownerFanout_logs o self user reason info doc w e :
  ownerError o user reason = Some e →
  ownerFailure self e ∈ since w (ownerFanout o self user reason info doc w).
Proof.
  unfold ownerError, ownerFanout, ownerFailure.
  destruct (co_fetchOwner o) as [[owner|]|]; try done.
  - destruct (ownerFields o user reason) as [fields|].
    + destruct (co_sendOwnerDM o); [done|]. intros [= ->]. since_list. in_list.
    + intros [= ->]. since_list. in_list.
  - intros [= ->]. since_list. in_list.
Qed.

Lemma afterDurable_logs envr o self user reason i w :
  let evs := since w (afterDurable envr o self user reason (Some i) w) in
  let gen := generateTicketTranscript (co_transcriptQuery o) (db w) (ticketId self) in
  (∀ e, gen = Err e → transcriptFailure self e ∈ evs) ∧
  (∀ e, isOk gen && truthyOpt (TRANSCRIPT_CHANNEL_ID envr) = true →
        archiveError o self user reason i = Some e → archiveFailure self e ∈ evs) ∧
  (∀ e, isOk gen && staffEntered envr o self user reason (Some i) = true →
        staffError o self i = Some e → staffFailure self e ∈ evs) ∧
  (∀ e, isOk gen = true → ownerError o user reason = Some e → ownerFailure self e ∈ evs).
Proof.
  intros evs gen.
  unfold evs, afterDurable, renderTranscript. fold gen.
  destruct gen as [doc|e0] eqn:Hgen; cbn [isOk andb].
  2: { repeat split; try done. intros e [= <-]. unfold transcriptFailure.
       destruct (TRANSCRIPT_CHANNEL_ID envr); since_list; in_list. }
  set (w1 := emit _ w).
  assert (onlyEmits w w1) as H1 by (by apply onlyEmits_emit).
  set (wa := match TRANSCRIPT_CHANNEL_ID envr with
             | Some tc => if truthy tc
                          then archiveFanout o self user reason i tc doc w1 else w1
             | None => w1
             end).
  assert (onlyEmits w1 wa) as Ha.
  { unfold wa. repeat case_match; first [apply archiveFanout_onlyEmits | reflexivity]. }
  pose proof (ownerFanout_onlyEmits o self user reason i doc wa) as Ho.
  match goal with |- context [emit ?ev (ownerFanout o self user reason i doc wa)] =>
    set (timer := ev) end.
  assert (∀ ev, ev ∈ since w1 wa →
                ev ∈ since w (emit timer (ownerFanout o self user reason i doc wa)))
    as Harch.
  { intros ev. apply since_mono; [done|done|]. by apply onlyEmits_emit. }
  assert (∀ ev, ev ∈ since wa (ownerFanout o self user reason i doc wa) →
                ev ∈ since w (emit timer (ownerFanout o self user reason i doc wa)))
    as Hown.
  { intros ev. apply since_mono; [by etrans|done|]. by apply onlyEmits_emit. }
  repeat split; try done.
  - intros e Hr He. apply Harch. unfold truthyOpt in Hr. unfold wa.
    destruct (TRANSCRIPT_CHANNEL_ID envr) as [tc|]; [|done]. rewrite Hr.
    by apply (archiveFanout_logs o self user reason i tc doc w1).
  - intros e Hr He. apply Harch.
    unfold staffEntered, archiveResolved, truthyOpt in Hr. unfold wa.
    destruct (TRANSCRIPT_CHANNEL_ID envr) as [tc|]; [|done].
    apply andb_prop in Hr as [[[[-> Hf]%andb_prop Hb]%andb_prop Hs]%andb_prop Hst].
    apply (archiveFanout_logs o self user reason i tc doc w1); [|done].
    by rewrite Hf, Hb, Hs.
  - intros e _ He. apply Hown. by apply ownerFanout_logs.
Qed.

(** *** Closure: the instance method as a whole *)

Lemma since_via a b c pre :
  trace b = trace a ++ pre → onlyEmits b c → since a c = pre ++ since b c.
Proof.
  intros Hb [evs ->]. rewrite since_emitAll. unfold since. cbn.
  by rewrite Hb, <- app_assoc, drop_app_length.
Qed.

Lemma findTicketWithCategory_durable now ticket a dn av c closed d id :
  match findTicketWithCategory
          (createMessage now ticket a dn av c (updateTicket id (setClosedAt closed) d)) id
  with Some _ => true | None => false end
  = match findTicketWithCategory d id with Some _ => true | None => false end.
Proof.
  unfold findTicketWithCategory.
  rewrite findTicket_createMessage, findTicket_updateTicket by done.
  destruct (findTicket d id) as [t|]; [|done]. cbn.
  assert (t_category (if t_id t =? id then setClosedAt closed t else t)
          = t_category t) as -> by (by destruct (t_id t =? id)).
  unfold findCategory. by destruct (find _ _).
Qed.

(** The world in which the steps after the durable transition start. *)
Lemma closeTicket_durable envr o self user reason w :
  durable o = true →
  ∃ wd, closeTicket envr o self user reason w
        = (afterDurable envr o self user reason
             (findTicketWithCategory (db w) (ticketId self)) wd, true) ∧
        (∃ line, trace wd = trace w ++ [Log Info line]) ∧
        db wd = createMessage (clock w + 1) (ticketId self) (u_id user)
                  (u_displayName user)
                  (Some (default EmptyString (u_avatarURL user)))
                  (Some (closureMarker reason))
                  (updateTicket (ticketId self) (setClosedAt (clock w)) (db w)) ∧
        ActiveTickets wd = ActiveTickets w.
Proof.
  unfold durable, closeTicket.
  destruct (co_findTicketInfo o); [|done].
  destruct (co_updateClosedAt o); [|done].
  destruct (co_createClosureMessage o); [|done]. intros _.
  eexists. split; [reflexivity|]. cbn. eauto.
Qed.

Lemma closeTicket_not_durable envr o self user reason w :
  durable o = false →
  noneOf (since w (fst (closeTicket envr o self user reason w))) ∧
  ∃ line e, since w (fst (closeTicket envr o self user reason w))
            = [Log Info line; Log Error e].
Proof.
  unfold durable, closeTicket, noneOf.
  destruct (co_findTicketInfo o); [|intros _; since_list; cbn; eauto 10].
  destruct (co_updateClosedAt o); [|intros _; since_list; cbn; eauto 10].
  destruct (co_createClosureMessage o); [done|intros _; since_list; cbn; eauto 10].
Qed.

(** Which destinations a close reaches: the archive post, the staff post
    and the direct message to the requester each need the durable
    transition, the rendered transcript and the fields of their summary;
    the staff post also needs the archive post to return; the direct
    message needs nothing of the archive. *)
Lemma closeTicket_reaches envr o self user reason w :
  let evs := since w (fst (closeTicket envr o self user reason w)) in
  let info := findTicketWithCategory (db w) (ticketId self) in
  existsb isArchivePost evs
  = durable o && rendered o info && archiveResolved envr o
    && archiveBuilt o self user reason info ∧
  existsb isStaffPost evs
  = durable o && rendered o info && archiveResolved envr o
    && archiveBuilt o self user reason info
    && isOk (co_sendArchive o) && staffResolved o info && staffBuilt o self info ∧
  (∀ uid, existsb (isTranscriptDM uid) evs
          = durable o && rendered o info && ownerResolved o && ownerBuilt o user reason &&
            match requesterOf info with Some u => String.eqb u uid | None => false end) ∧
  (∀ uid, existsb (isNotificationDM uid) evs = false).
Proof.
  intros evs info. unfold evs.
  destruct (durable o) eqn:Hd; cbn [andb].
  2: { by destruct (closeTicket_not_durable envr o self user reason w Hd) as [? _]. }
  destruct (closeTicket_durable envr o self user reason w Hd)
    as (wd & -> & [line Htr] & Hdb & _).
  cbn [fst]. fold info.
  rewrite (since_via w wd _ [Log Info line] Htr) by apply afterDurable_onlyEmits.
  pose proof (afterDurable_reaches envr o self user reason info wd) as (A1 & A2 & A3 & A4).
  cbn zeta in A1, A2, A3, A4.
  assert (match info with
          | Some _ => isOk (generateTicketTranscript (co_transcriptQuery o)
                              (db wd) (ticketId self))
          | None => false
          end = rendered o info) as Hgen.
  { unfold rendered. rewrite generateTicketTranscript_isOk, Hdb,
      findTicketWithCategory_durable. fold info.
    destruct info; [done|]. by rewrite andb_false_r. }
  rewrite Hgen in A1, A2, A3.
  (repeat split; [| |intros uid|intros uid]); cbn [app existsb];
    cbn [isArchivePost isStaffPost isTranscriptDM isNotificationDM orb]; auto.
Qed.

Lemma closeTicket_logs envr o self user reason w i :
  durable o = true →
  findTicketWithCategory (db w) (ticketId self) = Some i →
  let evs := since w (fst (closeTicket envr o self user reason w)) in
  let info := Some i in
  (∀ e, co_transcriptQuery o = Err e → transcriptFailure self e ∈ evs) ∧
  (∀ e, rendered o info && truthyOpt (TRANSCRIPT_CHANNEL_ID envr) = true →
        archiveError o self user reason i = Some e → archiveFailure self e ∈ evs) ∧
  (∀ e, rendered o info && staffEntered envr o self user reason info = true →
        staffError o self i = Some e → staffFailure self e ∈ evs) ∧
  (∀ e, rendered o info = true → ownerError o user reason = Some e →
        ownerFailure self e ∈ evs).
Proof.
  intros Hd Hi evs info. unfold evs.
  destruct (closeTicket_durable envr o self user reason w Hd)
    as (wd & -> & [line Htr] & Hdb & _).
  cbn [fst]. rewrite Hi. fold info.
  rewrite (since_via w wd _ [Log Info line] Htr) by apply afterDurable_onlyEmits.
  assert (isOk (generateTicketTranscript (co_transcriptQuery o) (db wd) (ticketId self))
          = rendered o info) as Hgen.
  { by rewrite generateTicketTranscript_isOk, Hdb, findTicketWithCategory_durable, Hi. }
  pose proof (afterDurable_logs envr o self user reason i wd) as (L1 & L2 & L3 & L4).
  cbn zeta in L1, L2, L3, L4. rewrite Hgen in L2, L3, L4.
  repeat split.
  - intros e He. apply elem_of_app. right. apply L1.
    unfold generateTicketTranscript. by rewrite He.
  - intros e Hc He. apply elem_of_app. right. by apply L2.
  - intros e Hc He. apply elem_of_app. right. by apply L3.
  - intros e Hc He. apply elem_of_app. right. by apply L4.
Qed.

(** A reason of more than 1024 code units is refused by the builder, in
    the summary for the archive channel and in the summary for the
    requester. *)
Lemma addFields_long_value refused label r fields :
  1024 < String.length r →
  addFields refused [ {| name := label; value := r; inline := false |} ] fields
  = Err (refused [ {| name := label; value := r; inline := false |} ]).
Proof.
  intros Hr. unfold addFields, fieldFits. cbn [forallb value].
  rewrite (proj2 (Nat.leb_gt _ _) Hr). by rewrite !andb_false_r.
Qed.

Lemma withReason_long o label r fields :
  1024 < String.length r → isOk (withReason o label (Some r) fields) = false.
Proof.
  intros Hr. unfold withReason.
  assert (truthy r = true) as -> by (destruct r; [cbn in Hr; lia | done]).
  by rewrite addFields_long_value.
Qed.

Lemma long_reason_not_built o self user r info :
  1024 < String.length r →
  archiveBuilt o self user (Some r) info = false ∧ ownerBuilt o user (Some r) = false.
Proof.
  intros Hr. unfold archiveBuilt, ownerBuilt, archiveFields, ownerFields. split.
  - destruct info as [i|]; [|done].
    destruct (addFields _ _ _); [by apply withReason_long | done].
  - destruct (addFields _ _ _); [by apply withReason_long | done].
Qed.

(** C5, as the code has it: once the durable transition succeeded the
    close reports success whatever happens in the fan-out, and the error a
    block of the fan-out ends with is logged.  The destinations are
    isolated in part only: the archive post, the staff-thread post and the
    direct message to the requester are each attempted only when the
    transcript was rendered and the builder took the fields of their
    summary; the staff-thread post is attempted only when the archive post
    returned; the direct message depends on neither of the two posts.  A
    closure reason of more than 1024 code units is refused by the builder
    in both summaries that carry it: then neither post nor the direct
    message is attempted. *)
Theorem fanout_failures_are_contained envr o self user reason w :
  durable o = true →
  let evs := since w (fst (closeTicket envr o self user reason w)) in
  let info := findTicketWithCategory (db w) (ticketId self) in
  snd (closeTicket envr o self user reason w) = true ∧
  existsb isArchivePost evs
  = rendered o info && archiveResolved envr o && archiveBuilt o self user reason info ∧
  existsb isStaffPost evs
  = rendered o info && archiveResolved envr o && archiveBuilt o self user reason info
    && isOk (co_sendArchive o) && staffResolved o info && staffBuilt o self info ∧
  (∀ uid, requesterOf info = Some uid →
          existsb (isTranscriptDM uid) evs
          = rendered o info && ownerResolved o && ownerBuilt o user reason) ∧
  (∀ r, reason = Some r → 1024 < String.length r →
        existsb isArchivePost evs = false ∧ existsb isStaffPost evs = false ∧
        ∀ uid, existsb (isTranscriptDM uid) evs = false) ∧
  (∀ i, info = Some i →
     (∀ e, co_transcriptQuery o = Err e → transcriptFailure self e ∈ evs) ∧
     (∀ e, rendered o info && truthyOpt (TRANSCRIPT_CHANNEL_ID envr) = true →
           archiveError o self user reason i = Some e → archiveFailure self e ∈ evs) ∧
     (∀ e, rendered o info && staffEntered envr o self user reason info = true →
           staffError o self i = Some e → staffFailure self e ∈ evs) ∧
     (∀ e, rendered o info = true → ownerError o user reason = Some e →
           ownerFailure self e ∈ evs)).
Proof.
  intros Hd evs info.
  pose proof (closeTicket_reaches envr o self user reason w) as (R1 & R2 & R3 & _).
  cbn zeta in R1, R2, R3. fold evs info in R1, R2, R3.
  rewrite Hd in R1, R2, R3. cbn [andb] in R1, R2, R3.
  split; [by rewrite closeTicket_result|].
  split; [exact R1|]. split; [exact R2|]. split; [|split].
  - intros uid Hu. rewrite R3, Hu, String.eqb_refl. by rewrite andb_true_r.
  - intros r -> Hr.
    destruct (long_reason_not_built o self user r info Hr) as [Ha Ho].
    rewrite R1, R2, Ha, !andb_false_r. repeat split.
    intros uid. by rewrite R3, Ho, !andb_false_r.
  - intros i Hi.
    pose proof (closeTicket_logs envr o self user reason w i Hd Hi) as L.
    cbn zeta in L. fold evs in L. by rewrite Hi.
Qed.

Lemma fanout_failures_are_contained_witness :
  let evs := since Examples.world0
               (fst (closeTicket Examples.env0 Examples.closeOk Examples.aliceOpen
                       Examples.moderator (Some Examples.longReason) Examples.world0)) in
  snd (closeTicket Examples.env0 Examples.closeOk Examples.aliceOpen
         Examples.moderator (Some Examples.longReason) Examples.world0) = true ∧
  existsb isArchivePost evs = false ∧
  existsb isStaffPost evs = false ∧
  existsb (isTranscriptDM "1001") evs = false ∧
  archiveFailure Examples.aliceOpen "Received one or more errors" ∈ evs ∧
  ownerFailure Examples.aliceOpen "Received one or more errors" ∈ evs.
Proof.
  assert (1024 < String.length Examples.longReason) as Hlong.
  { apply Nat.ltb_lt. vm_compute. reflexivity. }
  destruct (fanout_failures_are_contained Examples.env0 Examples.closeOk
              Examples.aliceOpen Examples.moderator (Some Examples.longReason)
              Examples.world0 eq_refl)
    as (Hres & _ & _ & _ & Hskip & Hlogs).
  destruct (Hskip Examples.longReason eq_refl Hlong) as (Ha & Hs & Hdm).
  destruct (Hlogs (Examples.aliceTicket, Examples.billing) eq_refl)
    as (_ & Hal & _ & Hol).
  split; [exact Hres|]. split; [exact Ha|]. split; [exact Hs|].
  split; [exact (Hdm "1001")|]. split.
  - apply Hal; vm_compute; reflexivity.
  - apply Hol; vm_compute; reflexivity.
Defined.

(** C5 as stated fails: when the transcript generator throws, neither the
    archive post nor the direct message to the requester is attempted; and
    when the archive post throws, the staff-thread post, which is attempted
    when the archive post returns, is not attempted. *)
Lemma transcript_failure_skips_the_destinations :
  let skipped :=
    since Examples.world0
      (fst (closeTicket Examples.env0 Examples.transcriptFails Examples.aliceOpen
              Examples.moderator (Some "resolved") Examples.world0)) in
  let posted (post : Store.result unit) :=
    since Examples.threadWorld
      (fst (closeTicket Examples.env0 (Examples.archiveAnswers post)
              Examples.aliceOpen Examples.moderator (Some "resolved")
              Examples.threadWorld)) in
  existsb isArchivePost skipped = false ∧
  existsb (isTranscriptDM "1001") skipped = false ∧
  existsb isStaffPost (posted (Ok ())) = true ∧
  existsb isStaffPost (posted (Err "Missing Access")) = false.
Proof. repeat split; vm_compute; reflexivity. Qed.

(** With a reason within bounds every destination is reached; with a
    reason of 1025 code units the builder refuses both summaries that
    carry it, so that neither the archive post nor the direct message is
    issued, and the close reports success all the same. *)
Example long_reason_skips_the_posts :
  let ran (reason : string) :=
    closeTicket Examples.env0 Examples.closeOk Examples.aliceOpen
      Examples.moderator (Some reason) Examples.world0 in
  let evs (reason : string) := since Examples.world0 (fst (ran reason)) in
  String.length Examples.longReason = 1025 ∧
  existsb isArchivePost (evs "resolved") = true ∧
  existsb (isTranscriptDM "1001") (evs "resolved") = true ∧
  existsb isArchivePost (evs Examples.longReason) = false ∧
  existsb (isTranscriptDM "1001") (evs Examples.longReason) = false ∧
  snd (ran Examples.longReason) = true.
Proof. repeat split; vm_compute; reflexivity. Qed.

(** *** Closure: the messages to the requester *)







(** *** Intake *)

Section Intake.
Variable tbxIdRegex : string → bool.

(** C7: when the structured form is presented and the wait for the
    correlated submission ends without one, the workflow returns having
    created no channel, written no row and registered nothing; the only
    call it issued is the prompt. *)
Theorem unanswered_form_creates_nothing envr o user category_id w categoryData e :
  findCategory (db w) category_id = Some categoryData →
  c_requireTbxId categoryData = true ∨ fieldsOf (db w) (c_id categoryData) ≠ [] →
  cr_awaitModalSubmit o = Err e →
  let w' := fst (createNewTicket tbxIdRegex envr o user category_id w) in
  created w' = created w ∧ db w' = db w ∧ ActiveTickets w' = ActiveTickets w ∧
  (w' = w ∨
   w' = emit (ShowModal (openModal categoryData
                           (fieldsOf (db w) (c_id categoryData)) user)) w).
Proof.
  intros Hcat Hform Hwait. unfold createNewTicket. rewrite Hcat.
  assert (negb (c_requireTbxId categoryData)
          && (length (fieldsOf (db w) (c_id categoryData)) =? 0) = false) as ->.
  { destruct Hform as [-> | Hf]; [done|].
    destruct (fieldsOf (db w) (c_id categoryData)); [done|].
    by rewrite andb_false_r. }
  unfold formPath. rewrite Hwait.
  repeat case_match; cbn; auto.
Qed.

Lemma append_assoc (a b c : string) : (a +:+ b) +:+ c = a +:+ (b +:+ c).
Proof. induction a as [|x a IH]; [done|]. by rewrite !append_cons, IH. Qed.

Lemma append_nil_r (a : string) : a +:+ EmptyString = a.
Proof. induction a as [|x a IH]; [done|]. by rewrite append_cons, IH. Qed.

Lemma includes_join sep package (parts : list string) :
  package ∈ parts →
  ∃ before after, join sep parts = before +:+ package +:+ after.
Proof.
  induction parts as [|p rest IH]; [by intros ?%elem_of_nil|].
  intros [-> | Hin]%elem_of_cons.
  - destruct rest as [|q rest].
    + exists EmptyString, EmptyString. by rewrite append_nil, append_nil_r.
    + exists EmptyString, (sep +:+ join sep (q :: rest)). reflexivity.
  - destruct (IH Hin) as (before & after & E).
    destruct rest as [|q rest]; [by apply elem_of_nil in Hin|].
    exists (p +:+ sep +:+ before), after.
    change (join sep (p :: q :: rest)) with (p +:+ sep +:+ join sep (q :: rest)).
    by rewrite E, !append_assoc.
Qed.

Lemma introField_renders purchase r f :
  purchase ≠ Some PurchaseError →
  introField tbxIdRegex purchase r = Ok f → renders tbxIdRegex purchase r f.
Proof.
  intros Hp. unfold introField, renders. destruct (tbxIdRegex (r_response r)).
  - destruct purchase as [[data|]|]; [|done|done].
    intros [= <-]. exists data. cbn. repeat split.
    + unfold purchaseInfo.
      apply (includes_skip _ "* Transaction ID: "), (includes_skip _ (r_response r)),
        (includes_skip _ LF), (includes_app _ "* Status: ").
    + intros package Hin. unfold purchaseInfo.
      destruct (includes_join ", " package _ Hin) as (before & after & ->).
      apply (includes_skip _ "* Transaction ID: "), (includes_skip _ (r_response r)),
        (includes_skip _ LF), (includes_skip _ "* Status: "),
        (includes_skip _ (status data)), (includes_skip _ LF),
        (includes_skip _ "* Packages: "), (includes_app _ before).
    + unfold purchaseInfo. apply (includes_app _ "* Transaction ID: ").
  - by intros [= <-].
Qed.

Lemma mapResult_Forall2 {A B} (f : A → result B) (R : A → B → Prop) l l' :
  (∀ x y, f x = Ok y → R x y) → mapResult f l = Ok l' → Forall2 R l l'.
Proof.
  intros Hf. revert l'. induction l as [|x l IH]; intros l'; cbn.
  - intros [= <-]. constructor.
  - destruct (f x) as [y|] eqn:Ey; [|done].
    destruct (mapResult f l) as [ys|]; [|done].
    intros [= <-]. constructor; auto.
Qed.

Lemma verify_continues o category rs w w' purchase :
  verify o category rs w = inr (w', purchase) →
  w' = w ∧ purchase ≠ Some PurchaseError.
Proof.
  unfold verify. repeat case_match; intros [= <- <-]; done.
Qed.

Lemma createStaffThread_onlyEmits_sends envr o channel dbTicket notice w ch msg :
  ChannelSend ch msg ∉ since w (createStaffThread envr o channel dbTicket notice w).
Proof.
  unfold createStaffThread. repeat case_match; since_list;
    rewrite ?not_elem_of_cons; repeat split; try discriminate; apply not_elem_of_nil.
Qed.

Lemma createStaffThread_trace envr o channel dbTicket notice w :
  ∃ evs, trace (createStaffThread envr o channel dbTicket notice w) = trace w ++ evs.
Proof.
  unfold createStaffThread. repeat case_match;
    cbn [trace emit withDB withRegistry withCreated tick];
    rewrite <- ?app_assoc; eauto. exists []. by rewrite app_nil_r.
Qed.

Lemma openTicket_sends envr o category user channel fields notice w w0 ch msg :
  trace w0 `prefix_of` trace w →
  ChannelSend ch msg ∈ since w0 (fst (openTicket envr o category user channel fields notice w)) →
  ChannelSend ch msg ∈ since w0 w ∨ msg = introMessage category user fields.
Proof.
  intros [pre Hpre]. unfold openTicket.
  destruct (cr_insertTicket o); [|by left].
  destruct (cr_channelSend o).
  - cbn [fst].
    match goal with |- context [createStaffThread ?a ?b ?c ?d ?e ?w1] =>
      destruct (createStaffThread_trace a b c d e w1) as [evs Hevs];
      pose proof (createStaffThread_onlyEmits_sends a b c d e w1 ch msg) as Hno;
      unfold since in Hno |- *; rewrite Hevs in Hno |- *;
      rewrite drop_app_length in Hno
    end.
    cbn [trace emit withDB withRegistry withCreated tick].
    rewrite Hpre, <- !app_assoc, !drop_app_length.
    rewrite !elem_of_app, list_elem_of_singleton.
    intros [?|[[= -> ->]|?]]; auto. done.
  - unfold since. cbn [fst trace emit withDB withRegistry withCreated tick].
    rewrite Hpre, <- ?app_assoc, !drop_app_length.
    rewrite !elem_of_app, list_elem_of_singleton.
    intros [?|[= -> ->]]; auto.
Qed.

(** Closes [ChannelSend ch msg ∈ since w w' → _] when the calls between
    [w] and [w'] are explicit and none is a post to a channel. *)
Ltac no_send :=
  let H := fresh "H" in
  unfold since; cbn [fst trace emit withDB withRegistry withCreated tick];
  rewrite <- ?app_assoc, ?drop_app_length, ?drop_all; cbn [app];
  rewrite ?elem_of_cons, ?elem_of_nil; intros H;
  repeat (destruct H as [H|H]; try discriminate H); done.

Lemma fastPath_sends envr o category user w ch msg :
  ChannelSend ch msg ∈ since w (fst (fastPath envr o category user w)) →
  msg = introMessage category user [].
Proof.
  unfold fastPath.
  destruct (cr_deferReply o); [|no_send].
  destruct (cr_fetchCategoryChannel o) as [[inherited|]|];
    [|destruct (cr_editReply o); no_send|no_send].
  destruct (cr_createChannel o) as [channel|]; [|no_send].
  destruct (cr_editReply o); [|no_send].
  intros [H| ->]%openTicket_sends; [revert H; no_send|done|trace_prefix].
Qed.

Lemma verify_verified o category rs w w' purchase :
  verify o category rs w = inr (w', purchase) → verified o category rs purchase.
Proof.
  unfold verify, verified. destruct (c_requireTbxId category); [|by intros [= <- <-]].
  destruct (r_response <$> _) as [tbxid|]; [|done].
  destruct (cr_verifyPurchase o tbxid) as [[data|]|] eqn:Hv; try done.
  intros [= <- <-]. by exists tbxid, data.
Qed.

Lemma setFields_Ok refused fields embedFields :
  setFields refused fields = Ok embedFields → embedFields = fields.
Proof. unfold setFields. case_match; [by intros [= <-]|done]. Qed.

Lemma formPath_sends envr o category fields user w ch msg :
  ChannelSend ch msg ∈ since w (fst (formPath tbxIdRegex envr o category fields user w)) →
  ∃ embedFields responseData formattedResponses purchase,
    msg = introMessage category user embedFields ∧
    cr_awaitModalSubmit o = Ok responseData ∧
    formatResponses (openModal category fields user) responseData = Ok formattedResponses ∧
    verified o category formattedResponses purchase ∧
    Forall2 (renders tbxIdRegex purchase) formattedResponses embedFields.
Proof.
  unfold formPath.
  destruct (cr_showModal o); [|no_send].
  destruct (cr_awaitModalSubmit o) as [responseData|]; [|no_send].
  destruct (cr_modalDeferReply o); [|no_send].
  destruct (formatResponses _ responseData) as [formattedResponses|] eqn:Hf; [|no_send].
  destruct (verify _ _ _ _) as [[wv rv]|[wv purchase]] eqn:Hv.
  { revert Hv. unfold verify. repeat case_match; intros [= <- <-]; no_send. }
  pose proof (verify_verified _ _ _ _ _ _ Hv) as Hver.
  apply verify_continues in Hv as [-> Hp].
  destruct (cr_fetchCategoryChannel o) as [[inherited|]|]; [|no_send|no_send].
  destruct (cr_createChannel o) as [channel|]; [|no_send].
  destruct (mapResult _ formattedResponses) as [built|] eqn:Hm; [|no_send].
  destruct (setFields _ built) as [embedFields|] eqn:Hset; [|no_send].
  apply setFields_Ok in Hset as ->.
  intros [H| ->]%openTicket_sends; [revert H; no_send| |trace_prefix].
  exists built, responseData, formattedResponses, purchase.
  repeat split; [done|done|].
  eapply mapResult_Forall2; [|exact Hm].
  intros r f. by apply introField_renders.
Qed.

(** With a verified payment the callback of the map never throws. *)
Lemma introFields_built data rs :
  ∃ built, mapResult (introField tbxIdRegex (Some (PurchaseOk data))) rs = Ok built.
Proof.
  induction rs as [|r rs [built IH]]; [by exists []|]. cbn [mapResult]. rewrite IH.
  unfold introField. destruct (tbxIdRegex (r_response r)); eauto.
Qed.

Lemma truthy_length s : truthy s = true → 1 ≤ String.length s.
Proof. destruct s; [done|]. cbn. lia. Qed.

Lemma formatResponses_answered modal responseData rs r :
  formatResponses modal responseData = Ok rs → r ∈ rs →
  truthy (r_label r) = true ∧ truthy (r_response r) = true.
Proof.
  unfold formatResponses. destruct (mapResult _ _) as [all|]; [|done].
  intros [= <-] Hin. apply list_elem_of_In, filter_In in Hin as [_ H].
  by apply andb_prop in H as [[? ?]%andb_prop _].
Qed.

Lemma introField_fits data r f :
  introField tbxIdRegex (Some (PurchaseOk data)) r = Ok f →
  truthy (r_label r) = true → truthy (r_response r) = true →
  withinBounds tbxIdRegex data r → fieldFits f = true.
Proof.
  unfold introField, withinBounds, fieldFits.
  destruct (tbxIdRegex (r_response r)).
  - intros [= <-] _ _ Hb. cbn [name value].
    apply Nat.leb_le in Hb. rewrite Hb. reflexivity.
  - intros [= <-] Hl%truthy_length Hr%truthy_length [Hbl Hbr]. cbn [name value].
    apply Nat.leb_le in Hl, Hr, Hbl, Hbr. by rewrite Hl, Hr, Hbl, Hbr.
Qed.

Lemma introFields_fit data rs built :
  mapResult (introField tbxIdRegex (Some (PurchaseOk data))) rs = Ok built →
  (∀ r, r ∈ rs → truthy (r_label r) = true ∧ truthy (r_response r) = true) →
  (∀ r, r ∈ rs → withinBounds tbxIdRegex data r) →
  forallb fieldFits built = true ∧ length built = length rs.
Proof.
  revert built. induction rs as [|r rs IH]; intros built; cbn [mapResult].
  { by intros [= <-]. }
  destruct (introField _ _ r) as [f|] eqn:Hf; [|done].
  destruct (mapResult _ rs) as [fs|]; [|done].
  intros [= <-] Hans Hfit. cbn [forallb length].
  destruct (IH fs eq_refl) as [-> ->].
  - intros x Hx. apply Hans. by apply list_elem_of_further.
  - intros x Hx. apply Hfit. by apply list_elem_of_further.
  - destruct (Hans r (list_elem_of_here _ _)) as [Hl Hr].
    by rewrite (introField_fits _ _ _ Hf Hl Hr (Hfit r (list_elem_of_here _ _))).
Qed.

(** When the row is stored, the introductory message is posted. *)
Lemma openTicket_posts envr o category user channel fields notice w w0 :
  isOk (cr_insertTicket o) = true → trace w0 `prefix_of` trace w →
  ChannelSend (ch_id channel) (introMessage category user fields)
    ∈ since w0 (fst (openTicket envr o category user channel fields notice w)).
Proof.
  intros Hi [pre Hpre]. unfold openTicket.
  destruct (cr_insertTicket o); [|done].
  destruct (cr_channelSend o); cbn [fst].
  - match goal with |- context [createStaffThread ?a ?b ?c ?d ?e ?w1] =>
      destruct (createStaffThread_trace a b c d e w1) as [evs Hevs];
      unfold since; rewrite Hevs
    end.
    cbn [trace emit withDB withRegistry withCreated tick].
    rewrite Hpre, <- !app_assoc, drop_app_length.
    rewrite !elem_of_app, list_elem_of_singleton. auto.
  - unfold since. cbn [trace emit withDB withRegistry withCreated tick].
    rewrite Hpre, <- !app_assoc, drop_app_length.
    rewrite !elem_of_app, list_elem_of_singleton. auto.
Qed.

(** C1, as the code has it.  Whatever intake posts to a channel is the
    introductory message: without fields on the path that shows no
    prompt; on the path that shows the prompt with one field per answer,
    in the order of the prompt, built with the payment the service
    verified for the submitted token.  There a field that stands for an
    answer in the verification-token format is named Purchase Info and
    holds the summary of that payment: the status, the names of the
    packages, and also the submitted token itself on its first line; any
    other answer is shown as it was given, under its label.  And the
    message is posted: when the category requires a token, the
    collaborators answer up to the insertion of the row, the service
    verifies the submitted token and the fields are within the bounds of
    the builder. *)
Theorem token_answer_rendered_as_summary envr o user category_id w category :
  findCategory (db w) category_id = Some category →
  let fields := fieldsOf (db w) (c_id category) in
  let modal := openModal category fields user in
  let evs := since w (fst (createNewTicket tbxIdRegex envr o user category_id w)) in
  (∀ ch msg, ChannelSend ch msg ∈ evs →
     if negb (c_requireTbxId category) && (length fields =? 0)
     then msg = introMessage category user []
     else ∃ responseData formattedResponses purchase embedFields,
            cr_awaitModalSubmit o = Ok responseData ∧
            formatResponses modal responseData = Ok formattedResponses ∧
            verified o category formattedResponses purchase ∧
            Forall2 (renders tbxIdRegex purchase) formattedResponses embedFields ∧
            msg = introMessage category user embedFields) ∧
  (∀ responseData formattedResponses tbxid data inherited channel,
     c_requireTbxId category = true →
     isOk (cr_getCategoryData o) = true →
     cr_fetchGuild o = Ok (Some ()) →
     isOk (cr_showModal o) = true →
     cr_awaitModalSubmit o = Ok responseData →
     isOk (cr_modalDeferReply o) = true →
     formatResponses modal responseData = Ok formattedResponses →
     r_response <$> List.find (λ item, String.eqb (r_id item) "tbxid") formattedResponses
     = Some tbxid →
     cr_verifyPurchase o tbxid = Ok (PurchaseOk data) →
     cr_fetchCategoryChannel o = Ok (Some inherited) →
     cr_createChannel o = Ok channel →
     length formattedResponses ≤ 25 →
     (∀ r, r ∈ formattedResponses → withinBounds tbxIdRegex data r) →
     isOk (cr_insertTicket o) = true →
     ∃ embedFields,
       Forall2 (renders tbxIdRegex (Some (PurchaseOk data))) formattedResponses embedFields ∧
       ChannelSend (ch_id channel) (introMessage category user embedFields) ∈ evs).
Proof.
  intros Hcat fields modal evs. split.
  - unfold evs, createNewTicket. rewrite Hcat. fold fields.
    intros ch msg.
    destruct (cr_getCategoryData o); [|no_send].
    destruct (cr_fetchGuild o) as [[?|]|]; [|no_send|no_send].
    destruct (_ && _).
    + by intros ->%fastPath_sends.
    + intros (embedFields & responseData & formattedResponses & purchase
              & -> & Hs & Hf & Hv & Hr)%formPath_sends.
      by exists responseData, formattedResponses, purchase, embedFields.
  - intros responseData formattedResponses tbxid data inherited channel
      Hreq Hget Hguild Hshow Hsub Hdefer Hformat Htbx Hver Hfetch Hchan Hlen Hfit Hins.
    destruct (introFields_built data formattedResponses) as [built Hbuilt].
    destruct (introFields_fit data formattedResponses built Hbuilt) as [Hfits Hsame];
      [intros r Hr; by eapply formatResponses_answered|done|].
    exists built. split.
    { eapply mapResult_Forall2; [|exact Hbuilt]. intros r f. by apply introField_renders. }
    unfold evs, createNewTicket. rewrite Hcat. fold fields.
    destruct (cr_getCategoryData o); [|done]. rewrite Hguild, Hreq. cbn [negb andb].
    unfold formPath. fold modal.
    destruct (cr_showModal o); [|done]. rewrite Hsub.
    destruct (cr_modalDeferReply o); [|done]. rewrite Hformat.
    unfold verify. rewrite Hreq, Htbx, Hver, Hfetch, Hchan, Hbuilt.
    unfold setFields. rewrite Hfits, Hsame, (proj2 (Nat.leb_le _ _) Hlen). cbn [andb].
    apply openTicket_posts; [done|trace_prefix].
Qed.

End Intake.

Lemma unanswered_form_creates_nothing_witness :
  let w' := fst (createNewTicket Examples.tokenShape Examples.env0
                   (Examples.createOracle (Err "time")) Examples.moderator 1
                   Examples.world0) in
  created w' = [] ∧ db w' = Examples.db0.
Proof.
  pose proof (unanswered_form_creates_nothing Examples.tokenShape Examples.env0
                (Examples.createOracle (Err "time")) Examples.moderator 1
                Examples.world0 Examples.billing "time"
                eq_refl (or_introl eq_refl) eq_refl) as (Hc & Hd & _).
  exact (conj Hc Hd).
Defined.

Lemma token_answer_rendered_as_summary_witness :
  ∃ embedFields,
    Forall2 (renders Examples.tokenShape (Some (PurchaseOk Examples.payment)))
      [ {| r_label := "Transaction ID"; r_response := Examples.token; r_id := "tbxid" |};
        {| r_label := "Describe issue"; r_response := "I was charged twice";
           r_id := "1" |} ]
      embedFields ∧
    ChannelSend "702" (introMessage Examples.billing Examples.moderator embedFields)
      ∈ since Examples.world0
          (fst (createNewTicket Examples.tokenShape Examples.env0
                  (Examples.createOracle (Ok Examples.submitted))
                  Examples.moderator 1 Examples.world0)).
Proof.
  destruct (token_answer_rendered_as_summary Examples.tokenShape Examples.env0
              (Examples.createOracle (Ok Examples.submitted)) Examples.moderator
              1 Examples.world0 Examples.billing eq_refl) as [_ Hposted].
  apply (Hposted Examples.submitted _ Examples.token Examples.payment []
           {| ch_id := "702"; ch_name := "moderator" |});
    try reflexivity.
  - vm_compute. lia.
  - intros r Hr. apply list_elem_of_In in Hr.
    destruct Hr as [<-|[<-|[]]]; vm_compute; lia.
Defined.

(** C1 as stated fails: the field that stands for the submitted token
    contains the token itself, on the line Transaction ID of the summary. *)
Lemma summary_contains_the_token :
  let values :=
    Examples.postedFieldValues
      (since Examples.world0
         (fst (createNewTicket Examples.tokenShape Examples.env0
                 (Examples.createOracle (Ok Examples.submitted))
                 Examples.moderator 1 Examples.world0))) in
  Examples.tokenShape Examples.token = true ∧
  values = [ "* Transaction ID: tbx-000a0000a00000-aaa0aa" +:+ LF +:+
             "* Status: Complete" +:+ LF +:+ "* Packages: VIP, Garage";
             "I was charged twice" ] ∧
  (includes Examples.token <$> values) = [true; false].
Proof. repeat split; vm_compute; reflexivity. Qed.

(** *** Recovery *)

Lemma closedAmong_step id date ids t t' :
  closedAmong ids (if t_id t =? id then setClosedAt date t else t) t' →
  closedAmong (id :: ids) t t'.
Proof.
  unfold closedAmong. destruct (Nat.eqb_spec (t_id t) id) as [<-|Hne].
  - rewrite (bool_decide_eq_true_2 (t_id t ∈ t_id t :: ids)) by apply list_elem_of_here.
    cbn. case_bool_decide; [intros [d ->]; by exists d | intros ->; by exists date].
  - case_bool_decide as Hin.
    + rewrite bool_decide_eq_true_2; [done|by apply list_elem_of_further].
    + rewrite bool_decide_eq_false_2; [done|].
      intros [?|?]%elem_of_cons; done.
Qed.

Lemma forceClose_exact o bot row message w :
  isOk (ro_update o (t_id row)) = true → isOk (ro_create o (t_id row)) = true →
  ∃ w' date m,
    forceClose o bot row message w = (w', Ok ()) ∧
    ActiveTickets w' = ActiveTickets w ∧
    tickets (db w') = tickets (updateTicket (t_id row) (setClosedAt date) (db w)) ∧
    ticketMessages (db w') = ticketMessages (db w) ++ [m] ∧
    closureMessageFor bot row m.
Proof.
  intros Hu Hc. unfold forceClose.
  destruct (ro_update o (t_id row)); [|done].
  destruct (ro_create o (t_id row)); [|done].
  do 3 eexists. split; [reflexivity|]. cbn. repeat split.
Qed.

Lemma reloadLoop_exact o bot rows w :
  writesAnswer o rows →
  ∃ w' added,
    reloadLoop o bot rows w = (w', Ok ()) ∧
    ActiveTickets w'
    = foldl (register o) (ActiveTickets w) (List.filter (resolves o) rows) ∧
    Forall2 (closedAmong (t_id <$> List.filter (orphaned o) rows))
      (tickets (db w)) (tickets (db w')) ∧
    ticketMessages (db w') = ticketMessages (db w) ++ added ∧
    Forall2 (closureMessageFor bot) (List.filter (orphaned o) rows) added.
Proof.
  revert w. induction rows as [|row rest IH]; intros w Hw.
  { exists w, []. cbn. rewrite app_nil_r. repeat split; [|constructor].
    apply Forall2_same_length_lookup_2; [done|].
    intros i t t' H1 H2. unfold closedAmong. cbn.
    rewrite bool_decide_eq_false_2 by apply not_elem_of_nil. congruence. }
  assert (writesAnswer o rest) as Hrest.
  { intros r Hr. apply Hw. by apply list_elem_of_further. }
  destruct (Hw row (list_elem_of_here _ _)) as [Hu Hc].
  cbn [reloadLoop List.filter].
  destruct (ro_fetch o (t_channelId row)) as [[chName|]|e] eqn:Hf; cbn zeta; cbn [ch_id].
  - assert (resolves o row = true) as Hres by (unfold resolves; by rewrite Hf).
    assert (recovered o row
            = {| channel := {| ch_id := t_channelId row; ch_name := chName |};
                 ticketId := t_id row |}) as Hrec by (unfold recovered; by rewrite Hf).
    assert (orphaned o row = false) as Horph by (unfold orphaned; by rewrite Hres).
    rewrite Hres, Horph. cbn [foldl]. unfold register at 2. rewrite Hrec.
    destruct (IH (withRegistry (insert (t_channelId row)
                     {| channel := {| ch_id := t_channelId row; ch_name := chName |};
                        ticketId := t_id row |}) w) Hrest)
      as (w' & added & -> & Hreg & Hts & Hms & Hadd).
    exists w', added. repeat split; assumption.
  - assert (resolves o row = false) as Hres by (unfold resolves; by rewrite Hf).
    assert (orphaned o row = true) as Horph by (unfold orphaned; by rewrite Hres).
    rewrite Hres, Horph.
    destruct (forceClose_exact o bot row "No channel was found." w Hu Hc)
      as (w1 & date & m & -> & Hr1 & Ht1 & Hm1 & Hmark).
    destruct (IH w1 Hrest) as (w' & added & -> & Hreg & Hts & Hms & Hadd).
    exists w', (m :: added). rewrite Hreg, Hr1, Hms, Hm1, <- app_assoc.
    repeat split; [|by constructor].
    rewrite Ht1 in Hts. cbn [tickets updateTicket] in Hts.
    match type of Hts with
    | Forall2 _ (List.map ?f ?l) _ => change (List.map f l) with (f <$> l) in Hts
    end.
    rewrite Forall2_fmap_l in Hts. rewrite fmap_cons.
    eapply Forall2_impl; [exact Hts|].
    intros t t' H. eapply closedAmong_step. exact H.
  - assert (resolves o row = false) as Hres by (unfold resolves; by rewrite Hf).
    assert (orphaned o row = true) as Horph by (unfold orphaned; by rewrite Hres).
    rewrite Hres, Horph.
    destruct (forceClose_exact o bot row e w Hu Hc)
      as (w1 & date & m & -> & Hr1 & Ht1 & Hm1 & Hmark).
    destruct (IH w1 Hrest) as (w' & added & -> & Hreg & Hts & Hms & Hadd).
    exists w', (m :: added). rewrite Hreg, Hr1, Hms, Hm1, <- app_assoc.
    repeat split; [|by constructor].
    rewrite Ht1 in Hts. cbn [tickets updateTicket] in Hts.
    match type of Hts with
    | Forall2 _ (List.map ?f ?l) _ => change (List.map f l) with (f <$> l) in Hts
    end.
    rewrite Forall2_fmap_l in Hts. rewrite fmap_cons.
    eapply Forall2_impl; [exact Hts|].
    intros t t' H. eapply closedAmong_step. exact H.
Qed.

(** The registry built by the pass. *)
Lemma registered_other o rows (m0 : gmap string Ticket) ch :
  ch ∉ t_channelId <$> rows → foldl (register o) m0 rows !! ch = m0 !! ch.
Proof.
  revert m0. induction rows as [|r rest IH]; intros m0 Hch; [done|].
  rewrite fmap_cons in Hch. apply not_elem_of_cons in Hch as [Hne Hrest].
  cbn [foldl]. rewrite IH by done. unfold register. by rewrite lookup_insert_ne.
Qed.

Lemma registered_lookup o rows (m0 : gmap string Ticket) row :
  NoDup (t_channelId <$> rows) → row ∈ rows →
  foldl (register o) m0 rows !! t_channelId row = Some (recovered o row).
Proof.
  revert m0. induction rows as [|r rest IH]; intros m0 Hnd Hin;
    [by apply elem_of_nil in Hin|].
  rewrite fmap_cons in Hnd. apply NoDup_cons in Hnd as [Hr Hnd].
  cbn [foldl]. apply elem_of_cons in Hin as [->|Hin].
  - rewrite registered_other by done. unfold register. apply lookup_insert_eq.
  - by apply IH.
Qed.

Lemma registered_size o rows (m0 : gmap string Ticket) :
  NoDup (t_channelId <$> rows) →
  (∀ row, row ∈ rows → m0 !! t_channelId row = None) →
  size (foldl (register o) m0 rows) = size m0 + length rows.
Proof.
  revert m0. induction rows as [|r rest IH]; intros m0 Hnd Hfree; cbn [foldl length].
  { lia. }
  rewrite fmap_cons in Hnd. apply NoDup_cons in Hnd as [Hr Hnd].
  rewrite IH; [|done|].
  - unfold register. rewrite map_size_insert_None; [lia|].
    apply Hfree, list_elem_of_here.
  - intros row Hin. unfold register. rewrite lookup_insert_ne.
    + by apply Hfree, list_elem_of_further.
    + intros E. apply Hr. rewrite E. by apply list_elem_of_fmap_2.
Qed.

Lemma filter_sublist {A} (p : A → bool) (l : list A) : List.filter p l `sublist_of` l.
Proof.
  induction l as [|x l IH]; cbn; [constructor|]. destruct (p x); by constructor.
Qed.

Lemma elem_of_filter_bool {A} (p : A → bool) (l : list A) x :
  x ∈ List.filter p l ↔ x ∈ l ∧ p x = true.
Proof. rewrite !list_elem_of_In. apply filter_In. Qed.

Lemma NoDup_fmap_filter {A B} (f : A → B) (p : A → bool) (l : list A) :
  NoDup (f <$> l) → NoDup (f <$> List.filter p l).
Proof.
  intros H. eapply sublist_NoDup; [exact H|]. apply fmap_sublist, filter_sublist.
Qed.

(** Rows with distinct identities are found by their identity. *)
Lemma find_by_id (l : list TicketRow) row :
  NoDup (t_id <$> l) → row ∈ l →
  List.find (λ t, t_id t =? t_id row) l = Some row.
Proof.
  induction l as [|t l IH]; intros Hnd Hin; [by apply elem_of_nil in Hin|].
  rewrite fmap_cons in Hnd. apply NoDup_cons in Hnd as [Ht Hnd]. cbn.
  apply elem_of_cons in Hin as [->|Hin]; [by rewrite Nat.eqb_refl|].
  destruct (Nat.eqb_spec (t_id t) (t_id row)) as [E|_]; [|by apply IH].
  destruct Ht. rewrite E. by apply list_elem_of_fmap_2.
Qed.

Lemma same_id_same_row (l : list TicketRow) a b :
  NoDup (t_id <$> l) → a ∈ l → b ∈ l → t_id a = t_id b → a = b.
Proof.
  intros Hnd Ha Hb E. pose proof (find_by_id l a Hnd Ha) as Fa.
  pose proof (find_by_id l b Hnd Hb) as Fb. rewrite E in Fa. congruence.
Qed.

Lemma closedAmong_id ids t t' : closedAmong ids t t' → t_id t' = t_id t.
Proof. unfold closedAmong. case_bool_decide; [by intros [d ->]|by intros ->]. Qed.

Lemma find_closedAmong ids (l l' : list TicketRow) id t :
  Forall2 (closedAmong ids) l l' →
  List.find (λ t, t_id t =? id) l = Some t →
  ∃ t', List.find (λ t, t_id t =? id) l' = Some t' ∧ closedAmong ids t t'.
Proof.
  induction 1 as [|x x' l l' Hx Hl IH]; [done|]. cbn.
  rewrite (closedAmong_id _ _ _ Hx).
  destruct (t_id x =? id); [intros [= <-]; eauto | exact IH].
Qed.

Lemma open_closedAmong ids (l l' : list TicketRow) :
  Forall2 (closedAmong ids) l l' →
  List.filter (λ t, match t_closedAt t with None => true | Some _ => false end) l'
  = List.filter (λ t, negb (bool_decide (t_id t ∈ ids)))
      (List.filter (λ t, match t_closedAt t with None => true | Some _ => false end) l).
Proof.
  induction 1 as [|x x' l l' Hx Hl IH]; [done|]. cbn. unfold closedAmong in Hx.
  case_bool_decide as Hin.
  - destruct Hx as [d ->]. cbn. rewrite IH.
    destruct (t_closedAt x); [done|]. cbn. by rewrite bool_decide_eq_true_2.
  - subst x'. rewrite IH. destruct (t_closedAt x); [done|]. cbn.
    by rewrite bool_decide_eq_false_2.
Qed.

(** The closure messages the pass appended, by ticket. *)
Lemma appended_for bot (os : list TicketRow) (added : list MessageRow) id :
  Forall2 (closureMessageFor bot) os added →
  NoDup (t_id <$> os) →
  (∀ row, row ∈ os → t_id row = id →
     ∃ m, List.filter (λ m, m_ticket m =? id) added = [m] ∧ closureMessageFor bot row m) ∧
  (id ∉ t_id <$> os → List.filter (λ m, m_ticket m =? id) added = []).
Proof.
  induction 1 as [|r m os added Hm Hrest IH]; intros Hnd.
  { split; [by intros ? ?%elem_of_nil|done]. }
  rewrite fmap_cons in Hnd. apply NoDup_cons in Hnd as [Hr Hnd].
  destruct (IH Hnd) as [IH1 IH2]. cbn [List.filter].
  pose proof Hm as (Hticket & _). rewrite Hticket. split.
  - intros row [->|Hin]%elem_of_cons Hid.
    + rewrite Hid, Nat.eqb_refl. exists m. split; [|done].
      f_equal. apply IH2. by rewrite <- Hid.
    + destruct (Nat.eqb_spec (t_id r) id) as [E|_]; [|by apply IH1].
      destruct Hr. rewrite E, <- Hid. by apply list_elem_of_fmap_2.
  - rewrite fmap_cons. intros [Hne Hnot]%not_elem_of_cons.
    destruct (Nat.eqb_spec (t_id r) id) as [E|_]; [done|by apply IH2].
Qed.

Lemma messagesOf_app d d' added id :
  ticketMessages d' = ticketMessages d ++ added →
  messagesOf d' id = messagesOf d id ++ List.filter (λ m, m_ticket m =? id) added.
Proof. intros H. unfold messagesOf. by rewrite H, List.filter_app. Qed.

(** What recovery appends is the marker and nothing else: the serialized
    embed that has a title only, inside the embed marker. *)
Lemma closureMessageFor_marker bot row m :
  closureMessageFor bot row m →
  m_content m = Some ("<EMBED:{" +:+ DQ +:+ "title" +:+ DQ +:+ ":" +:+ DQ +:+
                      "Ticket closed" +:+ DQ +:+ "}>") ∧
  hasEmbedMarker m = true ∧ richContentOnly m = true.
Proof.
  intros (_ & _ & _ & _ & Hcontent & _).
  unfold hasEmbedMarker, richContentOnly, hasEmbedMarker. rewrite Hcontent.
  repeat split; vm_compute; reflexivity.
Qed.

(** C9: a startup pass over the N persisted tickets without closed
    timestamp, M of which have a channel that does not resolve (the fetch
    throws or returns null), the store answering the writes: each of the M
    gets its closed timestamp set and exactly one closure message appended
    to its log, attributed to the bot, whose content is the minimal
    marker (the embed marker around an embed that has a title only, and
    no text), and is not registered; each of the other N-M is registered
    under its channel, stays open and keeps its log; a failing fetch does
    not end the pass, which returns normally. *)
Theorem recovery_closes_exactly_the_orphans o bot w :
  ActiveTickets w = ∅ →
  isOk (ro_findMany o) = true →
  writesAnswer o (openTickets (db w)) →
  NoDup (t_id <$> tickets (db w)) →
  NoDup (t_channelId <$> openTickets (db w)) →
  let rows := openTickets (db w) in
  let w' := fst (reloadTickets o bot w) in
  snd (reloadTickets o bot w) = Ok () ∧
  (∀ row, row ∈ rows → resolves o row = true →
     getTicket (t_channelId row) w' = Some (recovered o row) ∧
     findTicket (db w') (t_id row) = Some row ∧
     messagesOf (db w') (t_id row) = messagesOf (db w) (t_id row)) ∧
  (∀ row, row ∈ rows → resolves o row = false →
     getTicket (t_channelId row) w' = None ∧
     (∃ date closed, findTicket (db w') (t_id row) = Some closed ∧
                     closed = setClosedAt date row ∧ t_closedAt closed = Some date) ∧
     (∃ m, messagesOf (db w') (t_id row) = messagesOf (db w) (t_id row) ++ [m] ∧
           closureMessageFor bot row m ∧
           m_content m = Some ("<EMBED:{" +:+ DQ +:+ "title" +:+ DQ +:+ ":" +:+ DQ +:+
                               "Ticket closed" +:+ DQ +:+ "}>") ∧
           hasEmbedMarker m = true ∧ richContentOnly m = true)) ∧
  openTickets (db w') = List.filter (resolves o) rows ∧
  size (ActiveTickets w') = length rows - length (List.filter (orphaned o) rows).
Proof.
  intros Hempty Hfind Hwrites Hids Hchans rows w'.
  destruct (reloadLoop_exact o bot rows w Hwrites)
    as (wl & added & Hloop & Hreg & Hts & Hms & Hadd).
  assert (reloadTickets o bot w
          = (emit (Log Success ("Reloaded " +:+ pretty (size (ActiveTickets wl)) +:+
                                " tickets from database")) wl, Ok ())) as Hrun.
  { unfold reloadTickets. destruct (ro_findMany o); [|done]. fold rows. by rewrite Hloop. }
  unfold w'. rewrite Hrun. cbn [fst snd].
  rewrite Hempty in Hreg.
  assert (∀ row, row ∈ rows → row ∈ tickets (db w)) as Hin_table.
  { intros row Hrow. unfold rows, openTickets in Hrow.
    by apply elem_of_filter_bool in Hrow as [? _]. }
  assert (∀ row, row ∈ rows →
            bool_decide (t_id row ∈ t_id <$> List.filter (orphaned o) rows)
            = orphaned o row) as Horph.
  { intros row Hrow. case_bool_decide as Hin.
    - apply list_elem_of_fmap in Hin as (r & Hid & [Hr Ho]%elem_of_filter_bool).
      assert (row = r) as -> by (eapply same_id_same_row; eauto). done.
    - destruct (orphaned o row) eqn:Ho; [|done]. destruct Hin.
      apply list_elem_of_fmap_2. by apply elem_of_filter_bool. }
  assert (NoDup (t_id <$> rows)) as Hrow_ids.
  { unfold rows, openTickets. by apply NoDup_fmap_filter. }
  assert (∀ row, row ∈ rows →
            ∃ t', findTicket (db wl) (t_id row) = Some t' ∧
                  closedAmong (t_id <$> List.filter (orphaned o) rows) row t') as Hfound.
  { intros row Hrow. eapply find_closedAmong; [exact Hts|].
    apply find_by_id; auto. }
  split; [done|]. split; [|split; [|split]].
  - intros row Hrow Hres. cbn [db emit ActiveTickets]. unfold getTicket. cbn [ActiveTickets emit].
    split; [|split].
    + rewrite Hreg. apply registered_lookup.
      * by apply NoDup_fmap_filter.
      * by apply elem_of_filter_bool.
    + destruct (Hfound row Hrow) as (t' & -> & Hc). unfold closedAmong in Hc.
      rewrite (Horph row Hrow) in Hc. unfold orphaned in Hc. rewrite Hres in Hc.
      cbn in Hc. by subst.
    + rewrite (messagesOf_app (db w) (db wl) added _ Hms).
      destruct (appended_for bot _ added (t_id row) Hadd
                  (NoDup_fmap_filter _ _ _ Hrow_ids)) as [_ Hnone].
      rewrite Hnone; [by rewrite app_nil_r|].
      intros Hin. pose proof (Horph row Hrow) as Ho.
      rewrite bool_decide_eq_true_2 in Ho by exact Hin.
      unfold orphaned in Ho. by rewrite Hres in Ho.
  - intros row Hrow Hres. unfold getTicket. cbn [db emit ActiveTickets].
    split; [|split].
    + rewrite Hreg, registered_other; [apply lookup_empty|].
      intros (r & Hch & [Hr Hrr]%elem_of_filter_bool)%list_elem_of_fmap.
      unfold resolves in Hres, Hrr. rewrite Hch in Hres. congruence.
    + destruct (Hfound row Hrow) as (t' & -> & Hc). unfold closedAmong in Hc.
      rewrite (Horph row Hrow) in Hc. unfold orphaned in Hc. rewrite Hres in Hc.
      cbn in Hc. destruct Hc as [date ->]. by exists date, (setClosedAt date row).
    + rewrite (messagesOf_app (db w) (db wl) added _ Hms).
      destruct (appended_for bot _ added (t_id row) Hadd
                  (NoDup_fmap_filter _ _ _ Hrow_ids)) as [Hone _].
      destruct (Hone row) as (m & -> & Hm); [|done|].
      * apply elem_of_filter_bool. split; [done|]. unfold orphaned. by rewrite Hres.
      * exists m. split; [done|]. split; [done|]. by eapply closureMessageFor_marker.
  - cbn [db emit]. unfold openTickets at 1.
    rewrite (open_closedAmong _ _ _ Hts). fold (openTickets (db w)). fold rows.
    apply filter_ext_in. intros row Hrow%list_elem_of_In.
    rewrite (Horph row Hrow). unfold orphaned. by rewrite negb_involutive.
  - cbn [ActiveTickets emit]. rewrite Hreg, registered_size.
    + rewrite map_size_empty. cbn [Nat.add].
      assert (∀ l : list TicketRow,
                length l = length (List.filter (resolves o) l)
                           + length (List.filter (orphaned o) l)) as Hlen.
      { induction l as [|x l IHl]; [done|]. cbn [List.filter]. unfold orphaned at 1.
        destruct (resolves o x); cbn [negb length]; lia. }
      rewrite (Hlen rows). lia.
    + by apply NoDup_fmap_filter.
    + intros row _. apply lookup_empty.
Qed.

Lemma recovery_closes_exactly_the_orphans_witness :
  let w' := fst (reloadTickets Examples.reloadOracle Examples.bot Examples.startup) in
  snd (reloadTickets Examples.reloadOracle Examples.bot Examples.startup) = Ok () ∧
  (getTicket "700" w' = Some (recovered Examples.reloadOracle Examples.aliceTicket) ∧
   findTicket (db w') 1 = Some Examples.aliceTicket ∧
   messagesOf (db w') 1 = messagesOf (db Examples.startup) 1) ∧
  (getTicket "701" w' = None ∧
   (∃ date closed, findTicket (db w') 2 = Some closed ∧
                   closed = setClosedAt date Examples.orphanTicket ∧
                   t_closedAt closed = Some date) ∧
   (∃ m, messagesOf (db w') 2 = messagesOf (db Examples.startup) 2 ++ [m] ∧
         closureMessageFor Examples.bot Examples.orphanTicket m ∧
         m_content m = Some ("<EMBED:{" +:+ DQ +:+ "title" +:+ DQ +:+ ":" +:+ DQ +:+
                             "Ticket closed" +:+ DQ +:+ "}>") ∧
         hasEmbedMarker m = true ∧ richContentOnly m = true)) ∧
  openTickets (db w') = [Examples.aliceTicket] ∧ size (ActiveTickets w') = 1.
Proof.
  assert (writesAnswer Examples.reloadOracle (openTickets (db Examples.startup))) as Hw.
  { intros row _. split; reflexivity. }
  assert (NoDup (t_id <$> tickets (db Examples.startup))) as Hids.
  { refine (bool_decide_unpack _ _). vm_compute. exact I. }
  assert (NoDup (t_channelId <$> openTickets (db Examples.startup))) as Hchans.
  { refine (bool_decide_unpack _ _). vm_compute. exact I. }
  destruct (recovery_closes_exactly_the_orphans Examples.reloadOracle Examples.bot
              Examples.startup eq_refl eq_refl Hw Hids Hchans)
    as (Hres & Hkept & Hclosed & Hopen & Hsize).
  split; [exact Hres|]. split; [|split; [|split; [exact Hopen | exact Hsize]]].
  - apply (Hkept Examples.aliceTicket); [apply list_elem_of_here | reflexivity].
  - apply (Hclosed Examples.orphanTicket);
      [apply list_elem_of_further, list_elem_of_here | reflexivity].
Defined.

(** The pass on the example: the ticket whose channel is gone is closed,
    with the marker of the bot as its only message. *)
Example recovery_run :
  let w' := fst (reloadTickets Examples.reloadOracle Examples.bot Examples.startup) in
  getTicket "700" w' = Some Examples.aliceOpen ∧
  getTicket "701" w' = None ∧
  t_closedAt <$> findTicket (db w') 2 = Some (Some 100%Z) ∧
  (λ m, (m_authorId m, m_content m)) <$> messagesOf (db w') 2
  = [("9000", Some ("<EMBED:{" +:+ DQ +:+ "title" +:+ DQ +:+ ":" +:+ DQ +:+
                    "Ticket closed" +:+ DQ +:+ "}>"))].
Proof. repeat split; vm_compute; reflexivity. Qed.

(** A throw of the store inside the catch block is not caught: it ends
    the pass, and the rows after the orphan are not visited. *)
Example recovery_ends_on_a_refused_write :
  snd (reloadTickets Examples.refusingStore Examples.bot Examples.orphanFirst)
  = Err "connection lost" ∧
  getTicket "700"
    (fst (reloadTickets Examples.refusingStore Examples.bot Examples.orphanFirst))
  = None.
Proof. split; vm_compute; reflexivity. Qed.

End HandlerFacts.

(** ** Properties of the rendering of one message *)

Module RenderingFacts.
Import Js Store Transcript TicketHandler Rendering JsFacts.

Lemma all_chars_app p a b :
  all_chars p (a +:+ b) = (all_chars p a && all_chars p b).
Proof.
  induction a as [|c a IH]; [done|].
  rewrite append_cons. cbn. by rewrite IH, andb_assoc.
Qed.

(** The replacement of a code unit by [escapeHtml], case by case. *)
Lemma escapeChar_cases c :
  (c = "&"%char ∧ escapeChar c = "&amp;") ∨
  (c = "<"%char ∧ escapeChar c = "&lt;") ∨
  (c = ">"%char ∧ escapeChar c = "&gt;") ∨
  (c = "034"%char ∧ escapeChar c = "&quot;") ∨
  (c = "'"%char ∧ escapeChar c = "&#039;") ∨
  ((c ∉ escaped) ∧ escapeChar c = String c EmptyString).
Proof.
  unfold escapeChar.
  repeat (case_decide; [subst; tauto|]).
  do 5 right. split; [|done]. unfold escaped.
  rewrite !not_elem_of_cons. repeat split; try done. apply not_elem_of_nil.
Qed.

Ltac here_or_further :=
  repeat first [apply list_elem_of_here | apply list_elem_of_further].

Ltac escape_cases c H :=
  destruct (escapeChar_cases c)
    as [[-> H]|[[-> H]|[[-> H]|[[-> H]|[[-> H]|[? H]]]]]]; rewrite H.

(** X1.  [escapeHtml] leaves no code unit that opens or closes a tag or
    an attribute value: its output holds no [<], no [>], no double quote
    and no apostrophe, whatever the text. *)
Theorem escapeHtml_leaves_no_delimiter (text : string) :
  all_chars (λ c, negb (isDelimiter c)) (escapeHtml text) = true.
Proof.
  induction text as [|c r IH]; [done|].
  cbn [escapeHtml]. rewrite all_chars_app, IH, andb_true_r.
  escape_cases c E; try done.
  cbn. rewrite andb_true_r. apply negb_true_iff, bool_decide_eq_false.
  intros Hin. apply H. unfold escaped. by apply list_elem_of_further.
Qed.

(** X2.  [escapeHtml] loses nothing: two texts with the same escaped form
    are the same text. *)
Theorem escapeHtml_injective (a b : string) :
  escapeHtml a = escapeHtml b ↔ a = b.
Proof.
  split; [|by intros ->].
  revert b. induction a as [|c a IH]; intros [|d b] E; [done| | |].
  - exfalso. cbn [escapeHtml] in E. revert E. escape_cases d Ed; done.
  - exfalso. cbn [escapeHtml] in E. revert E. escape_cases c Ec; done.
  - cbn [escapeHtml] in E. revert E.
    escape_cases c Ec; escape_cases d Ed; cbn; intros E;
      try discriminate E;
      try (injection E as E; f_equal; by apply IH);
      try (injection E as -> E; f_equal; by apply IH);
      exfalso; injection E as E1 E2;
      match goal with
      | Hn : _ ∉ _ |- _ => apply Hn; subst; unfold escaped; here_or_further
      end.
Qed.

(** *** Lines of a staff message *)

Lemma replace_from_prev m s :
  (∀ p p' t, m p t = m p' t) →
  ∀ p p' k, replace_from m p k s = replace_from m p' k s.
Proof.
  intros Hm. destruct s as [|c r]; intros p p' k; [done|].
  cbn. destruct k; [|done]. by rewrite (Hm p p').
Qed.

Lemma replace_from_silent_app p m x y :
  silent_on p m → (∀ q q' t, m q t = m q' t) → all_chars p x = true →
  ∀ prev, replace_from m prev 0 (x +:+ y) = x +:+ replace_from m None 0 y.
Proof.
  intros Hs Hm. induction x as [|c x IH]; intros Hx prev.
  - by apply replace_from_prev.
  - cbn in Hx. apply andb_prop in Hx as [Hc Hx].
    rewrite !append_cons. cbn [replace_from].
    rewrite (Hs prev c (x +:+ y) Hc). f_equal. by apply IH.
Qed.

Lemma split_cons sep s : ∃ part parts, split sep s = part :: parts.
Proof.
  destruct s as [|c r]; [by eexists _, _|].
  cbn. case_decide; [by eexists _, _|].
  destruct (split sep r); by eexists _, _.
Qed.

Lemma join_cons_cons sep a b l :
  join sep (a :: b :: l) = a +:+ sep +:+ join sep (b :: l).
Proof. reflexivity. Qed.

Lemma join_head_app sep a part parts :
  join sep ((a +:+ part) :: parts) = a +:+ join sep (part :: parts).
Proof.
  destruct parts as [|b l]; [done|].
  rewrite !join_cons_cons. by rewrite HandlerFacts.append_assoc.
Qed.

Lemma escapeChar_no_line_feed c :
  c ≠ "010"%char →
  all_chars (λ x, negb (bool_decide (x = "010"%char))) (escapeChar c) = true.
Proof.
  intros Hc. escape_cases c E; try done.
  cbn. rewrite andb_true_r. by apply negb_true_iff, bool_decide_eq_false.
Qed.

Lemma line_feed_to_break_lines s :
  replaceAll (line_feed "<br>") (escapeHtml s)
  = join "<br>" (escapeHtml <$> split "010" s).
Proof.
  unfold replaceAll. induction s as [|c r IH]; [done|].
  cbn [escapeHtml split].
  destruct (split_cons "010" r) as (part & parts & E).
  case_decide as Hc.
  - subst c. rewrite E in *. cbn [fmap list_fmap].
    change (list_fmap _ _ escapeHtml parts) with (escapeHtml <$> parts) in *.
    rewrite fmap_cons in IH.
    change (escapeHtml EmptyString) with EmptyString.
    rewrite join_cons_cons, <- IH.
    change (escapeChar "010") with (String "010"%char EmptyString).
    rewrite append_cons, !append_nil. cbn [replace_from].
    unfold line_feed at 1. rewrite decide_True by done. cbn [pred].
    f_equal. apply replace_from_prev. by intros.
  - rewrite E in *. rewrite fmap_cons in *. cbn [escapeHtml].
    rewrite join_head_app, <- IH.
    apply (replace_from_silent_app (λ x, negb (bool_decide (x = "010"%char)))).
    + by apply line_feed_silent.
    + by intros.
    + by apply escapeChar_no_line_feed.
Qed.

(** X3.  The content of a staff message in the staff transcript: the
    lines of the message, each escaped by [escapeHtml], joined by [<br>].
    The second substitution of the source does not touch what the first
    produced. *)
Theorem staff_content_escapes_each_line (content : string) :
  staffContent content = join "<br>" (escapeHtml <$> split "010" content).
Proof.
  unfold staffContent. destruct content as [|c r]; [done|].
  cbn [truthy]. apply line_feed_to_break_lines.
Qed.

(** *** Embed blocks: what [handleNewMessage] writes, [generateHTML] reads *)

Lemma match_from_prev m s :
  (∀ p p' t, m p t = m p' t) →
  ∀ p p' k, match_from m p k s = match_from m p' k s.
Proof.
  intros Hm. destruct s as [|c r]; intros p p' k; [done|].
  cbn. destruct k; [|done]. by rewrite (Hm p p').
Qed.

Lemma replace_from_skip m x y :
  (∀ p p' t, m p t = m p' t) →
  ∀ prev, replace_from m prev (String.length x) (x +:+ y) = replace_from m None 0 y.
Proof.
  intros Hm. induction x as [|c x IH]; intros prev.
  - by apply replace_from_prev.
  - rewrite append_cons. cbn. apply IH.
Qed.

Lemma match_from_skip m x y :
  (∀ p p' t, m p t = m p' t) →
  ∀ prev, match_from m prev (String.length x) (x +:+ y) = match_from m None 0 y.
Proof.
  intros Hm. induction x as [|c x IH]; intros prev.
  - by apply match_from_prev.
  - rewrite append_cons. cbn. apply IH.
Qed.

Lemma length_append (a b : string) :
  String.length (a +:+ b) = String.length a + String.length b.
Proof. induction a as [|c a IH]; [done|]. rewrite append_cons. cbn. by rewrite IH. Qed.

Lemma substring_append (a b : string) :
  String.substring 0 (String.length a) (a +:+ b) = a.
Proof. induction a as [|c a IH]; [by destruct b|]. rewrite append_cons. cbn. by rewrite IH. Qed.

Lemma includes_cons needle c r :
  includes needle (String c r) = false →
  String.prefix needle (String c r) = false ∧ includes needle r = false.
Proof. cbn -[String.prefix]. by destruct (String.prefix _ _). Qed.

Lemma lazy_until_found json rest :
  includes ">" json = false →
  lazy_until ">" true (json +:+ ">" +:+ rest) = Some json.
Proof.
  induction json as [|c j IH]; intros Hj.
  { rewrite append_nil. change (">" +:+ rest) with (String ">" rest).
    cbn. by destruct rest. }
  apply includes_cons in Hj as [Hc Hj].
  rewrite append_cons. cbn -[String.prefix].
  assert (Hne : ">"%char ≠ c).
  { intros <-. change (String ">" j) with (">" +:+ j) in Hc.
    by rewrite prefix_app in Hc. }
  by rewrite prefix_head_ne, (IH Hj).
Qed.

Lemma embedBlock_fires prev json rest :
  includes ">" json = false →
  embedBlock prev (embedMarker json +:+ rest)
  = Some (EmptyString, String.length (embedMarker json)).
Proof.
  intros Hj. unfold embedBlock, enclosed, embedMarker.
  rewrite !HandlerFacts.append_assoc, prefix_app.
  change (drop_str (String.length "<EMBED:") ("<EMBED:" +:+ ?x)) with x.
  rewrite (lazy_until_found json rest Hj).
  rewrite !length_append. do 2 f_equal; try lia.
Qed.

Lemma embedBlock_replaced json rest prev :
  includes ">" json = false →
  replace_from embedBlock prev 0 (embedMarker json +:+ rest)
  = replace_from embedBlock None 0 rest.
Proof.
  intros Hj.
  pose proof (embedBlock_fires prev json rest Hj) as Hfire.
  assert (Hshape : ∃ x, embedMarker json = String "<" x) by by eexists.
  destruct Hshape as [x Hx]. rewrite Hx in *. rewrite append_cons in *.
  cbn [replace_from]. rewrite Hfire. cbn [String.length pred].
  rewrite append_nil. apply replace_from_skip. by intros.
Qed.

Lemma embedBlock_matched json rest prev :
  includes ">" json = false →
  match_from embedBlock prev 0 (embedMarker json +:+ rest)
  = embedMarker json :: match_from embedBlock None 0 rest.
Proof.
  intros Hj.
  pose proof (embedBlock_fires prev json rest Hj) as Hfire.
  pose proof (substring_append (embedMarker json) rest) as Hsub.
  assert (Hshape : ∃ x, embedMarker json = String "<" x) by by eexists.
  destruct Hshape as [x Hx]. rewrite Hx in *. rewrite append_cons in *.
  cbn [match_from]. rewrite Hfire, Hsub. cbn [String.length pred].
  f_equal. apply match_from_skip. by intros.
Qed.

(** A prefix without a line feed that starts before a line feed ends
    before it. *)
Lemma prefix_before_line_feed p a t :
  all_chars (λ x, negb (bool_decide (x = "010"%char))) p = true →
  String.prefix p (a +:+ String "010" t) = true → String.prefix p a = true.
Proof.
  revert a. induction p as [|x p IH]; intros a Hp H; [by destruct a|].
  cbn in Hp. apply andb_prop in Hp as [Hx Hp].
  apply negb_true_iff, bool_decide_eq_false in Hx.
  destruct a as [|y a].
  - rewrite append_nil in H. by rewrite prefix_head_ne in H.
  - rewrite append_cons in H. cbn in H |- *.
    destruct (Ascii.ascii_dec x y); [|done]. by apply IH.
Qed.

(** The tail a logged content is followed by: nothing, or text that starts
    with a line feed. *)
Lemma embedBlock_silent_before c r t prev :
  String.prefix "<EMBED:" (String c r) = false →
  t = EmptyString ∨ (∃ t', t = String "010" t') →
  embedBlock prev (String c (r +:+ t)) = None.
Proof.
  intros Hc Ht. unfold embedBlock, enclosed.
  replace (String.prefix "<EMBED:" (String c (r +:+ t))) with false; [done|].
  symmetry. apply not_true_is_false. intros H. rewrite <- append_cons in H.
  destruct Ht as [->|[t' ->]].
  - rewrite HandlerFacts.append_nil_r in H. congruence.
  - apply prefix_before_line_feed in H; [congruence|done].
Qed.

Lemma content_copied content t prev :
  includes "<EMBED:" content = false →
  t = EmptyString ∨ (∃ t', t = String "010" t') →
  replace_from embedBlock prev 0 (content +:+ t)
  = content +:+ replace_from embedBlock None 0 t.
Proof.
  intros Hc Ht. revert prev. induction content as [|c r IH]; intros prev.
  - by apply replace_from_prev.
  - apply includes_cons in Hc as [Hc Hr]. rewrite !append_cons.
    cbn [replace_from]. rewrite embedBlock_silent_before by done.
    f_equal. by apply IH.
Qed.

Lemma content_unmatched content t prev :
  includes "<EMBED:" content = false →
  t = EmptyString ∨ (∃ t', t = String "010" t') →
  match_from embedBlock prev 0 (content +:+ t) = match_from embedBlock None 0 t.
Proof.
  intros Hc Ht. revert prev. induction content as [|c r IH]; intros prev.
  - by apply match_from_prev.
  - apply includes_cons in Hc as [Hc Hr]. rewrite !append_cons.
    cbn [match_from]. rewrite embedBlock_silent_before by done.
    by apply IH.
Qed.

(** The blocks [handleNewMessage] appends. *)
Lemma blocks_cons json embeds :
  join LF ((λ json, embedMarker json +:+ LF) <$> json :: embeds)
  = embedMarker json +:+
    String "010" (match embeds with
                  | [] => EmptyString
                  | _ => String "010"
                           (join LF ((λ json, embedMarker json +:+ LF) <$> embeds))
                  end).
Proof.
  destruct embeds as [|j2 rest]; [done|].
  rewrite !fmap_cons, join_cons_cons.
  by rewrite !HandlerFacts.append_assoc.
Qed.

Lemma line_feed_copied x prev :
  replace_from embedBlock prev 0 (String "010" x)
  = String "010" (replace_from embedBlock None 0 x).
Proof.
  cbn [replace_from]. change (embedBlock prev (String "010" x)) with (@None (string * nat)).
  f_equal. apply replace_from_prev. by intros.
Qed.

Lemma line_feed_unmatched x prev :
  match_from embedBlock prev 0 (String "010" x) = match_from embedBlock None 0 x.
Proof.
  cbn [match_from]. change (embedBlock prev (String "010" x)) with (@None (string * nat)).
  apply match_from_prev. by intros.
Qed.

Lemma blocks_replaced embeds :
  Forall (λ json, includes ">" json = false) embeds →
  all_chars isWhiteSpace
    (replace_from embedBlock None 0
       (join LF ((λ json, embedMarker json +:+ LF) <$> embeds))) = true.
Proof.
  induction 1 as [|json embeds Hj Hrest IH]; [done|].
  rewrite blocks_cons, embedBlock_replaced by done.
  destruct embeds as [|j2 rest]; [done|].
  rewrite !line_feed_copied. cbn [all_chars]. by rewrite IH.
Qed.

Lemma blocks_matched embeds :
  Forall (λ json, includes ">" json = false) embeds →
  match_from embedBlock None 0
    (join LF ((λ json, embedMarker json +:+ LF) <$> embeds))
  = embedMarker <$> embeds.
Proof.
  induction 1 as [|json embeds Hj Hrest IH]; [done|].
  rewrite blocks_cons, embedBlock_matched by done.
  rewrite fmap_cons. f_equal.
  destruct embeds as [|j2 rest]; [done|].
  by rewrite !line_feed_unmatched.
Qed.

(** What [handleNewMessage] stores for a message with embeds. *)
Lemma storedContent_embeds message json embeds :
  msg_embeds message = json :: embeds →
  storedContent message
  = msg_content message +:+
    match msg_content message with
    | EmptyString => join LF ((λ json, embedMarker json +:+ LF) <$> json :: embeds)
    | _ => String "010" (String "010"
             (join LF ((λ json, embedMarker json +:+ LF) <$> json :: embeds)))
    end.
Proof.
  intros E. unfold storedContent. rewrite E.
  by destruct (msg_content message).
Qed.

Lemma trimEnd_white ws : all_chars isWhiteSpace ws = true → trimEnd ws = EmptyString.
Proof.
  induction ws as [|c r IH]; [done|]. cbn.
  intros [Hc Hr]%andb_prop. by rewrite (IH Hr), Hc.
Qed.

Lemma trimStart_white ws : all_chars isWhiteSpace ws = true → trimStart ws = EmptyString.
Proof.
  induction ws as [|c r IH]; [done|]. cbn.
  intros [Hc Hr]%andb_prop. by rewrite Hc, (IH Hr).
Qed.

Lemma trimEnd_app_white s ws :
  all_chars isWhiteSpace ws = true → trimEnd (s +:+ ws) = trimEnd s.
Proof.
  intros Hws. induction s as [|c r IH]; [by apply trimEnd_white|].
  rewrite append_cons. cbn. by rewrite IH.
Qed.

Lemma trim_app_white s ws :
  all_chars isWhiteSpace ws = true → trim (s +:+ ws) = trim s.
Proof.
  intros Hws. unfold trim. induction s as [|c r IH].
  - by rewrite append_nil, trimStart_white.
  - rewrite append_cons. cbn [trimStart]. destruct (isWhiteSpace c); [done|].
    rewrite <- append_cons. by apply trimEnd_app_white.
Qed.

Lemma embedMatches_storedContent message :
  includes "<EMBED:" (msg_content message) = false →
  (∀ json, json ∈ msg_embeds message → includes ">" json = false) →
  embedMatches (storedContent message) = embedMarker <$> msg_embeds message.
Proof.
  intros Hc Hj. apply Forall_forall in Hj.
  unfold embedMatches, matchAll.
  destruct (msg_embeds message) as [|json embeds] eqn:E.
  - unfold storedContent. rewrite E.
    rewrite <- (HandlerFacts.append_nil_r (msg_content message)).
    rewrite content_unmatched; [done | done | by left].
  - rewrite (storedContent_embeds message json embeds E).
    destruct (msg_content message) as [|c r] eqn:Ec.
    + rewrite append_nil. by apply blocks_matched.
    + rewrite content_unmatched; [| done | by right; eexists].
      rewrite !line_feed_unmatched. by apply blocks_matched.
Qed.

Lemma replaceFirst_here pattern rep s :
  String.prefix pattern s = true →
  replaceFirst pattern rep s = rep +:+ drop_str (String.length pattern) s.
Proof. intros H. destruct s; cbn -[String.prefix]; by rewrite H. Qed.

Lemma replaceFirst_closing json :
  includes ">" json = false → replaceFirst ">" EmptyString (json +:+ ">") = json.
Proof.
  induction json as [|c j IH]; intros Hj; [done|].
  apply includes_cons in Hj as [Hc Hj].
  rewrite append_cons. cbn -[String.prefix].
  assert (Hne : ">"%char ≠ c).
  { intros <-. change (String ">" j) with (">" +:+ j) in Hc.
    by rewrite prefix_app in Hc. }
  by rewrite prefix_head_ne, (IH Hj).
Qed.

Lemma parseEmbed_marker {A} (JSONparse : string → result A) json :
  includes ">" json = false →
  parseEmbed JSONparse (embedMarker json)
  = match JSONparse json with Ok embed => Some embed | Err _ => None end.
Proof.
  intros Hj. unfold parseEmbed, embedMarker.
  rewrite (replaceFirst_here "<EMBED:") by apply prefix_app.
  change (drop_str (String.length "<EMBED:") ("<EMBED:" +:+ ?x)) with x.
  by rewrite append_nil, replaceFirst_closing.
Qed.

(** X4.  What [handleNewMessage] writes, [generateHTML] reads back: when
    the text of a message holds no embed marker of its own and the JSON
    text of no embed holds a [>], the blocks found in the stored content
    are the markers of the embeds of the message, in order, and
    [parseEmbed] hands the JSON text of each to [JSON.parse] unchanged. *)
Theorem logged_embeds_are_read_back {A : Type} (JSONparse : string → result A)
    (message : Message) :
  includes "<EMBED:" (msg_content message) = false →
  (∀ json, json ∈ msg_embeds message → includes ">" json = false) →
  embedMatches (storedContent message) = embedMarker <$> msg_embeds message ∧
  parseEmbed JSONparse <$> embedMatches (storedContent message)
  = (λ json, match JSONparse json with Ok embed => Some embed | Err _ => None end)
      <$> msg_embeds message.
Proof.
  intros Hc Hj. rewrite embedMatches_storedContent by done. split; [done|].
  rewrite <- list_fmap_compose. apply Forall_fmap_ext_1, Forall_forall.
  intros json Hin. by apply parseEmbed_marker, Hj.
Qed.

(** X5.  The text beside the embeds survives: under the same conditions
    the text [generateHTML] formats for the stored content of a message is
    the text of the message, trimmed when the message carried an embed. *)
Theorem logged_text_is_read_back (message : Message) :
  includes "<EMBED:" (msg_content message) = false →
  (∀ json, json ∈ msg_embeds message → includes ">" json = false) →
  messageText (storedContent message)
  = match msg_embeds message with
    | [] => msg_content message
    | _ :: _ => trim (msg_content message)
    end.
Proof.
  intros Hc Hj. unfold messageText.
  rewrite embedMatches_storedContent by done.
  apply Forall_forall in Hj.
  destruct (msg_embeds message) as [|json embeds] eqn:E.
  { unfold storedContent. by rewrite E. }
  rewrite fmap_cons. unfold textContent, replaceAll.
  change (enclosed "<EMBED:" ">" true (λ _, EmptyString)) with embedBlock.
  rewrite (storedContent_embeds message json embeds E).
  pose proof (blocks_replaced (json :: embeds) Hj) as Hws.
  destruct (msg_content message) as [|c r] eqn:Ec.
  - rewrite append_nil. unfold trim. by rewrite trimStart_white.
  - rewrite content_copied; [| done | by right; eexists].
    rewrite !line_feed_copied. apply trim_app_white.
    cbn [all_chars]. by rewrite Hws.
Qed.

Lemma logged_embeds_are_read_back_witness :
  embedMatches (storedContent Examples.receiptPosted)
  = [embedMarker (stringifyEmbed "Receipt" None)].
Proof.
  apply (logged_embeds_are_read_back (λ json, Ok json) Examples.receiptPosted).
  - reflexivity.
  - intros json Hin. apply list_elem_of_singleton in Hin as ->. reflexivity.
Defined.

Lemma logged_text_is_read_back_witness :
  messageText (storedContent Examples.receiptPosted) = "my receipt".
Proof.
  apply (logged_text_is_read_back Examples.receiptPosted).
  - reflexivity.
  - intros json Hin. apply list_elem_of_singleton in Hin as ->. reflexivity.
Defined.

(** The condition on the JSON text is needed: the marker of a closure
    with a reason quotes the reason after a [>], at which the block found
    ends, and what is left of the JSON text shows up in the text. *)
Example closure_marker_is_cut_at_the_quote :
  embedMatches (closureMarker (Some "spam"))
  = ["<EMBED:{" +:+ jsonString "title" +:+ ":" +:+ jsonString "Ticket closed" +:+ "," +:+
     jsonString "description" +:+ ":" +:+ DQ +:+ "Closure reason:\n>"] ∧
  messageText (closureMarker (Some "spam")) = "spam" +:+ DQ +:+ "}>".
Proof. split; vm_compute; reflexivity. Qed.

(** *** What a transcript holds *)

Lemma filter_index_keeps {A} (f : nat → A → bool) i (l : list A) x :
  x ∈ l → (∀ j, f j x = true) → x ∈ filter_index f i l.
Proof.
  intros Hin Hf. revert i. induction l as [|y l IH]; intros i.
  { by apply not_elem_of_nil in Hin. }
  apply elem_of_cons in Hin as [->|Hin]; cbn.
  - rewrite Hf. apply list_elem_of_here.
  - destruct (f i y); [apply list_elem_of_further|]; by apply IH.
Qed.

Lemma filterMessages_length arr : length arr ≤ length (filterMessages arr) + 2.
Proof.
  destruct arr as [|first rest]; [cbn; lia|].
  induction rest as [|last mid _] using rev_ind.
  - cbn. lia.
  - rewrite TranscriptFacts.filterMessages_ends.
    cbn [length]. rewrite !length_app. cbn [length]. lia.
Qed.

(** X7.  A transcript is the transcript of its ticket: it is headed by
    the identity asked for, every message in it is a stored message of
    that ticket, at most two messages of the ticket are missing from it,
    and no message without the embed marker is. *)
Theorem transcript_holds_the_log_of_its_ticket queryOk db id doc :
  generateTicketTranscript queryOk db id = Ok doc →
  Transcript.ticketId (doc_ticket doc) = id ∧
  (∀ msg, msg ∈ doc_messages doc → m_ticket msg = id ∧ msg ∈ ticketMessages db) ∧
  length (messagesOf db id) ≤ length (doc_messages doc) + 2 ∧
  (∀ msg, msg ∈ messagesOf db id → hasEmbedMarker msg = false →
          msg ∈ doc_messages doc).
Proof.
  unfold generateTicketTranscript. intros Hgen.
  destruct queryOk; [|done].
  destruct (findTicketWithCategory db id) as [[ticket category]|] eqn:Hfind; [|done].
  injection Hgen as <-. cbn [doc_ticket doc_messages Transcript.ticketId].
  pose proof (merge_sort_Permutation sentBefore (messagesOf db id)) as Hperm.
  fold (messagesBySentAt db id) in Hperm.
  repeat split.
  - unfold findTicketWithCategory, findTicket in Hfind.
    destruct (List.find _ (tickets db)) as [t|] eqn:Ht; [|done].
    destruct (findCategory db (t_category t)); [|done].
    injection Hfind as -> _. apply List.find_some in Ht as [_ Ht].
    by apply Nat.eqb_eq.
  - eapply elem_of_sublist in H; [|apply TranscriptFacts.filter_index_sublist].
    rewrite Hperm in H. unfold messagesOf in H.
    apply list_elem_of_In, List.filter_In in H as [_ H]. by apply Nat.eqb_eq.
  - eapply elem_of_sublist in H; [|apply TranscriptFacts.filter_index_sublist].
    rewrite Hperm in H. unfold messagesOf in H.
    apply list_elem_of_In, List.filter_In in H as [H _]. by apply list_elem_of_In.
  - rewrite <- (Permutation_length Hperm). apply filterMessages_length.
  - intros msg Hin Hm. apply filter_index_keeps.
    + by rewrite Hperm.
    + intros j. by apply TranscriptFacts.keepMessage_unmarked.
Qed.

Lemma transcript_holds_the_log_of_its_ticket_witness :
  ∃ doc, generateTicketTranscript (Ok ()) Examples.db0 1 = Ok doc ∧
         length (messagesOf Examples.db0 1) ≤ length (doc_messages doc) + 2.
Proof.
  eexists. split; [reflexivity|].
  eapply (transcript_holds_the_log_of_its_ticket (Ok ()) Examples.db0 1).
  reflexivity.
Defined.

(** X6.  The stored content of a message carries the embed marker
    exactly when the message had an embed or its text holds the marker
    itself: the marker is in band, a text can carry it. *)
Theorem stored_content_carries_the_marker (message : Message) :
  includes "<EMBED:" (storedContent message) = true ↔
  msg_embeds message ≠ [] ∨ includes "<EMBED:" (msg_content message) = true.
Proof.
  destruct (msg_embeds message) as [|json embeds] eqn:E.
  - unfold storedContent. rewrite E. split; [by right | by intros [?|?]].
  - split; [by left | intros _].
    rewrite (storedContent_embeds message json embeds E).
    apply includes_skip. rewrite blocks_cons. unfold embedMarker.
    rewrite !HandlerFacts.append_assoc.
    destruct (msg_content message); [by apply includes_here|].
    apply (includes_skip _ (String "010" (String "010" EmptyString))).
    by apply includes_here.
Qed.

End RenderingFacts.

(** ** Invariants and further properties of the handler *)

Module LifecycleFacts.
Import Js Store Transcript TicketHandler Lifecycle JsFacts HandlerFacts.

(** *** The store under the writes of the handler *)

Lemma find_app_first {A} (p : A → bool) (l k : list A) :
  List.find p (l ++ k)
  = match List.find p l with Some x => Some x | None => List.find p k end.
Proof. induction l as [|x l IH]; [done|]. cbn. by destruct (p x). Qed.

Lemma next_id_fresh (ids : list nat) n : n ∈ ids → n < next_id ids.
Proof. intros H. apply max_list_elem_of_le in H. unfold next_id. lia. Qed.

Lemma next_id_NoDup (ids : list nat) : NoDup ids → NoDup (ids ++ [next_id ids]).
Proof.
  intros H. apply NoDup_app. split; [done|]. split; [|apply NoDup_singleton].
  intros n Hn ->%list_elem_of_singleton. apply next_id_fresh in Hn. lia.
Qed.

Lemma updateTicket_ids id f d :
  (∀ t, t_id (f t) = t_id t) →
  t_id <$> tickets (updateTicket id f d) = t_id <$> tickets d.
Proof.
  intros Hf. cbn. change (List.map ?g ?l) with (g <$> l).
  rewrite <- list_fmap_compose. apply list_fmap_ext.
  intros i t _. cbn. by destruct (t_id t =? id).
Qed.

Lemma keyed_updateTicket id f d :
  (∀ t, t_id (f t) = t_id t) → keyed d → keyed (updateTicket id f d).
Proof. intros Hf [Ht Hm]. split; [by rewrite updateTicket_ids | done]. Qed.

Lemma keyed_createMessage now ticket a dn av c d :
  keyed d → keyed (createMessage now ticket a dn av c d).
Proof.
  intros [Ht Hm]. split; [done|]. cbn. rewrite fmap_app. cbn.
  by apply next_id_NoDup.
Qed.

Lemma keyed_insertTicket now category tn ch uid un udn d :
  keyed d → keyed (insertTicket (newTicketRow now category tn ch uid un udn d) d).
Proof.
  intros [Ht Hm]. split; [|done]. cbn. rewrite fmap_app. cbn.
  by apply next_id_NoDup.
Qed.

Lemma findTicket_insertTicket row d id :
  findTicket (insertTicket row d) id
  = match findTicket d id with
    | Some t => Some t
    | None => if t_id row =? id then Some row else None
    end.
Proof. unfold findTicket. cbn [tickets insertTicket]. by rewrite find_app_first. Qed.

Lemma findTicket_fresh d id :
  (∀ t, t ∈ tickets d → t_id t ≠ id) → findTicket d id = None.
Proof.
  intros H. unfold findTicket.
  destruct (List.find _ _) as [t|] eqn:E; [|done].
  apply List.find_some in E as [Hin Hid]. apply Nat.eqb_eq in Hid.
  exfalso. by apply (H t); [apply list_elem_of_In|].
Qed.

Lemma findTicket_new now category tn ch uid un udn d :
  let row := newTicketRow now category tn ch uid un udn d in
  findTicket (insertTicket row d) (t_id row) = Some row.
Proof.
  intros row. rewrite findTicket_insertTicket, findTicket_fresh.
  - by rewrite Nat.eqb_refl.
  - intros t Hin. cbn.
    assert (t_id t < next_id (t_id <$> tickets d)); [|lia].
    apply next_id_fresh. by apply list_elem_of_fmap_2.
Qed.

(** *** The invariant under the steps of the handler *)

Lemma consistent_same w w' :
  db w' = db w → ActiveTickets w' = ActiveTickets w → consistent w → consistent w'.
Proof.
  intros Hd Hr [Hk Hc]. split; [by rewrite Hd|].
  intros ch t. rewrite Hr, Hd. apply Hc.
Qed.

Lemma consistent_onlyEmits w w' : onlyEmits w w' → consistent w → consistent w'.
Proof. intros [evs ->]. by apply consistent_same. Qed.

Lemma consistent_emit e w : consistent w → consistent (emit e w).
Proof. by apply consistent_same. Qed.

Lemma consistent_tick w : consistent w → consistent (tick w).
Proof. by apply consistent_same. Qed.

Lemma consistent_withCreated c w : consistent w → consistent (withCreated c w).
Proof. by apply consistent_same. Qed.

Lemma consistent_updateTicket id f w :
  (∀ t, t_id (f t) = t_id t) → (∀ t, t_channelId (f t) = t_channelId t) →
  consistent w → consistent (withDB (updateTicket id f) w).
Proof.
  intros Hid Hch [Hk Hc]. split; [by apply keyed_updateTicket|].
  intros ch t Ht. destruct (Hc ch t Ht) as (Hc1 & row & Hrow & Hrc).
  split; [done|]. cbn [db withDB].
  rewrite findTicket_updateTicket, Hrow by done. cbn.
  eexists. split; [done|]. destruct (t_id row =? id); by rewrite ?Hch.
Qed.

Lemma consistent_createMessage now ticket a dn av c w :
  consistent w → consistent (withDB (createMessage now ticket a dn av c) w).
Proof.
  intros [Hk Hc]. split; [by apply keyed_createMessage|].
  intros ch t Ht. cbn [db withDB]. rewrite findTicket_createMessage. by apply Hc.
Qed.

Lemma consistent_delete ch w : consistent w → consistent (withRegistry (delete ch) w).
Proof.
  intros [Hk Hc]. split; [done|]. intros ch' t. cbn [ActiveTickets withRegistry db].
  intros [_ Ht]%lookup_delete_Some. by apply Hc.
Qed.

Lemma consistent_open now category channel uid un udn w :
  consistent w →
  let row := newTicketRow now category (ch_name channel) (ch_id channel) uid un udn (db w) in
  consistent
    (withRegistry (insert (ch_id channel) {| channel := channel; ticketId := t_id row |})
       (withDB (insertTicket row) w)).
Proof.
  intros [Hk Hc] row. split; [by apply keyed_insertTicket|].
  intros ch t. cbn [ActiveTickets withRegistry db withDB].
  intros [[<- <-]|[Hne Ht]]%lookup_insert_Some.
  - split; [done|]. exists row. split; [apply findTicket_new | done].
  - destruct (Hc ch t Ht) as (Hc1 & old & Hold & Hoc). split; [done|].
    exists old. by rewrite findTicket_insertTicket, Hold.
Qed.

#[local] Existing Instance onlyEmits_preorder.

Lemma onlyEmits_here w : onlyEmits w w.
Proof. reflexivity. Qed.

Ltac emits_only := repeat apply onlyEmits_emit; apply onlyEmits_here.

Ltac consistent_steps :=
  repeat lazymatch goal with
    | H : consistent ?w |- consistent ?w => exact H
    | |- consistent (emit _ _) => apply consistent_emit
    | |- consistent (tick _) => apply consistent_tick
    | |- consistent (withCreated _ _) => apply consistent_withCreated
    | |- consistent (withDB (createMessage _ _ _ _ _ _) _) =>
        apply consistent_createMessage
    | |- consistent (withDB (updateTicket _ _) _) =>
        apply consistent_updateTicket; [done | done |]
    | |- consistent (withRegistry (delete _) _) => apply consistent_delete
    end.

(** Logging a message keeps the store keyed and the registry consistent
    with it. *)
Lemma updateMessages_consistent createOk message w :
  consistent w → consistent (updateMessages createOk message w).
Proof.
  intros Hw. unfold updateMessages, handleNewMessage.
  destruct (getTicket _ w); [|done]. destruct createOk; cbn [fst]; consistent_steps.
Qed.

Lemma closeTicket_consistent envr o self user reason w :
  consistent w → consistent (fst (closeTicket envr o self user reason w)).
Proof.
  intros Hw. unfold closeTicket.
  destruct (co_findTicketInfo o); cbn [fst]; [|consistent_steps].
  destruct (co_updateClosedAt o); cbn [fst]; [|consistent_steps].
  destruct (co_createClosureMessage o); cbn [fst]; [|consistent_steps].
  eapply consistent_onlyEmits; [apply afterDurable_onlyEmits|]. consistent_steps.
Qed.

(** A close request, whatever its outcome, keeps the store keyed and the
    registry consistent with it. *)
Lemma closeTicketStatic_consistent envr o ch closer w :
  consistent w → consistent (fst (closeTicketStatic envr o ch closer w)).
Proof.
  intros Hw. unfold closeTicketStatic.
  destruct (getTicket ch w) as [ticket|]; cbn [fst]; [|consistent_steps].
  destruct (so_showModal o); cbn [fst]; [|consistent_steps].
  destruct (so_awaitModalSubmit o) as [fields|]; cbn [fst]; [|consistent_steps].
  destruct (fields !! _) as [closureReason|]; cbn [fst]; [|consistent_steps].
  destruct (so_deferReply o); cbn [fst]; [|consistent_steps].
  match goal with |- context [closeTicket ?a ?b ?c ?d ?e ?w1] =>
    pose proof (closeTicket_consistent a b c d e w1) as Hc;
    destruct (closeTicket a b c d e w1) as [w2 success]
  end.
  cbn [fst] in Hc.
  assert (consistent w2) as H2 by (apply Hc; consistent_steps).
  assert (consistent (emit ModalDeleteReply
            (if success then withRegistry (delete ch) w2 else w2))) as H3
    by (destruct success; consistent_steps).
  destruct (so_deleteReply o); cbn [fst]; [|done].
  eapply consistent_onlyEmits; [apply notifyRequester_onlyEmits | done].
Qed.

Lemma storedWithChannel_updateTicket id f d row :
  (∀ t, t_id (f t) = t_id t) → (∀ t, t_channelId (f t) = t_channelId t) →
  storedWithChannel d row → storedWithChannel (updateTicket id f d) row.
Proof.
  intros Hid Hch (r & Hr & Hc). unfold storedWithChannel.
  rewrite findTicket_updateTicket, Hr by done. cbn.
  eexists. split; [done|]. destruct (t_id r =? id); by rewrite ?Hch.
Qed.

Lemma storedWithChannel_createMessage now ticket a dn av c d row :
  storedWithChannel d row → storedWithChannel (createMessage now ticket a dn av c d) row.
Proof. unfold storedWithChannel. by rewrite findTicket_createMessage. Qed.

Lemma forceClose_consistent o bot row message w :
  consistent w → consistent (fst (forceClose o bot row message w)).
Proof.
  intros Hw. unfold forceClose.
  destruct (ro_update o _); cbn [fst]; [|consistent_steps].
  destruct (ro_create o _); cbn [fst]; consistent_steps.
Qed.

Lemma forceClose_stored o bot row message w r :
  storedWithChannel (db w) r →
  storedWithChannel (db (fst (forceClose o bot row message w))) r.
Proof.
  intros Hr. unfold forceClose.
  destruct (ro_update o _); cbn [fst]; [|done].
  destruct (ro_create o _); cbn [fst db withDB tick emit];
    repeat first [ apply storedWithChannel_createMessage
                 | apply storedWithChannel_updateTicket; [done | done |] ]; done.
Qed.

Lemma consistent_register chName row w :
  storedWithChannel (db w) row → consistent w →
  consistent
    (withRegistry
       (insert (t_channelId row)
          {| channel := {| ch_id := t_channelId row; ch_name := chName |};
             ticketId := t_id row |}) w).
Proof.
  intros Hrow [Hk Hc]. split; [done|].
  intros ch t. cbn [ActiveTickets withRegistry db].
  intros [[<- <-]|[Hne Ht]]%lookup_insert_Some; [by split|by apply Hc].
Qed.

Lemma reloadLoop_consistent o bot rows w :
  Forall (storedWithChannel (db w)) rows → consistent w →
  consistent (fst (reloadLoop o bot rows w)).
Proof.
  revert w. induction rows as [|row rows IH]; intros w Hrows Hw; [done|].
  apply Forall_cons in Hrows as [Hrow Hrows]. cbn [reloadLoop].
  destruct (ro_fetch o (t_channelId row)) as [[chName|]|e].
  - apply IH; [done | by apply consistent_register].
  - pose proof (forceClose_consistent o bot row "No channel was found." w Hw) as Hc.
    assert (Forall (storedWithChannel
              (db (fst (forceClose o bot row "No channel was found." w)))) rows) as Hs.
    { eapply Forall_impl; [exact Hrows|]. intros r. apply forceClose_stored. }
    destruct (forceClose o bot row "No channel was found." w) as [w1 [[]|e]];
      cbn [fst] in *; [by apply IH | done].
  - pose proof (forceClose_consistent o bot row e w Hw) as Hc.
    assert (Forall (storedWithChannel (db (fst (forceClose o bot row e w)))) rows) as Hs.
    { eapply Forall_impl; [exact Hrows|]. intros r. apply forceClose_stored. }
    destruct (forceClose o bot row e w) as [w1 [[]|e']];
      cbn [fst] in *; [by apply IH | done].
Qed.

(** Recovery keeps the store keyed and the registry consistent with it,
    however far the pass gets. *)
Lemma reloadTickets_consistent o bot w :
  consistent w → consistent (fst (reloadTickets o bot w)).
Proof.
  intros Hw. unfold reloadTickets. destruct (ro_findMany o); [|done].
  assert (Forall (storedWithChannel (db w)) (openTickets (db w))) as Hrows.
  { apply Forall_forall. intros row Hin.
    apply list_elem_of_In, List.filter_In in Hin as [Hin _].
    exists row. split; [|done]. apply find_by_id; [apply Hw | by apply list_elem_of_In]. }
  pose proof (reloadLoop_consistent o bot _ w Hrows Hw) as Hc.
  destruct (reloadLoop o bot _ w) as [w1 [[]|e]]; cbn [fst] in *; consistent_steps.
Qed.

(** *** Intake *)

Lemma createStaffThread_consistent envr o channel dbTicket notice w :
  consistent w → consistent (createStaffThread envr o channel dbTicket notice w).
Proof.
  intros Hw. unfold createStaffThread.
  destruct (STAFF_ROLE_IDS envr); [done|].
  destruct (cr_threadCreate o); [|consistent_steps].
  destruct (cr_saveThread o); [|consistent_steps].
  destruct (cr_threadSend o); consistent_steps.
Qed.

Lemma openTicket_consistent envr o category user channel fields notice w :
  consistent w →
  consistent (fst (openTicket envr o category user channel fields notice w)).
Proof.
  intros Hw. unfold openTicket.
  destruct (cr_insertTicket o); [|done].
  match goal with |- context [emit ?e ?w3] =>
    assert (consistent (emit e w3)) as H3
      by (apply consistent_emit, (consistent_open _ _ _ _ _ _ (tick w));
          by apply consistent_tick)
  end.
  destruct (cr_channelSend o); cbn [fst]; [|done].
  by apply createStaffThread_consistent.
Qed.

Lemma fastPath_consistent envr o category user w :
  consistent w → consistent (fst (fastPath envr o category user w)).
Proof.
  intros Hw. unfold fastPath.
  destruct (cr_deferReply o); cbn [fst]; [|consistent_steps].
  destruct (cr_fetchCategoryChannel o) as [[inherited|]|]; cbn [fst];
    [| destruct (cr_editReply o); cbn [fst]; consistent_steps | consistent_steps].
  destruct (cr_createChannel o) as [channel|]; cbn [fst]; [|consistent_steps].
  destruct (cr_editReply o); cbn [fst]; [|consistent_steps].
  apply openTicket_consistent. consistent_steps.
Qed.

Lemma createStaffThread_effect envr o channel dbTicket notice w :
  let w' := createStaffThread envr o channel dbTicket notice w in
  ActiveTickets w' = ActiveTickets w ∧ created w' = created w ∧
  (db w' = db w ∨
   ∃ thread, db w' = updateTicket (t_id dbTicket) (setStaffThreadId thread) (db w)).
Proof. unfold createStaffThread. repeat case_match; cbn; eauto. Qed.

Lemma app_tail_absurd {A} (l : list A) x : l ≠ l ++ [x].
Proof. intros H. apply (f_equal length) in H. rewrite length_app in H. cbn in H. lia. Qed.

Lemma openTicket_registers envr o category user channel fields notice w :
  snd (openTicket envr o category user channel fields notice w) = Ok () →
  let w' := fst (openTicket envr o category user channel fields notice w) in
  created w' = created w ∧
  ∃ row,
    getTicket (ch_id channel) w' = Some {| channel := channel; ticketId := t_id row |} ∧
    findTicket (db w') (t_id row) = Some row ∧
    t_channelId row = ch_id channel ∧ t_userId row = u_id user ∧
    t_category row = c_id category ∧ t_closedAt row = None ∧
    findTicket (db w) (t_id row) = None.
Proof.
  unfold openTicket. destruct (cr_insertTicket o); [|done].
  destruct (cr_channelSend o); [|done]. intros _. cbn [fst].
  match goal with |- context [createStaffThread ?a ?b ?c ?d ?e ?w1] =>
    destruct (createStaffThread_effect a b c d e w1) as (Hr & Hc & Hd)
  end.
  set (row0 := newTicketRow (clock w) (c_id category) (ch_name channel)
                 (ch_id channel) (u_id user) (u_username user)
                 (u_displayName user) (db (tick w))) in *.
  cbn zeta in Hr, Hc, Hd. split; [by rewrite Hc|].
  assert (findTicket (db w) (t_id row0) = None) as Hfresh.
  { apply findTicket_fresh. intros t Hin. cbn.
    assert (t_id t < next_id (t_id <$> tickets (db w))); [|lia].
    apply next_id_fresh. by apply list_elem_of_fmap_2. }
  assert (findTicket (insertTicket row0 (db w)) (t_id row0) = Some row0) as Hnew
    by apply findTicket_new.
  unfold getTicket. rewrite Hr.
  destruct Hd as [Hd|[thread Hd]]; rewrite Hd;
    cbn [ActiveTickets db emit withDB withRegistry tick TicketHandler.channel].
  - exists row0. by rewrite lookup_insert_eq.
  - exists (setStaffThreadId thread row0).
    change (t_id (setStaffThreadId thread row0)) with (t_id row0).
    rewrite lookup_insert_eq, findTicket_updateTicket, Hnew by done.
    cbn [fmap option_fmap option_map]. by rewrite Nat.eqb_refl.
Qed.

Lemma fastPath_registers envr o category user w channel :
  snd (fastPath envr o category user w) = Ok () →
  let w' := fst (fastPath envr o category user w) in
  created w' = created w ++ [channel] →
  ∃ row,
    getTicket (ch_id channel) w' = Some {| channel := channel; ticketId := t_id row |} ∧
    findTicket (db w') (t_id row) = Some row ∧
    t_channelId row = ch_id channel ∧ t_userId row = u_id user ∧
    t_category row = c_id category ∧ t_closedAt row = None ∧
    findTicket (db w) (t_id row) = None.
Proof.
  unfold fastPath.
  destruct (cr_deferReply o); cbn [fst snd]; [|done].
  destruct (cr_fetchCategoryChannel o) as [[inherited|]|]; cbn [fst snd]; [| |done].
  2:{ destruct (cr_editReply o); cbn [fst snd]; [|done].
      intros _ H. by apply app_tail_absurd in H. }
  destruct (cr_createChannel o) as [channel0|]; cbn [fst snd]; [|done].
  destruct (cr_editReply o); cbn [fst snd]; [|done].
  intros Hok.
  match goal with |- context [openTicket ?a ?b ?c ?d ?e ?f ?g ?w1] =>
    destruct (openTicket_registers a b c d e f g w1 Hok) as (Hc & row & Hrow)
  end.
  cbn zeta. rewrite Hc. cbn [created emit withCreated].
  intros [_ [= ->]]%app_inj_tail. by exists row.
Qed.

Section IntakeInvariant.

Variable tbxIdRegex : string → bool.

Lemma verify_consistent o category rs w :
  consistent w →
  match verify o category rs w with
  | inl ended => consistent (fst ended)
  | inr continued => consistent (fst continued)
  end.
Proof.
  intros Hw. unfold verify.
  destruct (c_requireTbxId category); [|done].
  destruct (r_response <$> _) as [tbxid|]; cbn [fst]; [|consistent_steps].
  destruct (cr_verifyPurchase o tbxid) as [[data|]|]; cbn [fst]; consistent_steps.
Qed.

Lemma formPath_consistent envr o category fields user w :
  consistent w →
  consistent (fst (formPath tbxIdRegex envr o category fields user w)).
Proof.
  intros Hw. unfold formPath.
  destruct (cr_showModal o); cbn [fst]; [|consistent_steps].
  destruct (cr_awaitModalSubmit o) as [responseData|]; cbn [fst]; [|consistent_steps].
  destruct (cr_modalDeferReply o); cbn [fst]; [|consistent_steps].
  destruct (formatResponses _ responseData) as [rs|]; cbn [fst]; [|consistent_steps].
  match goal with |- context [verify ?a ?b ?c ?w1] =>
    assert (consistent w1) as H1 by consistent_steps;
    pose proof (verify_consistent a b c w1 H1) as Hv;
    destruct (verify a b c w1) as [ended|[wv purchase]]
  end; [done|]. cbn [fst] in Hv.
  destruct (cr_fetchCategoryChannel o) as [[inherited|]|]; cbn [fst];
    [| consistent_steps | consistent_steps].
  destruct (cr_createChannel o) as [channel|]; cbn [fst]; [|consistent_steps].
  destruct (mapResult _ rs) as [built|]; cbn [fst]; [|consistent_steps].
  destruct (setFields _ built); cbn [fst]; [|consistent_steps].
  apply openTicket_consistent. consistent_steps.
Qed.

(** Intake, whatever its outcome, keeps the store keyed and the registry
    consistent with it. *)
Lemma createNewTicket_consistent envr o user category_id w :
  consistent w →
  consistent (fst (createNewTicket tbxIdRegex envr o user category_id w)).
Proof.
  intros Hw. unfold createNewTicket.
  destruct (cr_getCategoryData o); cbn [fst]; [|done].
  destruct (findCategory (db w) category_id) as [category|]; cbn [fst];
    [|consistent_steps].
  destruct (cr_fetchGuild o) as [[g|]|]; cbn [fst]; [|done|done].
  destruct (_ && _); [by apply fastPath_consistent | by apply formPath_consistent].
Qed.




(** X10.  Without a verified payment nothing is opened: when the
    category requires a token and the verification service recognizes no
    token, intake issues calls towards the requester only; it creates no
    channel and no thread, posts nothing, and leaves the store, the
    registry and the channels as they were. *)
Theorem failed_verification_opens_nothing envr o user category_id w category :
  findCategory (db w) category_id = Some category →
  c_requireTbxId category = true →
  (∀ tbxid data, cr_verifyPurchase o tbxid ≠ Ok (PurchaseOk data)) →
  let w' := fst (createNewTicket tbxIdRegex envr o user category_id w) in
  onlyEmits w w' ∧ existsb isProvisioning (since w w') = false.
Proof.
  intros Hc Hreq Hv. unfold createNewTicket. rewrite Hc, Hreq. cbn [negb andb].
  unfold formPath, verify. rewrite Hreq.
  repeat case_match; simplify_eq; cbn [fst];
    try (exfalso; eapply Hv; eassumption);
    (split; [emits_only | since_list; reflexivity]).
Qed.

Lemma introField_undefined r rs :
  r ∈ rs → tbxIdRegex (r_response r) = true →
  mapResult (introField tbxIdRegex None) rs
  = Err "Cannot read properties of undefined (reading 'success')".
Proof.
  intros Hin Hr. induction rs as [|x rs IH]; [by apply elem_of_nil in Hin|].
  cbn [mapResult]. unfold introField at 1.
  destruct (tbxIdRegex (r_response x)) eqn:Hx; [done|].
  apply elem_of_cons in Hin as [->|Hin]; [congruence|]. by rewrite IH.
Qed.

(** X11.  In a category that requires no token, an answer in the token
    format ends intake after the channel was created: the field builder
    reads the payment, which was never fetched, and throws; the channel
    exists, and neither a row of the store nor an entry of the registry
    stands for it. *)
Theorem token_shaped_answer_strands_the_channel
    envr o user category_id w category responseData rs r inherited channel :
  isOk (cr_getCategoryData o) = true →
  findCategory (db w) category_id = Some category →
  (∃ guild, cr_fetchGuild o = Ok (Some guild)) →
  c_requireTbxId category = false →
  fieldsOf (db w) (c_id category) ≠ [] →
  isOk (cr_showModal o) = true →
  cr_awaitModalSubmit o = Ok responseData →
  isOk (cr_modalDeferReply o) = true →
  formatResponses (openModal category (fieldsOf (db w) (c_id category)) user)
    responseData = Ok rs →
  r ∈ rs → tbxIdRegex (r_response r) = true →
  cr_fetchCategoryChannel o = Ok (Some inherited) →
  cr_createChannel o = Ok channel →
  let ended := createNewTicket tbxIdRegex envr o user category_id w in
  snd ended = Err "Cannot read properties of undefined (reading 'success')" ∧
  created (fst ended) = created w ++ [channel] ∧
  db (fst ended) = db w ∧ ActiveTickets (fst ended) = ActiveTickets w.
Proof.
  intros Hq Hc [guild Hg] Hreq Hfields Hshow Hsub Hdefer Hrs Hin Hr Hfetch Hcreate.
  unfold createNewTicket.
  destruct (cr_getCategoryData o); [|done]. rewrite Hc, Hg, Hreq.
  destruct (fieldsOf (db w) (c_id category)) as [|field fields] eqn:Hf; [done|].
  cbn [negb andb length Nat.eqb]. unfold formPath.
  destruct (cr_showModal o); [|done]. rewrite Hsub.
  destruct (cr_modalDeferReply o); [|done]. rewrite Hrs.
  unfold verify. rewrite Hreq, Hfetch, Hcreate.
  by rewrite (introField_undefined r rs Hin Hr).
Qed.

Lemma formPath_registers envr o category fields user w channel :
  snd (formPath tbxIdRegex envr o category fields user w) = Ok () →
  let w' := fst (formPath tbxIdRegex envr o category fields user w) in
  created w' = created w ++ [channel] →
  ∃ row,
    getTicket (ch_id channel) w' = Some {| channel := channel; ticketId := t_id row |} ∧
    findTicket (db w') (t_id row) = Some row ∧
    t_channelId row = ch_id channel ∧ t_userId row = u_id user ∧
    t_category row = c_id category ∧ t_closedAt row = None ∧
    findTicket (db w) (t_id row) = None.
Proof.
  unfold formPath.
  destruct (cr_showModal o); cbn [fst snd]; [|done].
  destruct (cr_awaitModalSubmit o) as [responseData|]; cbn [fst snd];
    [|intros _ H; by apply app_tail_absurd in H].
  destruct (cr_modalDeferReply o); cbn [fst snd]; [|done].
  destruct (formatResponses _ responseData) as [rs|]; cbn [fst snd]; [|done].
  destruct (verify _ _ _ _) as [[wv rv]|[wv purchase]] eqn:Hv.
  { revert Hv. unfold verify. repeat case_match; intros [= <- <-]; cbn [fst snd];
      try done; intros _ Happ; by apply app_tail_absurd in Happ. }
  apply verify_continues in Hv as [-> _].
  destruct (cr_fetchCategoryChannel o) as [[inherited|]|]; cbn [fst snd];
    [| intros _ H; by apply app_tail_absurd in H | done].
  destruct (cr_createChannel o) as [channel0|]; cbn [fst snd]; [|done].
  destruct (mapResult _ rs) as [built|]; cbn [fst snd]; [|done].
  destruct (setFields _ built) as [embedFields|]; cbn [fst snd]; [|done].
  intros Hok.
  match goal with |- context [openTicket ?a ?b ?c ?d ?e ?f ?g ?w1] =>
    destruct (openTicket_registers a b c d e f g w1 Hok) as (Hc & row & Hrow)
  end.
  cbn zeta. rewrite Hc. cbn [created emit withCreated].
  intros [_ [= ->]]%app_inj_tail. by exists row.
Qed.

(** X12.  A returned intake that created a channel opened a ticket: the
    channel is registered, the instance registered for it stands for a
    row that is new to the store, open, of the category asked for, and
    that names the channel and the requester. *)
Theorem returned_intake_registers_the_ticket envr o user category_id w channel :
  let ended := createNewTicket tbxIdRegex envr o user category_id w in
  snd ended = Ok () →
  created (fst ended) = created w ++ [channel] →
  ∃ row,
    getTicket (ch_id channel) (fst ended)
    = Some {| channel := channel; ticketId := t_id row |} ∧
    findTicket (db (fst ended)) (t_id row) = Some row ∧
    t_channelId row = ch_id channel ∧ t_userId row = u_id user ∧
    t_category row = category_id ∧ t_closedAt row = None ∧
    findTicket (db w) (t_id row) = None.
Proof.
  unfold createNewTicket.
  destruct (cr_getCategoryData o); cbn [fst snd]; [|done].
  destruct (findCategory (db w) category_id) as [category|] eqn:Hc; cbn [fst snd];
    [|intros _ H; by apply app_tail_absurd in H].
  assert (c_id category = category_id) as <-.
  { unfold findCategory in Hc. apply List.find_some in Hc as [_ Hc].
    by apply Nat.eqb_eq. }
  destruct (cr_fetchGuild o) as [[guild|]|]; cbn [fst snd]; [|done|done].
  destruct (_ && _); cbn zeta; intros Hok Hcr.
  - by apply fastPath_registers.
  - by apply formPath_registers.
Qed.

End IntakeInvariant.

(** *** Closure *)

Lemma staffThreadFanout_no_timer o self info tc w :
  existsb isSetTimeout (since w (staffThreadFanout o self info tc w)) = false.
Proof. unfold staffThreadFanout. repeat case_match; since_list; reflexivity. Qed.

Lemma archiveFanout_no_timer o self user reason info tc doc w :
  existsb isSetTimeout (since w (archiveFanout o self user reason info tc doc w)) = false.
Proof.
  unfold archiveFanout, staffThreadFanout. repeat case_match; since_list; reflexivity.
Qed.

Lemma ownerFanout_no_timer o self user reason info doc w :
  existsb isSetTimeout (since w (ownerFanout o self user reason info doc w)) = false.
Proof. unfold ownerFanout. repeat case_match; since_list; reflexivity. Qed.

Lemma renderTranscript_no_timer o self info w :
  existsb isSetTimeout (since w (fst (renderTranscript o self info w))) = false.
Proof. unfold renderTranscript. repeat case_match; since_list; reflexivity. Qed.

Lemma afterDurable_timer envr o self user reason info w :
  ∃ evs task,
    since w (afterDurable envr o self user reason info w)
    = evs ++ [SetTimeout 500 task] ∧
    existsb isSetTimeout evs = false ∧ d_channel task = ch_id (channel self).
Proof.
  unfold afterDurable.
  pose proof (renderTranscript_onlyEmits o self info w) as Hr.
  pose proof (renderTranscript_no_timer o self info w) as Hrn.
  destruct (renderTranscript o self info w) as [w1 transcript]. cbn [fst] in Hr, Hrn.
  match goal with |- context [emit ?e ?w3] =>
    assert (onlyEmits w1 w3 ∧ existsb isSetTimeout (since w1 w3) = false) as [H3 H3n]
  end.
  { match goal with
    | |- context [match _ with Some _ => match _ with Some _ => _ ?wa | None => ?wa end
                               | None => ?wa end] =>
        assert (onlyEmits w1 wa ∧ existsb isSetTimeout (since w1 wa) = false) as [Ha Han]
          by (repeat case_match;
              first [ split; [apply archiveFanout_onlyEmits | apply archiveFanout_no_timer]
                    | split; [apply onlyEmits_here | by rewrite since_refl] ])
    end.
    repeat case_match; try (split; assumption);
      (split;
       [ etrans; [exact Ha | apply ownerFanout_onlyEmits]
       | rewrite (since_trans _ _ _ Ha (ownerFanout_onlyEmits _ _ _ _ _ _ _));
         by rewrite existsb_app, Han, ownerFanout_no_timer ]). }
  eexists _, _. split; [apply since_emit; by etrans|].
  split; [|reflexivity].
  rewrite (since_trans _ _ _ Hr H3). by rewrite existsb_app, Hrn, H3n.
Qed.

(** X13.  The deletion of the channel is scheduled exactly when the
    closure reports success: the timer is the last call of a successful
    closure, it is set once, for the channel of the ticket, half a second
    ahead, and a closure that fails sets none. *)
Theorem deletion_timer_set_iff_closed envr o self user reason w :
  let ended := closeTicket envr o self user reason w in
  let evs := since w (fst ended) in
  existsb isSetTimeout evs = snd ended ∧
  (snd ended = true →
   ∃ before task, evs = before ++ [SetTimeout 500 task] ∧
                  existsb isSetTimeout before = false ∧
                  d_channel task = ch_id (channel self)).
Proof.
  cbn zeta. rewrite closeTicket_result.
  destruct (durable o) eqn:Hd.
  - destruct (closeTicket_durable envr o self user reason w Hd)
      as (wd & -> & [line Htr] & _ & _). cbn [fst].
    destruct (afterDurable_timer envr o self user reason
                (findTicketWithCategory (db w) (ticketId self)) wd)
      as (evs & task & Hevs & Hno & Hch).
    rewrite (since_via w wd _ [Log Info line] Htr (afterDurable_onlyEmits _ _ _ _ _ _ _)).
    rewrite Hevs. split.
    + rewrite !existsb_app. cbn. by rewrite Hno.
    + intros _. exists (Log Info line :: evs), task. by repeat split.
  - destruct (closeTicket_not_durable envr o self user reason w Hd)
      as (_ & line & e & ->). by split.
Qed.

Lemma openTickets_closed id date d :
  openTickets (updateTicket id (setClosedAt date) d)
  = List.filter (λ t, negb (t_id t =? id)) (openTickets d).
Proof.
  unfold openTickets. cbn [tickets updateTicket].
  induction (tickets d) as [|t l IH]; [done|]. cbn.
  destruct (Nat.eqb_spec (t_id t) id) as [E|E]; cbn.
  - destruct (t_closedAt t); cbn; rewrite ?E, ?Nat.eqb_refl; cbn; exact IH.
  - destruct (t_closedAt t); cbn; [exact IH|].
    apply Nat.eqb_neq in E. rewrite E. cbn. by rewrite IH.
Qed.

(** X14.  A successful closure takes the ticket, and only it, out of the
    open tickets of the store, and appends one message to the log: the
    closure message of the closer, which carries the embed marker. *)
Theorem closed_ticket_leaves_the_open_set envr o self user reason w :
  durable o = true →
  let w' := fst (closeTicket envr o self user reason w) in
  openTickets (db w')
  = List.filter (λ t, negb (t_id t =? ticketId self)) (openTickets (db w)) ∧
  ∃ msg, ticketMessages (db w') = ticketMessages (db w) ++ [msg] ∧
         m_ticket msg = ticketId self ∧ m_authorId msg = u_id user ∧
         m_sentAt msg = (clock w + 1)%Z ∧ hasEmbedMarker msg = true.
Proof.
  intros Hd. cbn zeta. rewrite (closeTicket_db _ _ _ _ _ _ Hd). split.
  - apply openTickets_closed.
  - eexists. split; [reflexivity|]. by repeat split.
Qed.

(** X15.  A close request that is not confirmed changes nothing: without
    the prompt shown, the reason submitted and the submission
    acknowledged, the request only issues calls; the store, the registry
    and the channels stay as they were, nobody is sent a transcript or a
    notification, and no deletion is scheduled. *)
Theorem unconfirmed_close_changes_nothing envr o ch closer w :
  (∀ r, ¬ confirmed o ch r) →
  let w' := fst (closeTicketStatic envr o ch closer w) in
  onlyEmits w w' ∧ noneOf (since w w') ∧ existsb isSetTimeout (since w w') = false.
Proof.
  intros Hn. unfold closeTicketStatic.
  destruct (getTicket ch w) as [ticket|]; cbn [fst].
  2:{ split; [emits_only|]. split; [|by since_list].
      unfold noneOf. fanout_events. by repeat split. }
  destruct (so_showModal o) eqn:Hs; cbn [fst].
  2:{ split; [emits_only|]. split; [|by since_list].
      unfold noneOf. fanout_events. by repeat split. }
  destruct (so_awaitModalSubmit o) as [fields|] eqn:Ha; cbn [fst].
  2:{ split; [emits_only|]. split; [|by since_list].
      unfold noneOf. fanout_events. by repeat split. }
  destruct (fields !! _) as [r|] eqn:Hf; cbn [fst].
  2:{ split; [emits_only|]. split; [|by since_list].
      unfold noneOf. fanout_events. by repeat split. }
  destruct (so_deferReply o) eqn:Hdf; cbn [fst].
  { exfalso. apply (Hn r). split; [by rewrite Hs|].
    split; [by exists fields | by rewrite Hdf]. }
  split; [emits_only|]. split; [|by since_list].
  unfold noneOf. fanout_events. by repeat split.
Qed.

(** *** The properties on the examples *)

Lemma world0_consistent : consistent Examples.world0.
Proof.
  split; [split; refine (bool_decide_unpack _ _); vm_compute; exact I|].
  intros ch t H. unfold Examples.world0 in H. cbn [ActiveTickets] in H.
  apply lookup_singleton_Some in H as [<- <-]. split; [reflexivity|].
  exists Examples.aliceTicket. split; reflexivity.
Qed.


Lemma failed_verification_opens_nothing_witness :
  existsb isProvisioning
    (since Examples.world0
       (fst (createNewTicket Examples.tokenShape Examples.env0 Scenarios.rejecting
               Examples.moderator 1 Examples.world0))) = false.
Proof.
  apply (failed_verification_opens_nothing Examples.tokenShape Examples.env0
           Scenarios.rejecting Examples.moderator 1 Examples.world0 Examples.billing).
  - reflexivity.
  - reflexivity.
  - intros tbxid data. discriminate.
Defined.

Lemma token_shaped_answer_strands_the_channel_witness :
  let ended := createNewTicket Examples.tokenShape Examples.env0
                 (Examples.createOracle (Ok Scenarios.orderAnswered))
                 Examples.moderator 2 Scenarios.helpdesk in
  created (fst ended) = [ {| ch_id := "702"; ch_name := "moderator" |} ] ∧
  db (fst ended) = db Scenarios.helpdesk ∧
  ActiveTickets (fst ended) = ActiveTickets Scenarios.helpdesk.
Proof.
  eapply (token_shaped_answer_strands_the_channel Examples.tokenShape Examples.env0
            (Examples.createOracle (Ok Scenarios.orderAnswered)) Examples.moderator 2
            Scenarios.helpdesk Scenarios.support Scenarios.orderAnswered
            [ {| r_label := "Order number"; r_response := Examples.token; r_id := "2" |} ]
            {| r_label := "Order number"; r_response := Examples.token; r_id := "2" |}
            [] {| ch_id := "702"; ch_name := "moderator" |}).
  - reflexivity.
  - reflexivity.
  - exists (). reflexivity.
  - reflexivity.
  - discriminate.
  - reflexivity.
  - reflexivity.
  - reflexivity.
  - vm_compute. reflexivity.
  - apply list_elem_of_here.
  - reflexivity.
  - reflexivity.
  - reflexivity.
Defined.

Lemma returned_intake_registers_the_ticket_witness :
  let ended := createNewTicket Examples.tokenShape Examples.env0
                 (Examples.createOracle (Ok Examples.submitted))
                 Examples.moderator 1 Examples.world0 in
  ∃ row, getTicket "702" (fst ended)
         = Some {| channel := {| ch_id := "702"; ch_name := "moderator" |};
                   ticketId := t_id row |} ∧
         findTicket (db (fst ended)) (t_id row) = Some row ∧
         t_userId row = "2002" ∧ t_closedAt row = None.
Proof.
  destruct (returned_intake_registers_the_ticket Examples.tokenShape Examples.env0
              (Examples.createOracle (Ok Examples.submitted)) Examples.moderator 1
              Examples.world0 {| ch_id := "702"; ch_name := "moderator" |})
    as (row & H1 & H2 & _ & H4 & _ & H6 & _).
  - vm_compute. reflexivity.
  - vm_compute. reflexivity.
  - exists row. repeat split; assumption.
Defined.

Lemma closed_ticket_leaves_the_open_set_witness :
  openTickets (db (fst (closeTicket Examples.env0 Examples.closeOk Examples.aliceOpen
                          Examples.moderator (Some "resolved") Examples.world0)))
  = [].
Proof.
  apply (closed_ticket_leaves_the_open_set Examples.env0 Examples.closeOk
           Examples.aliceOpen Examples.moderator (Some "resolved") Examples.world0).
  reflexivity.
Defined.

Lemma unconfirmed_close_changes_nothing_witness :
  onlyEmits Examples.world0
    (fst (closeTicketStatic Examples.env0 Scenarios.abandoned "700"
            Examples.moderator Examples.world0)).
Proof.
  apply (unconfirmed_close_changes_nothing Examples.env0 Scenarios.abandoned "700"
           Examples.moderator Examples.world0).
  intros r (_ & (fields & Hf & _) & _). discriminate Hf.
Defined.

(** X8.  The handler keeps its state consistent: if the identities of
    the tickets and of the messages are unique in the store, and every
    registered instance is registered under the identity of its channel
    and stands for a stored row with that channel, then the same holds
    after a message was logged, after a close request, after a recovery
    pass and after an intake, whatever the collaborators answer and
    wherever the operation stops. *)
Theorem handler_keeps_consistency tbxIdRegex envr w
    createOk message closing channelId closer reloading applicationUser
    opening user category_id :
  consistent w →
  consistent (updateMessages createOk message w) ∧
  consistent (fst (closeTicketStatic envr closing channelId closer w)) ∧
  consistent (fst (reloadTickets reloading applicationUser w)) ∧
  consistent (fst (createNewTicket tbxIdRegex envr opening user category_id w)).
Proof.
  intros Hw. split; [|split; [|split]].
  - by apply updateMessages_consistent.
  - by apply closeTicketStatic_consistent.
  - by apply reloadTickets_consistent.
  - by apply createNewTicket_consistent.
Qed.

Lemma handler_keeps_consistency_witness :
  consistent (updateMessages (Ok ()) Examples.receiptPosted Examples.world0) ∧
  consistent (fst (closeTicketStatic Examples.env0
                     (Examples.staticWith Examples.closeOk) "700"
                     Examples.moderator Examples.world0)) ∧
  consistent (fst (reloadTickets Examples.reloadOracle Examples.bot Examples.world0)) ∧
  consistent (fst (createNewTicket Examples.tokenShape Examples.env0
                     (Examples.createOracle (Ok Examples.submitted))
                     Examples.moderator 1 Examples.world0)).
Proof. apply handler_keeps_consistency, world0_consistent. Defined.

End LifecycleFacts.

(** ** Properties of the participants of a ticket *)

Module ParticipantsFacts.
Import Js Store Transcript TicketHandler Participants JsFacts.

Lemma hasKey_keyOf ticket userId m :
  hasKey ticket userId m = true ↔ keyOf m = (ticket, userId).
Proof.
  unfold hasKey, keyOf. rewrite andb_true_iff, Nat.eqb_eq, String.eqb_eq.
  split; [by intros [-> ->] | by intros [= -> ->]].
Qed.

Lemma filter_absent ticket userId (table : list MemberRow) :
  (ticket, userId) ∉ keyOf <$> table → List.filter (hasKey ticket userId) table = [].
Proof.
  induction table as [|m l IH]; [done|]. rewrite fmap_cons, not_elem_of_cons.
  intros [Hm Hl]. cbn. destruct (hasKey ticket userId m) eqn:E; [|by apply IH].
  apply hasKey_keyOf in E. congruence.
Qed.

Lemma filter_unique ticket userId (table : list MemberRow) :
  NoDup (keyOf <$> table) →
  List.filter (hasKey ticket userId) table = [] ∨
  ∃ row, List.filter (hasKey ticket userId) table = [row].
Proof.
  induction table as [|m l IH]; [by left|].
  rewrite fmap_cons. intros [Hm Hl]%NoDup_cons. cbn.
  destruct (hasKey ticket userId m) eqn:E; [|by apply IH].
  right. exists m. apply hasKey_keyOf in E. rewrite E in Hm.
  by rewrite filter_absent.
Qed.

Lemma existsb_filter {A} (p : A → bool) (l : list A) :
  existsb p l = match List.filter p l with [] => false | _ => true end.
Proof. induction l as [|x l IH]; [done|]. cbn. by destruct (p x). Qed.

(** An update of the rows with a key that keeps their key. *)
Lemma keys_kept ticket userId (g : MemberRow → MemberRow) (table : list MemberRow) :
  (∀ m, keyOf (g m) = keyOf m) →
  keyOf <$> ((λ m, if hasKey ticket userId m then g m else m) <$> table)
  = keyOf <$> table.
Proof.
  intros Hg. rewrite <- list_fmap_compose. apply list_fmap_ext.
  intros i m _. cbn. by destruct (hasKey ticket userId m).
Qed.

Lemma filter_updated ticket userId (g : MemberRow → MemberRow) t u
    (table : list MemberRow) :
  (∀ m, keyOf (g m) = keyOf m) →
  List.filter (hasKey t u) ((λ m, if hasKey ticket userId m then g m else m) <$> table)
  = (λ m, if hasKey ticket userId m then g m else m) <$> List.filter (hasKey t u) table.
Proof.
  intros Hg. induction table as [|m l IH]; [done|]. rewrite fmap_cons. cbn.
  assert (hasKey t u (if hasKey ticket userId m then g m else m) = hasKey t u m) as ->.
  { destruct (hasKey ticket userId m); [|done].
    unfold hasKey. pose proof (Hg m) as [= -> ->]. done. }
  destruct (hasKey t u m); [rewrite fmap_cons|]; by rewrite IH.
Qed.

Lemma elem_of_updated ticket userId (g : MemberRow → MemberRow)
    (table : list MemberRow) m :
  (∀ x, keyOf (g x) = keyOf x) → hasKey ticket userId m = false →
  m ∈ (λ x, if hasKey ticket userId x then g x else x) <$> table ↔ m ∈ table.
Proof.
  intros Hg Hm. rewrite list_elem_of_fmap. split.
  - intros (x & -> & Hx). destruct (hasKey ticket userId x) eqn:E; [|done].
    exfalso. apply hasKey_keyOf in E. rewrite <- (Hg x) in E.
    apply hasKey_keyOf in E. congruence.
  - intros Hin. exists m. by rewrite Hm.
Qed.

Section Defaults.

Variable removedDefault : nat.

Lemma upsert_keys date ticket userId addedBy table :
  NoDup (keyOf <$> table) →
  NoDup (keyOf <$> upsert removedDefault date ticket userId addedBy table).
Proof.
  intros Hnd. unfold upsert. rewrite existsb_filter.
  destruct (List.filter _ table) as [|row rows] eqn:E.
  - rewrite fmap_app. apply NoDup_app. split; [done|].
    split; [|apply NoDup_singleton]. intros k Hk ->%list_elem_of_singleton.
    apply list_elem_of_fmap in Hk as (m & Hm & Hin). symmetry in Hm.
    apply hasKey_keyOf in Hm.
    assert (m ∈ List.filter (hasKey ticket userId) table) as Hf
      by (apply list_elem_of_In, List.filter_In; split; [by apply list_elem_of_In|done]).
    rewrite E in Hf. by apply elem_of_nil in Hf.
  - by rewrite keys_kept.
Qed.

Lemma upsert_rows date ticket userId addedBy table :
  NoDup (keyOf <$> table) →
  ∃ row, List.filter (hasKey ticket userId)
           (upsert removedDefault date ticket userId addedBy table) = [row] ∧
         tm_addedBy row = addedBy ∧ tm_addedAt row = date ∧
         (List.filter (hasKey ticket userId) table ≠ [] → tm_removed row = 0).
Proof.
  intros Hnd. unfold upsert. rewrite existsb_filter.
  destruct (filter_unique ticket userId table Hnd) as [E|[row E]]; rewrite E.
  - eexists. rewrite List.filter_app, E. cbn. unfold hasKey at 1. cbn.
    rewrite Nat.eqb_refl, String.eqb_refl. cbn. by repeat split.
  - eexists. rewrite filter_updated, E by done. cbn.
    assert (hasKey ticket userId row = true) as ->.
    { assert (row ∈ List.filter (hasKey ticket userId) table) as Hin
        by (rewrite E; apply list_elem_of_here).
      by apply list_elem_of_In, List.filter_In in Hin as [_ Hin]. }
    by repeat split.
Qed.

Lemma upsert_others date ticket userId addedBy table m :
  hasKey ticket userId m = false →
  m ∈ upsert removedDefault date ticket userId addedBy table ↔ m ∈ table.
Proof.
  intros Hm. unfold upsert. destruct (existsb _ table).
  - by apply elem_of_updated.
  - rewrite elem_of_app, list_elem_of_singleton. split; [|by left].
    intros [?| ->]; [done|]. unfold hasKey in Hm. cbn in Hm.
    by rewrite Nat.eqb_refl, String.eqb_refl in Hm.
Qed.

(** X16.  A returned [addTicketParticipant] grants access and records it
    once: the added user holds the entry that allows viewing the channel,
    the entries of everybody else are untouched, the table holds exactly
    one row for the user in this ticket, which names who added them and
    when (and says not removed, if the user had a row before), and every
    other row is as it was. *)
Theorem added_participant_can_view o self addedUser adder r :
  isOk (ao_store o) = true → isOk (ao_platform o) = true →
  NoDup (keyOf <$> ticketMembers r) →
  let ended := addTicketParticipant removedDefault o self addedUser adder r in
  snd ended = true ∧
  overwrites (fst ended) !! u_id addedUser = Some (viewer addedUser) ∧
  (∀ id, id ≠ u_id addedUser → overwrites (fst ended) !! id = overwrites r !! id) ∧
  (∃ row, rowsOf (ticketId self) (u_id addedUser) (fst ended) = [row] ∧
          tm_addedBy row = u_id adder ∧ tm_addedAt row = now r ∧
          (rowsOf (ticketId self) (u_id addedUser) r ≠ [] → tm_removed row = 0)) ∧
  (∀ m, hasKey (ticketId self) (u_id addedUser) m = false →
        m ∈ ticketMembers (fst ended) ↔ m ∈ ticketMembers r).
Proof.
  intros Hs Hp Hnd. unfold addTicketParticipant.
  destruct (ao_store o); [|done]. destruct (ao_platform o); [|done].
  cbn [fst snd overwrites ticketMembers now]. unfold rowsOf. cbn [ticketMembers].
  split; [done|]. split; [apply lookup_insert_eq|].
  split; [intros id Hid; by apply lookup_insert_ne|].
  split; [by apply upsert_rows|]. intros m Hm. by apply upsert_others.
Qed.

(** X17.  An add that fails half way is recorded all the same: when the
    store takes the membership and the platform then refuses the entry,
    [addTicketParticipant] reports failure and grants nothing, yet the
    table holds the row of the user. *)
Theorem refused_entry_leaves_the_membership o self addedUser adder r e :
  isOk (ao_store o) = true → ao_platform o = Err e →
  let ended := addTicketParticipant removedDefault o self addedUser adder r in
  snd ended = false ∧ overwrites (fst ended) = overwrites r ∧
  rowsOf (ticketId self) (u_id addedUser) (fst ended) ≠ [].
Proof.
  intros Hs Hp. unfold addTicketParticipant.
  destruct (ao_store o); [|done]. rewrite Hp.
  unfold rowsOf. cbn [fst snd log overwrites ticketMembers].
  split; [done|]. split; [done|]. unfold upsert. rewrite existsb_filter.
  destruct (List.filter (hasKey (ticketId self) (u_id addedUser)) (ticketMembers r))
    as [|row rows] eqn:E.
  - rewrite List.filter_app, E. cbn. unfold hasKey at 1. cbn.
    by rewrite Nat.eqb_refl, String.eqb_refl.
  - rewrite filter_updated, E by done. done.
Qed.

Lemma markRemoved_keys ticket userId table :
  keyOf <$> markRemoved ticket userId table = keyOf <$> table.
Proof. unfold markRemoved. by apply keys_kept. Qed.

(** X18.  The key of the table stays a key: whatever the store and the
    platform answer, after [addTicketParticipant] and after
    [removeTicketParticipant] no two rows of the table stand for the same
    user in the same ticket, if none did before. *)
Theorem membership_key_stays_unique o self user actor r :
  NoDup (keyOf <$> ticketMembers r) →
  NoDup (keyOf <$> ticketMembers
           (fst (addTicketParticipant removedDefault o self user actor r))) ∧
  NoDup (keyOf <$> ticketMembers
           (fst (removeTicketParticipant o self (u_id user) actor r))).
Proof.
  intros Hnd. split.
  - unfold addTicketParticipant.
    destruct (ao_store o); [|done].
    destruct (ao_platform o); cbn [fst log ticketMembers]; by apply upsert_keys.
  - unfold removeTicketParticipant.
    destruct (ao_store o); [|done].
    destruct (existsb _ _); [|done].
    destruct (ao_platform o); cbn [fst log ticketMembers]; by rewrite markRemoved_keys.
Qed.

(** X19.  Removal undoes the access and keeps the record: when a user was
    added and is then removed, both calls returning, the user holds no
    entry of the channel any more, and the table still holds the one row
    of the user, which names who added them and now says removed. *)
Theorem removal_revokes_access_and_keeps_the_row o1 o2 self addedUser adder remover r :
  isOk (ao_store o1) = true → isOk (ao_platform o1) = true →
  isOk (ao_store o2) = true → isOk (ao_platform o2) = true →
  NoDup (keyOf <$> ticketMembers r) →
  let added := fst (addTicketParticipant removedDefault o1 self addedUser adder r) in
  let ended := removeTicketParticipant o2 self (u_id addedUser) remover added in
  snd ended = true ∧
  overwrites (fst ended) !! u_id addedUser = None ∧
  (∀ id, id ≠ u_id addedUser → overwrites (fst ended) !! id = overwrites r !! id) ∧
  ∃ row, rowsOf (ticketId self) (u_id addedUser) (fst ended) = [row] ∧
         tm_addedBy row = u_id adder ∧ tm_removed row = 1.
Proof.
  intros Hs1 Hp1 Hs2 Hp2 Hnd.
  destruct (upsert_rows (now r) (ticketId self) (u_id addedUser) (u_id adder)
              (ticketMembers r) Hnd) as (row & Hrow & Hby & _).
  unfold addTicketParticipant, removeTicketParticipant.
  destruct (ao_store o1); [|done]. destruct (ao_platform o1); [|done].
  destruct (ao_store o2); [|done]. destruct (ao_platform o2); [|done].
  cbn [fst ticketMembers overwrites]. rewrite existsb_filter, Hrow.
  unfold rowsOf. cbn [fst snd ticketMembers overwrites].
  split; [done|]. split; [apply lookup_delete_eq|]. split.
  { intros id Hid. by rewrite lookup_delete_ne, lookup_insert_ne. }
  unfold markRemoved. rewrite filter_updated, Hrow by done. cbn.
  assert (hasKey (ticketId self) (u_id addedUser) row = true) as ->.
  { assert (row ∈ List.filter (hasKey (ticketId self) (u_id addedUser))
              (upsert removedDefault (now r) (ticketId self) (u_id addedUser)
                 (u_id adder) (ticketMembers r))) as Hin
      by (rewrite Hrow; apply list_elem_of_here).
    by apply list_elem_of_In, List.filter_In in Hin as [_ Hin]. }
  eexists. by repeat split.
Qed.

End Defaults.

(** X20.  Who was never added cannot be removed: when the table holds no
    row for the user in the ticket, [removeTicketParticipant] reports
    failure whatever the store and the platform answer, and leaves the
    table and the entries of the channel as they were; all it does is log
    the error. *)
Theorem removing_a_stranger_fails o self userId remover r :
  rowsOf (ticketId self) userId r = [] →
  let ended := removeTicketParticipant o self userId remover r in
  snd ended = false ∧
  ticketMembers (fst ended) = ticketMembers r ∧
  overwrites (fst ended) = overwrites r ∧
  ∃ line, issued (fst ended) = issued r ++ [Log Error line].
Proof.
  unfold rowsOf. intros Hrows. unfold removeTicketParticipant.
  rewrite existsb_filter, Hrows.
  destruct (ao_store o); cbn [fst snd log ticketMembers overwrites issued];
    by eauto.
Qed.

Lemma added_participant_can_view_witness :
  overwrites (fst (addTicketParticipant 0 Guests.answering Examples.aliceOpen
                     Guests.carol Examples.moderator Guests.room0)) !! "1003"
  = Some (viewer Guests.carol).
Proof.
  apply (added_participant_can_view 0 Guests.answering Examples.aliceOpen
           Guests.carol Examples.moderator Guests.room0).
  - reflexivity.
  - reflexivity.
  - apply NoDup_nil_2.
Defined.

Lemma refused_entry_leaves_the_membership_witness :
  rowsOf 1 "1003"
    (fst (addTicketParticipant 0 Guests.platformRefuses Examples.aliceOpen
            Guests.carol Examples.moderator Guests.room0)) ≠ [].
Proof.
  apply (refused_entry_leaves_the_membership 0 Guests.platformRefuses
           Examples.aliceOpen Guests.carol Examples.moderator Guests.room0
           "Missing Permissions").
  - reflexivity.
  - reflexivity.
Defined.

Lemma membership_key_stays_unique_witness :
  NoDup (keyOf <$> ticketMembers
           (fst (addTicketParticipant 0 Guests.answering Examples.aliceOpen
                   Guests.carol Examples.moderator Guests.room0))).
Proof.
  apply (membership_key_stays_unique 0 Guests.answering Examples.aliceOpen
           Guests.carol Examples.moderator Guests.room0).
  apply NoDup_nil_2.
Defined.

Lemma removal_revokes_access_and_keeps_the_row_witness :
  let added := fst (addTicketParticipant 0 Guests.answering Examples.aliceOpen
                      Guests.carol Examples.moderator Guests.room0) in
  let ended := removeTicketParticipant Guests.answering Examples.aliceOpen "1003"
                 Examples.moderator added in
  snd ended = true ∧ overwrites (fst ended) !! "1003" = None.
Proof.
  destruct (removal_revokes_access_and_keeps_the_row 0 Guests.answering
              Guests.answering Examples.aliceOpen Guests.carol Examples.moderator
              Examples.moderator Guests.room0) as (H1 & H2 & _).
  - reflexivity.
  - reflexivity.
  - reflexivity.
  - reflexivity.
  - apply NoDup_nil_2.
  - split; [exact H1 | exact H2].
Defined.

Lemma removing_a_stranger_fails_witness :
  snd (removeTicketParticipant Guests.answering Examples.aliceOpen "1003"
         Examples.moderator Guests.room0) = false.
Proof.
  apply (removing_a_stranger_fails Guests.answering Examples.aliceOpen "1003"
           Examples.moderator Guests.room0).
  reflexivity.
Defined.

End ParticipantsFacts.

(** ** Properties of the ticket opener *)

Module OpenerFacts.
Import Js Store Transcript TicketHandler Opener JsFacts.

(** *** [parseInt] reads what [toString] writes *)

Lemma pretty_N_char_digit d :
  (d < 10)%N →
  isDigit (pretty_N_char d) = true ∧ digitValue (pretty_N_char d) = d.
Proof.
  intros Hd.
  assert (d = 0 ∨ d = 1 ∨ d = 2 ∨ d = 3 ∨ d = 4 ∨ d = 5 ∨ d = 6 ∨ d = 7 ∨
          d = 8 ∨ d = 9)%N as H by lia.
  repeat (destruct H as [->|H]; [by vm_compute|]). subst. by vm_compute.
Qed.

Lemma decimal_pretty_N_go x s :
  decimal 0 (pretty_N_go x s) = decimal x s.
Proof.
  revert s. induction (N.lt_wf_0 x) as [x _ IH]; intros s.
  destruct (decide (x = 0)%N) as [->|Hx]; [by rewrite pretty_N_go_0|].
  rewrite pretty_N_go_step by lia.
  rewrite IH by (apply N.div_lt; lia). cbn [decimal].
  destruct (pretty_N_char_digit (x `mod` 10)%N) as [-> ->];
    [apply N.mod_lt; lia|].
  f_equal. symmetry. apply N.div_mod'.
Qed.

Lemma digits_pretty_N_go x s :
  all_chars isDigit s = true → all_chars isDigit (pretty_N_go x s) = true.
Proof.
  revert s. induction (N.lt_wf_0 x) as [x _ IH]; intros s Hs.
  destruct (decide (x = 0)%N) as [->|Hx]; [by rewrite pretty_N_go_0|].
  rewrite pretty_N_go_step by lia. apply IH; [apply N.div_lt; lia|].
  cbn [all_chars]. rewrite Hs.
  by destruct (pretty_N_char_digit (x `mod` 10)%N) as [-> _];
    [apply N.mod_lt; lia|].
Qed.

Lemma nonempty_pretty_N_go x c s : pretty_N_go x (String c s) ≠ EmptyString.
Proof.
  revert c s. induction (N.lt_wf_0 x) as [x _ IH]; intros c s.
  destruct (decide (x = 0)%N) as [->|Hx]; [by rewrite pretty_N_go_0|].
  rewrite pretty_N_go_step by lia. apply IH, N.div_lt; lia.
Qed.

(** The decimal text of a natural: digits only, at least one, and they
    read as the number. *)
Lemma pretty_nat_digits (n : nat) :
  ∃ c r, pretty n = String c r ∧ all_chars isDigit (String c r) = true ∧
         decimal 0 (String c r) = N.of_nat n.
Proof.
  unfold pretty, pretty_nat, pretty, pretty_N.
  destruct (decide (N.of_nat n = 0)%N) as [E|E]; [rewrite E; by eexists _, _|].
  destruct (pretty_N_go (N.of_nat n) EmptyString) as [|c r] eqn:Hs.
  - exfalso. rewrite pretty_N_go_step in Hs by lia.
    by apply nonempty_pretty_N_go in Hs.
  - exists c, r. split; [done|]. rewrite <- Hs. split.
    + by apply digits_pretty_N_go.
    + by rewrite decimal_pretty_N_go.
Qed.

Lemma digit_is_no_prefix c :
  isDigit c = true →
  isWhiteSpace c = false ∧ c ≠ "-"%char ∧ c ≠ "+"%char ∧ c ≠ "x"%char ∧ c ≠ "X"%char.
Proof.
  unfold isDigit, isWhiteSpace. intros [H1 H2]%andb_prop.
  apply Nat.leb_le in H1, H2. repeat split.
  - repeat match goal with
           | |- context [?a <=? ?b] => destruct (Nat.leb_spec a b)
           | |- context [?a =? ?b] => destruct (Nat.eqb_spec a b)
           end; cbn; try done; lia.
  - intros ->. change (nat_of_ascii "-") with 45 in H1. lia.
  - intros ->. change (nat_of_ascii "+") with 43 in H1. lia.
  - intros ->. change (nat_of_ascii "x") with 120 in H2. lia.
  - intros ->. change (nat_of_ascii "X") with 88 in H2. lia.
Qed.

Lemma prefix_two_one a b p c :
  String.prefix (String a (String b p)) (String c EmptyString) = false.
Proof. cbn. by destruct (Ascii.ascii_dec a c). Qed.

Lemma prefix_second_ne a b p c c2 r :
  b ≠ c2 → String.prefix (String a (String b p)) (String c (String c2 r)) = false.
Proof.
  intros Hne. cbn. destruct (Ascii.ascii_dec a c); [|done].
  destruct (Ascii.ascii_dec b c2); congruence.
Qed.

Lemma parseInt_digits c r :
  all_chars isDigit (String c r) = true →
  parseInt (String c r) = Some (Z.of_N (decimal 0 (String c r))).
Proof.
  cbn [all_chars]. intros [Hc Hr]%andb_prop.
  destruct (digit_is_no_prefix c Hc) as (Hw & Hm & Hp & _).
  unfold parseInt. cbn [trimStart]. rewrite Hw.
  rewrite decide_False, decide_False by done. cbn [fst snd].
  assert (String.prefix "0x" (String c r) = false ∧
          String.prefix "0X" (String c r) = false) as [-> ->].
  { destruct r as [|c2 r]; [split; apply prefix_two_one|].
    cbn in Hr. apply andb_prop in Hr as [Hc2 _].
    destruct (digit_is_no_prefix c2 Hc2) as (_ & _ & _ & Hx & HX).
    split; apply prefix_second_ne; congruence. }
  cbn [orb]. rewrite Hc. f_equal. lia.
Qed.

Lemma parseInt_pretty (n : nat) : parseInt (pretty n) = Some (Z.of_nat n).
Proof.
  destruct (pretty_nat_digits n) as (c & r & -> & Hd & Hv).
  rewrite parseInt_digits, Hv by done. f_equal. lia.
Qed.

Lemma find_category_by_id (l : list CategoryRow) category :
  NoDup (c_id <$> l) → category ∈ l →
  List.find (λ c, c_id c =? c_id category) l = Some category.
Proof.
  induction l as [|c l IH]; intros Hnd Hin; [by apply elem_of_nil in Hin|].
  rewrite fmap_cons in Hnd. apply NoDup_cons in Hnd as [Hc Hnd]. cbn.
  apply elem_of_cons in Hin as [->|Hin]; [by rewrite Nat.eqb_refl|].
  destruct (Nat.eqb_spec (c_id c) (c_id category)) as [E|_]; [|by apply IH].
  destruct Hc. rewrite E. by apply list_elem_of_fmap_2.
Qed.

Section Menu.

Variable tbxIdRegex : string → bool.

(** X21.  Every entry of the menu opens its category: the value of the
    entry [setup] builds for a category is read back by the callback as
    the identity of that category (identities below 2^53, where the
    numbers of the source are exact), so that selecting the entry runs
    [createNewTicket] for that identity; and while the category is in the
    store, whose identities are unique, it is the category the lookup of
    [createNewTicket] finds. *)
Theorem menu_entry_opens_its_category envr o user w categories opt :
  categories ≠ [] →
  (∀ c, c ∈ categories → (Z.of_nat (c_id c) < 2 ^ 53)%Z) →
  opt ∈ stringOptions categories →
  ∃ category,
    category ∈ categories ∧ opt = categoryOption category ∧
    parseInt (opt_value opt) = Some (Z.of_nat (c_id category)) ∧
    callback tbxIdRegex envr o user true [opt_value opt] w
    = (fst (createNewTicket tbxIdRegex envr o user (c_id category) w), Ok ()) ∧
    (NoDup (c_id <$> ticketCategories (db w)) →
     category ∈ ticketCategories (db w) →
     findCategory (db w) (c_id category) = Some category).
Proof.
  intros Hne Hexact Hopt. destruct categories as [|c0 rest]; [done|].
  cbn [stringOptions] in Hopt.
  apply list_elem_of_fmap in Hopt as (category & -> & Hin).
  exists category. split; [done|]. split; [done|].
  cbn [opt_value categoryOption]. rewrite parseInt_pretty.
  split; [done|]. split.
  - unfold callback. cbn [head mbind option_bind]. rewrite parseInt_pretty.
    unfold createNewTicketAt.
    rewrite (proj2 (Z.ltb_ge _ _)) by lia.
    by rewrite Nat2Z.id.
  - intros Hnd Hstored. by apply find_category_by_id.
Qed.

(** X22.  Without a category the menu has one entry, and selecting it
    opens nothing: the value of the entry reads as a negative identity,
    for which [createNewTicket] finds no category; the requester is told
    the data is invalid, and that is all. *)
Theorem placeholder_opens_nothing envr o user w :
  isOk (cr_getCategoryData o) = true →
  stringOptions [] = [noCategories] ∧
  parseInt (opt_value noCategories) = Some (-1)%Z ∧
  callback tbxIdRegex envr o user true [opt_value noCategories] w
  = (emit (Reply "Invalid Data") w, Ok ()).
Proof.
  intros Hq. split; [done|]. split; [by vm_compute|].
  unfold callback. cbn [head mbind option_bind].
  replace (parseInt (opt_value noCategories)) with (Some (-1)%Z) by by vm_compute.
  unfold createNewTicketAt. cbn. by destruct (cr_getCategoryData o).
Qed.

End Menu.

Lemma menu_entry_opens_its_category_witness :
  callback Examples.tokenShape Examples.env0
    (Examples.createOracle (Ok Examples.submitted)) Examples.moderator true ["1"]
    Examples.world0
  = (fst (createNewTicket Examples.tokenShape Examples.env0
            (Examples.createOracle (Ok Examples.submitted)) Examples.moderator 1
            Examples.world0), Ok ()).
Proof.
  destruct (menu_entry_opens_its_category Examples.tokenShape Examples.env0
              (Examples.createOracle (Ok Examples.submitted)) Examples.moderator
              Examples.world0 [Examples.billing] (categoryOption Examples.billing))
    as (category & Hin & Hopt & _ & Hrun & _).
  - discriminate.
  - intros c Hc. apply list_elem_of_singleton in Hc as ->. vm_compute. reflexivity.
  - apply list_elem_of_here.
  - apply list_elem_of_singleton in Hin as ->. exact Hrun.
Defined.

Lemma placeholder_opens_nothing_witness :
  callback Examples.tokenShape Examples.env0
    (Examples.createOracle (Ok Examples.submitted)) Examples.moderator true ["-1"]
    Examples.world0
  = (emit (Reply "Invalid Data") Examples.world0, Ok ()).
Proof.
  apply (placeholder_opens_nothing Examples.tokenShape Examples.env0
           (Examples.createOracle (Ok Examples.submitted)) Examples.moderator
           Examples.world0).
  reflexivity.
Defined.

End OpenerFacts.

(** ** Properties of the configuration *)

Module ConfigFacts.
Import Js Store Transcript TicketHandler Rendering Config JsFacts.

Lemma trimStart_head s :
  trimStart s = EmptyString ∨
  ∃ c r, trimStart s = String c r ∧ isWhiteSpace c = false.
Proof.
  induction s as [|c r IH]; [by left|]. cbn.
  destruct (isWhiteSpace c) eqn:E; [done|]. right. by exists c, r.
Qed.

Lemma trimEnd_idempotent s : trimEnd (trimEnd s) = trimEnd s.
Proof.
  induction s as [|c r IH]; [done|]. cbn [trimEnd].
  destruct (trimEnd r) as [|c' r'] eqn:E.
  - destruct (isWhiteSpace c) eqn:Ec; [done|]. cbn. by rewrite Ec.
  - cbn [trimEnd]. cbn [trimEnd] in IH. by rewrite IH.
Qed.

Lemma trimStart_trimEnd c r :
  isWhiteSpace c = false → trimStart (trimEnd (String c r)) = trimEnd (String c r).
Proof.
  intros Hc. cbn [trimEnd].
  destruct (trimEnd r); rewrite ?Hc; cbn; by rewrite Hc.
Qed.

Lemma trim_idempotent s : trim (trim s) = trim s.
Proof.
  unfold trim. destruct (trimStart_head s) as [->|(c & r & -> & Hc)]; [done|].
  by rewrite trimStart_trimEnd, trimEnd_idempotent.
Qed.

Lemma all_chars_trimStart p s : all_chars p s = true → all_chars p (trimStart s) = true.
Proof.
  induction s as [|c r IH]; [done|]. cbn. intros [Hc Hr]%andb_prop.
  destruct (isWhiteSpace c); [by apply IH|]. cbn. by rewrite Hc, Hr.
Qed.

Lemma all_chars_trimEnd p s : all_chars p s = true → all_chars p (trimEnd s) = true.
Proof.
  induction s as [|c r IH]; [done|]. cbn. intros [Hc Hr]%andb_prop.
  specialize (IH Hr). destruct (trimEnd r).
  - destruct (isWhiteSpace c); [done|]. cbn. by rewrite Hc.
  - cbn [all_chars]. by rewrite Hc.
Qed.

Lemma split_parts sep s :
  Forall (λ part, all_chars (λ c, negb (Ascii.eqb sep c)) part = true) (split sep s).
Proof.
  induction s as [|c r IH]; [by repeat constructor|]. cbn.
  case_decide as Hc; [by constructor|].
  destruct (split sep r) as [|part parts]; [repeat constructor|].
  - cbn. rewrite andb_true_r. apply negb_true_iff, Ascii.eqb_neq. congruence.
  - apply Forall_cons in IH as [Hpart Hparts]. constructor; [|done].
    cbn. rewrite Hpart, andb_true_r. apply negb_true_iff, Ascii.eqb_neq. congruence.
Qed.

Lemma includes_absent x s :
  all_chars (λ c, negb (Ascii.eqb x c)) s = true →
  includes (String x EmptyString) s = false.
Proof.
  induction s as [|c r IH]; [done|]. cbn -[String.prefix].
  intros [Hc Hr]%andb_prop. apply negb_true_iff, Ascii.eqb_neq in Hc.
  by rewrite prefix_head_ne, IH.
Qed.

Lemma join_split sep s : join (String sep EmptyString) (split sep s) = s.
Proof.
  induction s as [|c r IH]; [done|]. cbn [split].
  destruct (RenderingFacts.split_cons sep r) as (part & parts & E). rewrite E in *.
  case_decide as Hc.
  - subst c. by rewrite RenderingFacts.join_cons_cons, IH.
  - change (String c part) with (String c EmptyString +:+ part).
    by rewrite RenderingFacts.join_head_app, IH.
Qed.

Lemma length_split s :
  length (split "," s) = S (commas s).
Proof.
  unfold commas. induction s as [|c r IH]; [done|]. cbn [split list_ascii_of_string].
  cbn [List.filter]. case_decide as Hc.
  - subst c. cbn. by rewrite IH.
  - replace (Ascii.eqb "," c) with false
      by (symmetry; apply Ascii.eqb_neq; congruence).
    destruct (split "," r); [done|]. cbn in *. lia.
Qed.

(** X23.  The staff roles of the configuration: the setting, cut at its
    commas, each piece trimmed.  Every role identity is free of commas and
    of surrounding white space, a setting that is not empty yields one
    identity more than it has commas, so at least one, and there is no
    identity exactly when neither variable holds text. *)
Theorem staff_roles_are_the_pieces_of_the_setting (STAFF_ROLE_IDS STAFF_ROLE_ID : option string) :
  let ids := staffRoleIds STAFF_ROLE_IDS STAFF_ROLE_ID in
  (∀ id, id ∈ ids → trim id = id ∧ includes "," id = false) ∧
  (∀ setting, orElse STAFF_ROLE_IDS STAFF_ROLE_ID = Some setting →
     truthy setting = true →
     length ids = S (commas setting) ∧ join "," (split "," setting) = setting) ∧
  (ids = [] ↔ truthyOpt (orElse STAFF_ROLE_IDS STAFF_ROLE_ID) = false).
Proof.
  cbn zeta. unfold staffRoleIds.
  destruct (orElse STAFF_ROLE_IDS STAFF_ROLE_ID) as [setting|]; cbn [truthyOpt].
  2:{ split; [by intros id ?%elem_of_nil|]. by split. }
  destruct (truthy setting) eqn:Ht.
  2:{ split; [by intros id ?%elem_of_nil|]. split; [|done].
      intros s [= <-]. congruence. }
  split; [|split].
  - intros id (part & -> & Hin)%list_elem_of_fmap.
    split; [apply trim_idempotent|].
    apply includes_absent, all_chars_trimEnd, all_chars_trimStart.
    pose proof (split_parts "," setting) as Hparts.
    by apply (proj1 (Forall_forall _ _) Hparts).
  - intros s [= <-] _. rewrite length_fmap, length_split.
    split; [done | apply join_split].
  - split; [|done]. intros H. apply fmap_nil_inv in H.
    by destruct (RenderingFacts.split_cons "," setting) as (? & ? & ?);
      congruence.
Qed.

End ConfigFacts.

(** ** Properties of the slash commands *)

Module CommandsFacts.
Import Js Store Transcript TicketHandler Commands JsFacts.

(** *** export-transcript *)

Lemma exportToArchive_files o ticket doc transcriptChannel call file :
  call ∈ exportToArchive o ticket doc transcriptChannel →
  file ∈ filesOf call → file = exportAttachment ticket doc.
Proof.
  unfold exportToArchive. repeat case_match;
    rewrite ?elem_of_cons, ?elem_of_nil; intros Hc Hf;
    repeat (destruct Hc as [->|Hc]); try done;
    cbn in Hf; try (by apply elem_of_nil in Hf);
    by apply list_elem_of_singleton in Hf.
Qed.

(** Splits a hypothesis that a call is one of those listed. *)
Ltac among H :=
  repeat match type of H with
         | _ ∨ _ => destruct H as [H|H]
         | False => destruct H
         end.

(** X24.  An export hands out the transcript of the ticket of the channel
    it is used in, and nothing else: every file a call of the command
    carries, in the reply or in the copy for the archive channel, is the
    transcript generated from the store for the ticket registered for the
    channel. *)
Theorem export_hands_out_the_transcript_of_the_ticket envr o channelId w call file :
  call ∈ fst (exportTranscript envr o channelId w) → file ∈ filesOf call →
  ∃ ticket doc,
    getTicket channelId w = Some ticket ∧
    generateTicketTranscript (ex_transcriptQuery o) (db w) (ticketId ticket) = Ok doc ∧
    file = exportAttachment ticket doc.
Proof.
  unfold exportTranscript.
  destruct (ex_deferReply o); cbn [fst].
  2:{ intros ->%list_elem_of_singleton Hf. by apply elem_of_nil in Hf. }
  destruct (getTicket channelId w) as [ticket|]; cbn [fst].
  2:{ rewrite !elem_of_cons, elem_of_nil. intros [->|[->|[]]] Hf;
        by apply elem_of_nil in Hf. }
  destruct (generateTicketTranscript _ _ _) as [doc|e] eqn:Hdoc; cbn [fst].
  2:{ rewrite !elem_of_app, !elem_of_cons, !elem_of_nil.
      intros Hc Hf. among Hc; subst call; by apply elem_of_nil in Hf. }
  intros Hc Hf. exists ticket, doc. split; [done|]. split; [done|].
  destruct (ex_editReplyFiles o); cbn [fst] in Hc;
    rewrite !elem_of_app, !elem_of_cons, !elem_of_nil in Hc; among Hc;
    try (subst call; cbn [filesOf] in Hf;
         first [ by apply elem_of_nil in Hf | by apply list_elem_of_singleton in Hf ]).
  destruct (TRANSCRIPT_CHANNEL_ID envr) as [tc|]; [|by apply elem_of_nil in Hc].
  destruct (truthy tc); [|by apply elem_of_nil in Hc].
  by eapply exportToArchive_files.
Qed.

Lemma exportToArchive_copy o ticket doc transcriptChannel :
  existsb isArchiveCopy (exportToArchive o ticket doc transcriptChannel)
  = match ex_fetchTranscriptChannel o with Ok (Some true) => true | _ => false end.
Proof. unfold exportToArchive. by repeat case_match. Qed.

(** X25.  The copy of an export for the archive channel: it is posted
    exactly when the reply with the transcript returned and the archive
    channel is configured and resolves to a text channel; and once the
    reply with the transcript returned the command returns normally,
    whatever becomes of the copy. *)
Theorem export_copy_is_best_effort envr o channelId w :
  let ended := exportTranscript envr o channelId w in
  let replied :=
    isOk (ex_deferReply o) &&
    match getTicket channelId w with
    | Some ticket =>
        isOk (generateTicketTranscript (ex_transcriptQuery o) (db w) (ticketId ticket))
    | None => false
    end && isOk (ex_editReplyFiles o) in
  existsb isArchiveCopy (fst ended)
  = replied && copyResolved envr o ∧
  (replied = true → snd ended = Ok ()).
Proof.
  cbn zeta. unfold exportTranscript, copyResolved.
  destruct (ex_deferReply o); [|done].
  destruct (getTicket channelId w) as [ticket|]; [|done].
  destruct (generateTicketTranscript _ _ _) as [doc|e]; [|done].
  destruct (ex_editReplyFiles o); [|done].
  cbn [fst snd isOk andb]. split; [|done].
  rewrite !existsb_app. cbn [existsb isArchiveCopy orb]. rewrite orb_false_r.
  destruct (TRANSCRIPT_CHANNEL_ID envr) as [tc|]; [|done]. cbn [truthyOpt].
  destruct (truthy tc); [|done]. apply exportToArchive_copy.
Qed.

Lemma export_hands_out_the_transcript_of_the_ticket_witness :
  ∃ ticket doc,
    getTicket "700" Examples.world0 = Some ticket ∧
    generateTicketTranscript (Ok ()) (db Examples.world0) (ticketId ticket) = Ok doc.
Proof.
  edestruct (export_hands_out_the_transcript_of_the_ticket Examples.env0
               Guests.exporting "700" Examples.world0)
    as (ticket & doc & Ht & Hdoc & _).
  - vm_compute. do 3 apply list_elem_of_further. apply list_elem_of_here.
  - cbn. apply list_elem_of_here.
  - by exists ticket, doc.
Defined.

(** *** ticket-category *)

Lemma failedRun_store o what d issued e : store (failedRun o what d issued e) = d.
Proof. reflexivity. Qed.

Lemma answered_store o what d content : store (answered o what d content) = d.
Proof. unfold answered. by destruct (sto_reply o). Qed.

(** The store a run of [add] leaves: the store it found, or that store
    with the new category. *)
Lemma categoryAdd_store o name discordCategory requireTransaction description emoji d :
  let ran := categoryAdd o name discordCategory requireTransaction description emoji d in
  store ran = d ∨
  (findByName d name = None ∧
   store ran = insertCategory
                 {| c_id := next_id (c_id <$> ticketCategories d);
                    c_name := name; c_description := description; c_emoji := emoji;
                    c_categoryId := discordCategory;
                    c_requireTbxId := default true requireTransaction |} d).
Proof.
  cbn zeta. unfold categoryAdd.
  destruct (sto_find o); [|by left].
  destruct (findByName d name) eqn:E; [left; apply answered_store|].
  destruct (sto_write o); [|by left].
  right. split; [done|].
  destruct (categoryCreated o _); [|done]. by destruct (sto_reply o).
Qed.

Lemma categoryDelete_store o name d :
  let ran := categoryDelete o name d in
  store ran = d ∨
  (∃ category, findByName d name = Some category ∧ ticketsOf d category = 0 ∧
               store ran = deleteCategory name d).
Proof.
  cbn zeta. unfold categoryDelete.
  destruct (sto_find o); [|by left].
  destruct (findByName d name) as [category|] eqn:E; [|left; apply answered_store].
  destruct (ticketsOf d category) as [|n] eqn:En; cbn [Nat.ltb Nat.leb];
    [|left; apply answered_store].
  destruct (sto_write o); [|by left].
  right. exists category. split; [done|]. split; [done|]. by destruct (sto_reply o).
Qed.

Lemma categoryUpdate_store o name data d :
  let ran := categoryUpdate o name data d in
  store ran = d ∨ store ran = updateCategory name (applyUpdate data) d.
Proof.
  cbn zeta. unfold categoryUpdate.
  destruct (sto_find o); [|by left].
  destruct (findByName d name); [|left; apply answered_store].
  destruct (noUpdate data); [left; apply answered_store|].
  destruct (sto_write o); [|by left].
  right. destruct (categoryUpdated o name data); [|done]. by destruct (sto_reply o).
Qed.

Lemma findByName_None d name :
  findByName d name = None → name ∉ c_name <$> ticketCategories d.
Proof.
  unfold findByName. intros Hfind (c & -> & Hin)%list_elem_of_fmap.
  apply list_elem_of_In in Hin.
  pose proof (List.find_none _ _ Hfind c Hin) as Hc. cbn in Hc.
  by rewrite String.eqb_refl in Hc.
Qed.

Lemma updateCategory_keys name data d :
  c_id <$> ticketCategories (updateCategory name (applyUpdate data) d)
  = c_id <$> ticketCategories d ∧
  c_name <$> ticketCategories (updateCategory name (applyUpdate data) d)
  = c_name <$> ticketCategories d.
Proof.
  cbn [ticketCategories updateCategory]. rewrite <- !list_fmap_compose.
  split; apply list_fmap_ext; intros i c _; cbn;
    by destruct (String.eqb (c_name c) name).
Qed.

(** X26.  The categories stay keyed: whatever the store and the platform
    answer, after [add], after [delete] and after [update] no two
    categories share an identity and no two share a name, if none did
    before. *)
Theorem category_keys_stay_unique o name discordCategory requireTransaction
    description emoji data d :
  categoriesKeyed d →
  categoriesKeyed
    (store (categoryAdd o name discordCategory requireTransaction description emoji d)) ∧
  categoriesKeyed (store (categoryDelete o name d)) ∧
  categoriesKeyed (store (categoryUpdate o name data d)).
Proof.
  intros [Hid Hname]. split; [|split].
  - destruct (categoryAdd_store o name discordCategory requireTransaction
                description emoji d) as [->|[Hnew ->]]; [done|].
    split; cbn [ticketCategories insertCategory]; rewrite fmap_app; cbn.
    + by apply LifecycleFacts.next_id_NoDup.
    + apply NoDup_app. split; [done|]. split; [|apply NoDup_singleton].
      intros n Hn ->%list_elem_of_singleton. by apply findByName_None in Hnew.
  - destruct (categoryDelete_store o name d) as [->|(category & _ & _ & ->)]; [done|].
    split; cbn [ticketCategories deleteCategory]; by apply HandlerFacts.NoDup_fmap_filter.
  - destruct (categoryUpdate_store o name data d) as [->| ->]; [done|].
    unfold categoriesKeyed.
    destruct (updateCategory_keys name data d) as [-> ->]. done.
Qed.

Lemma NoDup_fmap_eq {A B} (f : A → B) (l : list A) x y :
  NoDup (f <$> l) → x ∈ l → y ∈ l → f x = f y → x = y.
Proof.
  induction l as [|z l IH]; intros Hnd Hx Hy E; [by apply elem_of_nil in Hx|].
  rewrite fmap_cons in Hnd. apply NoDup_cons in Hnd as [Hz Hnd].
  apply elem_of_cons in Hx as [->|Hx]; apply elem_of_cons in Hy as [->|Hy].
  - done.
  - destruct Hz. rewrite E. by apply list_elem_of_fmap_2.
  - destruct Hz. rewrite <- E. by apply list_elem_of_fmap_2.
  - by apply IH.
Qed.

Lemma find_present {A} (p : A → bool) (l : list A) x :
  x ∈ l → p x = true → ∃ y, List.find p l = Some y.
Proof.
  intros Hin Hp. destruct (List.find p l) as [y|] eqn:E; [by exists y|].
  apply list_elem_of_In in Hin. pose proof (List.find_none _ _ E x Hin). congruence.
Qed.

Lemma findCategory_elem d id category :
  findCategory d id = Some category →
  category ∈ ticketCategories d ∧ c_id category = id.
Proof.
  unfold findCategory. intros [Hin Hid]%List.find_some.
  split; [by apply list_elem_of_In | by apply Nat.eqb_eq].
Qed.

Lemma categorized_kept d d' :
  tickets d' = tickets d →
  (∀ c, c ∈ ticketCategories d → (∃ t, t ∈ tickets d ∧ t_category t = c_id c) →
        ∃ c', c' ∈ ticketCategories d' ∧ c_id c' = c_id c) →
  ticketsCategorized d → ticketsCategorized d'.
Proof.
  intros Ht Hkept Hd t Hin. rewrite Ht in Hin.
  destruct (Hd t Hin) as [c [Hc Hid]%findCategory_elem].
  destruct (Hkept c Hc) as (c' & Hc' & Hid'); [by exists t|].
  unfold findCategory. apply (find_present _ _ c' Hc').
  apply Nat.eqb_eq. congruence.
Qed.

(** X27.  A category in use is never lost: the three subcommands leave
    the tickets of the store alone, and whatever the store and the
    platform answer, after [add], after [delete] and after [update] every
    ticket still has its category, if every ticket had before and the
    categories were keyed; [delete] only takes a category no ticket
    refers to. *)
Theorem categories_in_use_are_kept o name discordCategory requireTransaction
    description emoji data d :
  categoriesKeyed d → ticketsCategorized d →
  let added := store (categoryAdd o name discordCategory requireTransaction
                        description emoji d) in
  let deleted := store (categoryDelete o name d) in
  let updated := store (categoryUpdate o name data d) in
  (tickets added = tickets d ∧ ticketsCategorized added) ∧
  (tickets deleted = tickets d ∧ ticketsCategorized deleted) ∧
  (tickets updated = tickets d ∧ ticketsCategorized updated).
Proof.
  intros [Hid Hname] Hd. cbn zeta. split; [|split].
  - destruct (categoryAdd_store o name discordCategory requireTransaction
                description emoji d) as [->|[_ ->]]; [done|].
    split; [done|]. apply (categorized_kept d); [done| |done].
    intros c Hc _. exists c. split; [|done].
    cbn [ticketCategories insertCategory]. apply elem_of_app. by left.
  - destruct (categoryDelete_store o name d)
      as [->|(category & Hfind & Hcount & ->)]; [done|].
    split; [done|]. apply (categorized_kept d); [done| |done].
    intros c Hc (t & Ht & Htc). exists c. split; [|done].
    cbn [ticketCategories deleteCategory].
    apply list_elem_of_In, List.filter_In. split; [by apply list_elem_of_In|].
    apply negb_true_iff, String.eqb_neq. intros Hcn.
    unfold findByName in Hfind. apply List.find_some in Hfind as [Hin Hn].
    apply String.eqb_eq in Hn. apply list_elem_of_In in Hin.
    assert (c = category) as -> by (eapply (NoDup_fmap_eq c_name); [done..|congruence]).
    unfold ticketsOf in Hcount. apply length_zero_iff_nil in Hcount.
    assert (t ∈ List.filter (λ t, t_category t =? c_id category) (tickets d)) as Hf.
    { apply list_elem_of_In, List.filter_In. split; [by apply list_elem_of_In|].
      by apply Nat.eqb_eq. }
    rewrite Hcount in Hf. by apply elem_of_nil in Hf.
  - destruct (categoryUpdate_store o name data d) as [->| ->]; [done|].
    split; [done|]. apply (categorized_kept d); [done| |done].
    intros c Hc _.
    exists (if String.eqb (c_name c) name then applyUpdate data c else c).
    split; [|by destruct (String.eqb (c_name c) name)].
    cbn [ticketCategories updateCategory].
    apply list_elem_of_fmap. by exists c.
Qed.

Section Defaults.

Variable tbxIdRegex : string → bool.


End Defaults.

(** Concrete runs of the subcommands. *)
Lemma db0_categories_keyed : categoriesKeyed Examples.db0.
Proof. split; refine (bool_decide_unpack _ _); vm_compute; exact I. Qed.

Lemma db0_tickets_categorized : ticketsCategorized Examples.db0.
Proof.
  intros t Ht. unfold Examples.db0 in Ht. cbn [tickets] in Ht.
  apply list_elem_of_singleton in Ht as ->. by exists Examples.billing.
Qed.

Lemma category_keys_stay_unique_witness :
  categoriesKeyed
    (store (categoryAdd Guests.storing "Support" "501" None None None Examples.db0)).
Proof.
  apply (category_keys_stay_unique Guests.storing "Support" "501" None None None
           {| up_categoryId := None; up_requireTbxId := None;
              up_description := None; up_emoji := None |} Examples.db0).
  exact db0_categories_keyed.
Defined.

Lemma categories_in_use_are_kept_witness :
  ticketsCategorized (store (categoryDelete Guests.storing "Billing" Examples.db0)).
Proof.
  apply (categories_in_use_are_kept Guests.storing "Billing" "501" None None None
           {| up_categoryId := None; up_requireTbxId := None;
              up_description := None; up_emoji := None |} Examples.db0).
  - exact db0_categories_keyed.
  - exact db0_tickets_categorized.
Defined.


(** *** ticket-field *)

(** X29.  A removal takes one field, of the category named: whatever the
    store and the platform answer, [remove] adds no field, leaves the
    tickets and the categories alone, and a field that is gone afterwards
    has the identity given and belongs to the category of the name given
    (the identities of the fields being unique). *)
Theorem field_removal_stays_in_its_category o categoryName fieldId d :
  NoDup (f_id <$> ticketCategoryFields d) →
  let ran := fieldRemove o categoryName fieldId d in
  tickets (store ran) = tickets d ∧
  ticketCategories (store ran) = ticketCategories d ∧
  (∀ field, field ∈ ticketCategoryFields (store ran) → field ∈ ticketCategoryFields d) ∧
  (∀ field, field ∈ ticketCategoryFields d →
     field ∉ ticketCategoryFields (store ran) →
     Z.of_nat (f_id field) = fieldId ∧
     ∃ category, findByName d categoryName = Some category ∧
                 f_category field = c_id category).
Proof.
  intros Hnd. cbn zeta.
  assert (store (fieldRemove o categoryName fieldId d) = d ∨
          ∃ category found,
            findByName d categoryName = Some category ∧
            findField d fieldId (c_id category) = Some found ∧
            store (fieldRemove o categoryName fieldId d) = deleteField fieldId d)
    as [->|(category & found & Hc & Hf & ->)].
  { unfold fieldRemove, fieldAnswered.
    destruct (sto_find o); [|by left].
    destruct (findByName d categoryName) as [category|];
      [|left; by destruct (sto_reply o)].
    destruct (findField d fieldId (c_id category)) as [found|] eqn:Hf;
      [|left; by destruct (sto_reply o)].
    destruct (sto_write o); [|by left].
    right. exists category, found. by destruct (sto_reply o). }
  { by repeat split. }
  split; [done|]. split; [done|]. cbn [ticketCategoryFields deleteField]. split.
  - intros field Hin. by apply list_elem_of_In, List.filter_In in Hin as [Hin _];
      apply list_elem_of_In.
  - intros field Hin Hgone.
    assert (Z.of_nat (f_id field) = fieldId) as Hid.
    { destruct (Z.eqb_spec (Z.of_nat (f_id field)) fieldId) as [E|E]; [done|].
      destruct Hgone. apply list_elem_of_In, List.filter_In.
      split; [by apply list_elem_of_In|]. apply negb_true_iff. by apply Z.eqb_neq. }
    split; [done|]. exists category. split; [done|].
    unfold findField in Hf. apply List.find_some in Hf as [Hfin Hfm].
    apply andb_prop in Hfm as [Hfi Hfc]. apply Z.eqb_eq in Hfi. apply Nat.eqb_eq in Hfc.
    assert (field = found) as ->; [|done].
    eapply (NoDup_fmap_eq f_id); [done | done | by apply list_elem_of_In | lia].
Qed.

Lemma field_removal_stays_in_its_category_witness :
  ticketCategoryFields (store (fieldRemove Guests.storing "Billing" 1 Examples.db0))
  = [] ∧
  ticketCategories (store (fieldRemove Guests.storing "Billing" 1 Examples.db0))
  = ticketCategories Examples.db0.
Proof.
  split; [reflexivity|].
  apply (field_removal_stays_in_its_category Guests.storing "Billing" 1 Examples.db0).
  refine (bool_decide_unpack _ _). vm_compute. exact I.
Defined.

End CommandsFacts.

(** ** The transcript of a closed ticket *)

Module ClosureFacts.
Import Js Store Transcript TicketHandler JsFacts TranscriptFacts HandlerFacts.

(** The log of the ticket after a successful closure: the log before it,
    and the closure message. *)
Lemma closed_log envr o self user reason w :
  durable o = true →
  ∃ m, messagesOf (db (fst (closeTicket envr o self user reason w))) (ticketId self)
       = messagesOf (db w) (ticketId self) ++ [m] ∧
       m_sentAt m = (clock w + 1)%Z ∧ hasEmbedMarker m = true.
Proof.
  intros Hd. rewrite (closeTicket_db _ _ _ _ _ _ Hd).
  eexists. split; [|split].
  - erewrite messagesOf_app; [|reflexivity].
    unfold messagesOf at 1. cbn [ticketMessages updateTicket].
    cbn [List.filter m_ticket]. by rewrite Nat.eqb_refl.
  - reflexivity.
  - reflexivity.
Qed.

(** A sorted log whose messages are those of [old] and one later message
    ends with that message. *)
Lemma latest_is_last (old log : list MessageRow) (m : MessageRow) :
  log ≡ₚ old ++ [m] → StronglySorted sentBefore log →
  (∀ x, x ∈ old → (m_sentAt x < m_sentAt m)%Z) →
  ∃ init, log = init ++ [m] ∧ init ≡ₚ old.
Proof.
  intros Hperm Hsorted Hlater.
  assert (m ∈ log) as Hin by (rewrite Hperm, elem_of_app, list_elem_of_singleton; auto).
  apply list_elem_of_split in Hin as (l1 & l2 & ->).
  assert (l1 ++ l2 ≡ₚ old) as Hrest.
  { apply (Permutation_app_inv_r [m]). rewrite <- Hperm.
    rewrite <- app_assoc. apply Permutation_app_head.
    change (m :: l2) with ([m] ++ l2). apply Permutation_app_comm. }
  destruct l2 as [|y l2]; [exists l1; by rewrite app_nil_r in Hrest|].
  exfalso. apply StronglySorted_app_1_r in Hsorted.
  apply StronglySorted_inv in Hsorted as [_ Hm].
  apply Forall_cons in Hm as [Hy _]. unfold sentBefore in Hy.
  assert (y ∈ old) as Hold
    by (rewrite <- Hrest, elem_of_app, elem_of_cons; auto).
  specialize (Hlater y Hold). lia.
Qed.

Lemma filterMessages_marked_end init m :
  hasEmbedMarker m = true → filterMessages (init ++ [m]) `sublist_of` init.
Proof.
  intros Hm. destruct init as [|first mid].
  - rewrite app_nil_l, filterMessages_single. unfold unlessMarked. by rewrite Hm.
  - rewrite <- app_comm_cons, filterMessages_ends. unfold unlessMarked at 2.
    rewrite Hm, app_nil_r. unfold unlessMarked.
    destruct (hasEmbedMarker first); [by apply sublist_cons | done].
Qed.

(** X30.  The closure message stays out of the transcript of the closed
    ticket: a transcript generated from the store a successful closure
    leaves (the closure generates its own from it) holds only messages
    that were stored before the closure, when those were sent no later
    than the closure began. *)
Theorem closure_message_stays_out_of_the_transcript
    envr o self user reason w queryOk doc :
  durable o = true →
  (∀ msg, msg ∈ messagesOf (db w) (ticketId self) → (m_sentAt msg ≤ clock w)%Z) →
  generateTicketTranscript queryOk
    (db (fst (closeTicket envr o self user reason w))) (ticketId self) = Ok doc →
  doc_messages doc `sublist_of` messagesBySentAt
                                  (db (fst (closeTicket envr o self user reason w)))
                                  (ticketId self) ∧
  ∀ msg, msg ∈ doc_messages doc → msg ∈ messagesOf (db w) (ticketId self).
Proof.
  intros Hd Hpast Hgen.
  destruct (closed_log envr o self user reason w Hd) as (m & Hlog & Hsent & Hmark).
  set (d' := db (fst (closeTicket envr o self user reason w))) in *.
  assert (doc_messages doc = filterMessages (messagesBySentAt d' (ticketId self)))
    as Hdoc.
  { unfold generateTicketTranscript in Hgen. destruct queryOk; [|done].
    destruct (findTicketWithCategory d' (ticketId self)) as [[ticket category]|];
      [|done]. by injection Hgen as <-. }
  split; [rewrite Hdoc; apply filter_index_sublist|].
  destruct (latest_is_last (messagesOf (db w) (ticketId self))
              (messagesBySentAt d' (ticketId self)) m) as (init & Hinit & Hperm).
  - unfold messagesBySentAt. rewrite merge_sort_Permutation. by rewrite Hlog.
  - apply messagesBySentAt_sorted.
  - intros x Hx. specialize (Hpast x Hx). lia.
  - intros msg Hmsg. rewrite Hdoc, Hinit in Hmsg. rewrite <- Hperm.
    eapply elem_of_sublist; [exact Hmsg|]. by apply filterMessages_marked_end.
Qed.

Lemma closure_message_stays_out_of_the_transcript_witness :
  ∃ doc,
    generateTicketTranscript (Ok ())
      (db (fst (closeTicket Examples.env0 Examples.closeOk Examples.aliceOpen
                  Examples.moderator (Some "resolved") Examples.world0))) 1 = Ok doc ∧
    ∀ msg, msg ∈ doc_messages doc → msg ∈ messagesOf Examples.db0 1.
Proof.
  eexists. split; [vm_compute; reflexivity|].
  eapply (closure_message_stays_out_of_the_transcript Examples.env0 Examples.closeOk
            Examples.aliceOpen Examples.moderator (Some "resolved") Examples.world0
            (Ok ())).
  - reflexivity.
  - intros msg Hin. apply list_elem_of_In in Hin. vm_compute in Hin.
    destruct Hin as [<-|[<-|[]]]; by vm_compute.
  - vm_compute. reflexivity.
Defined.

End ClosureFacts.
